(** * Cilium: the policy rule model and the CRD schema reconciler

    A shallow embedding of

    - [pkg/policy/api/rule.go]: [Rule], [RequiresDerivative], [CreateDerivative];
    - [pkg/k8s/apis/cilium.io/v2/register.go]: [needsUpdate], [createUpdateCRD],
      the four [create*CRD] functions and [CreateCustomResourceDefinitions].

    Go code that calls out of the package (the apiextensions clientset, the
    derivation capability of an egress rule, the logger) is embedded as a
    program over the calls it makes: a finite tree whose nodes are the calls
    and whose branches are the possible answers.  Running a program against
    an environment yields its result, the final state of the environment and
    the sequence of calls that were made, in order.  That sequence is what
    the statements about "which calls are issued" speak of.

    Part I holds the definitions, Part II the theorems. *)

From Stdlib Require Import ZArith Ascii String.
From stdpp Require Import gmap strings list pretty.

#[local] Set Warnings "-clear-no-such-hyp".

(** * Part I: definitions *)

(* ===================================================================== *)
(** ** Go values shared by both packages *)
(* ===================================================================== *)

Module Go.

(** The [error] interface.  A nil error is [None : option error].
    [StatusError] is the API status error of k8s.io/apimachinery (it
    carries the status reason that [IsNotFound] and [IsAlreadyExists]
    look at); [errorString] is what [errors.New] and [fmt.Errorf] build. *)
Inductive error : Type :=
| StatusError (reason : string) (message : string)
| errorString (s : string).

(** [err.Error()] *)
Definition Error (e : error) : string :=
  match e with
  | StatusError _ m => m
  | errorString s => s
  end.

(** [time.Duration], in nanoseconds. *)
Definition Duration := Z.
Definition Millisecond : Duration := 1000000%Z.
Definition Second : Duration := (1000 * Millisecond)%Z.

(** *** Programs over external calls

    [E X] is the type of calls that are answered by a value of type [X]. *)
Inductive prog (E : Type -> Type) (R : Type) : Type :=
| Ret (r : R)
| Vis {X : Type} (e : E X) (k : X -> prog E R).
Arguments Ret {E R} r.
Arguments Vis {E R X} e k.

Fixpoint bind {E A B} (p : prog E A) (f : A -> prog E B) : prog E B :=
  match p with
  | Ret a => f a
  | Vis e k => Vis e (fun x => bind (k x) f)
  end.

Definition call {E X} (e : E X) : prog E X := Vis e Ret.

(** Programs are sequenced with stdpp's monad notation: [x ← p; q]. *)
#[export] Instance prog_ret {E} : MRet (prog E) := fun _ a => Ret a.
#[export] Instance prog_bind {E} : MBind (prog E) := fun _ _ f p => bind p f.

(** An environment with state [S] answers every call and moves on. *)
Definition handler (E : Type -> Type) (S : Type) : Type :=
  forall X, E X -> S -> X * S.

(** A call that was made (its answer is not recorded). *)
Definition event (E : Type -> Type) : Type := { X : Type & E X }.
Definition ev {E X} (e : E X) : event E := existT X e.

(** [exec hd p s]: the result of [p] run against [hd] from state [s], the
    final state, and the calls made, oldest first. *)
Fixpoint exec {E S R} (hd : handler E S) (p : prog E R) (s : S)
  : R * S * list (event E) :=
  match p with
  | Ret r => (r, s, [])
  | Vis e k =>
      let '(x, s1) := hd _ e s in
      let '(r, s2, t) := exec hd (k x) s1 in
      (r, s2, ev e :: t)
  end.

End Go.

(* ===================================================================== *)
(** ** Package regexp: backtracking matching with submatches

    Go's [regexp] returns, among the leftmost matches, "the one that a
    backtracking search would have found first"; this is that search.  Only
    the operators the version pattern uses are present. *)
(* ===================================================================== *)

Module regexp.

Inductive Regexp : Type :=
| Empty
| Lit (c : ascii)
| Class (p : ascii -> bool)
| Cat (r1 r2 : Regexp)
| Alt (r1 r2 : Regexp)
| Quest (greedy : bool) (r : Regexp)      (* r?  and r??  *)
| Star (greedy : bool) (r : Regexp)       (* r*  and r*?  *)
| Capture (n : nat) (r : Regexp).         (* the n-th parenthesis *)

(** r+ *)
Definition Plus (r : Regexp) : Regexp := Cat r (Star true r).

Definition cat (rs : list Regexp) : Regexp := foldr Cat Empty rs.

(** The submatches: group number to matched text. *)
Abbreviation captures := (gmap nat string).

(** [search r s caps k]: match [r] at the front of [s], then continue with
    [k] on what is left; the first success wins.  A [Star] iterates at most
    [length s] times: every iteration has to consume a character. *)
Fixpoint search (r : Regexp) (s : string) (caps : captures)
    (k : string -> captures -> option captures) {struct r} : option captures :=
  match r with
  | Empty => k s caps
  | Lit c =>
      match s with
      | String c' s' => if Ascii.eqb c c' then k s' caps else None
      | EmptyString => None
      end
  | Class p =>
      match s with
      | String c' s' => if p c' then k s' caps else None
      | EmptyString => None
      end
  | Cat r1 r2 => search r1 s caps (fun s' caps' => search r2 s' caps' k)
  | Alt r1 r2 =>
      match search r1 s caps k with
      | Some c => Some c
      | None => search r2 s caps k
      end
  | Quest greedy r1 =>
      if greedy then
        match search r1 s caps k with Some c => Some c | None => k s caps end
      else
        match k s caps with Some c => Some c | None => search r1 s caps k end
  | Star greedy r1 =>
      (fix loop (fuel : nat) (s : string) (caps : captures) {struct fuel}
         : option captures :=
         match fuel with
         | O => k s caps
         | S fuel' =>
             let again s' caps' :=
               if (String.length s' <? String.length s)%nat
               then loop fuel' s' caps' else None in
             if greedy then
               match search r1 s caps again with
               | Some c => Some c
               | None => k s caps
               end
             else
               match k s caps with
               | Some c => Some c
               | None => search r1 s caps again
               end
         end) (String.length s) s caps
  | Capture n r1 =>
      search r1 s caps (fun s' caps' =>
        k s' (<[n := substring 0 (String.length s - String.length s') s]> caps'))
  end.

(** [FindStringSubmatch] for a pattern anchored with [^] and [$]:
    [None] is Go's nil result. *)
Definition FindStringSubmatch (r : Regexp) (s : string) : option captures :=
  search r s ∅ (fun rest caps =>
    match rest with EmptyString => Some caps | _ => None end).

(** [matches[n]]: a group that took no part in the match is empty. *)
Definition submatch (m : captures) (n : nat) : string := default "" (m !! n).

End regexp.

(* ===================================================================== *)
(** ** Package strconv and strings: what the version library uses *)
(* ===================================================================== *)

Module strconv.

Definition isDigit (c : ascii) : bool :=
  (Ascii.leb "0" c && Ascii.leb c "9")%char.

Definition digitValue (c : ascii) : Z :=
  Z.of_N (N_of_ascii c) - Z.of_N (N_of_ascii "0"%char).

(** The digits of [s] read in base 10, most significant first, onto [acc];
    [None] at a character that is not a digit. *)
Fixpoint readDigits (s : string) (acc : Z) : option Z :=
  match s with
  | EmptyString => Some acc
  | String c s' =>
      if isDigit c then readDigits s' (10 * acc + digitValue c)%Z else None
  end.

(** [strconv.ParseInt(s, 10, 64)]: an optional sign, then one digit or
    more; a value outside int64 is a range error.  (Go's message quotes
    the input; the quotes are left out here.) *)
Definition ParseInt (s : string) : Z + Go.error :=
  let syntaxError :=
    Go.errorString ("strconv.ParseInt: parsing " +:+ s +:+ ": invalid syntax") in
  let rangeError :=
    Go.errorString ("strconv.ParseInt: parsing " +:+ s +:+ ": value out of range") in
  let '(neg, body) :=
    match s with
    | String "+"%char s' => (false, s')
    | String "-"%char s' => (true, s')
    | _ => (false, s)
    end in
  match body with
  | EmptyString => inr syntaxError
  | _ =>
      match readDigits body 0 with
      | None => inr syntaxError
      | Some n =>
          let v := if neg then (- n)%Z else n in
          if ((- 2 ^ 63 <=? v) && (v <=? 2 ^ 63 - 1))%Z then inl v
          else inr rangeError
      end
  end.

(** [strconv.FormatInt(i, 10)] *)
Definition FormatInt (i : Z) : string := pretty i.

End strconv.

Module strings.

(** [strings.Split(s, sep)] for a separator of one character. *)
Fixpoint Split (s : string) (sep : ascii) : list string :=
  match s with
  | EmptyString => [EmptyString]
  | String c s' =>
      if Ascii.eqb c sep then EmptyString :: Split s' sep
      else match Split s' sep with
           | x :: xs => String c x :: xs
           | [] => [String c EmptyString]
           end
  end.

(** [strings.Join(elems, sep)] *)
Fixpoint Join (elems : list string) (sep : string) : string :=
  match elems with
  | [] => ""
  | [x] => x
  | x :: rest => x +:+ sep +:+ Join rest sep
  end.

(** [strings.Contains(s, substr)] *)
Fixpoint Contains (s substr : string) : bool :=
  String.prefix substr s
  || match s with
     | EmptyString => false
     | String _ s' => Contains s' substr
     end.

End strings.

(* ===================================================================== *)
(** ** Package github.com/hashicorp/go-version

    The library behind [version.NewVersion] and [LessThan] in
    [needsUpdate].  It is vendored, not part of the sources embedded here;
    this is its parsing and ordering: the anchored pattern, the numeric
    segments padded to three, and the comparison of segments and
    prereleases. *)
(* ===================================================================== *)

Module version.
Import regexp.
Local Open Scope Z_scope.

Definition isLetter (c : ascii) : bool :=
  ((Ascii.leb "a" c && Ascii.leb c "z") || (Ascii.leb "A" c && Ascii.leb c "Z"))%char.

(** The identifier characters: digits, letters, [-] and [~]. *)
Definition isIdent (c : ascii) : bool :=
  strconv.isDigit c || isLetter c || Ascii.eqb c "-" || Ascii.eqb c "~".

(** Letters, [-] and [~]. *)
Definition isAlpha (c : ascii) : bool :=
  isLetter c || Ascii.eqb c "-" || Ascii.eqb c "~".

Definition digits : Regexp := Plus (Class strconv.isDigit).

(** Any number of further parts, each a dot and one identifier character
    or more; [n] is the number of the part's parenthesis. *)
Definition dotted (n : nat) : Regexp :=
  Star true (Capture n (Cat (Lit ".") (Plus (Class isIdent)))).

(** [VersionRegexpRaw], matched between [^] and [$].  Its parentheses
    are numbered as Go numbers them:
    - an optional [v];
    - 1: the segments, [0-9]+ followed lazily by parts (2) of a dot and
      [0-9]+;
    - 3, optional: the prerelease, either [-] and (4) an identifier that
      starts with a digit, or (6) an optional [-] and (7) an identifier
      that starts with a letter, [-] or [~]; both with further dotted
      parts (5, 8);
    - 9, optional and lazy: [+] and (10) the metadata, an identifier with
      further dotted parts (11). *)
Definition VersionRegexp : Regexp :=
  cat [ Quest true (Lit "v");
        Capture 1 (Cat digits (Star false (Capture 2 (Cat (Lit ".") digits))));
        Quest true (Capture 3 (Alt
          (Cat (Lit "-")
             (Capture 4 (cat [digits; Star true (Class isIdent); dotted 5])))
          (Capture 6 (Cat (Quest true (Lit "-"))
             (Capture 7 (cat [Plus (Class isAlpha); Star true (Class isIdent); dotted 8]))))));
        Quest false (Capture 9 (Cat (Lit "+")
          (Capture 10 (Cat (Plus (Class isIdent)) (dotted 11))))) ].

Record Version : Type := {
  metadata : string;
  pre : string;
  segments : list Z;
  si : nat;
  original : string
}.

(** The loop of [newVersion] over the dot-separated numbers. *)
Fixpoint parseSegments (strs : list string) : list Z + Go.error :=
  match strs with
  | [] => inl []
  | str :: rest =>
      match strconv.ParseInt str with
      | inr err =>
          inr (Go.errorString ("Error parsing version: " +:+ Go.Error err))
      | inl val =>
          match parseSegments rest with
          | inr err => inr err
          | inl vals => inl (val :: vals)
          end
      end
  end.

(** [NewVersion(v)] *)
Definition NewVersion (v : string) : Version + Go.error :=
  match FindStringSubmatch VersionRegexp v with
  | None => inr (Go.errorString ("Malformed version: " +:+ v))
  | Some matches =>
      match parseSegments (strings.Split (submatch matches 1) ".") with
      | inr err => inr err
      | inl segs =>
          (* fewer than three segments are padded with zeros *)
          let padded := segs ++ replicate (3 - List.length segs) 0%Z in
          let pre := if String.eqb (submatch matches 7) ""
                     then submatch matches 4 else submatch matches 7 in
          inl {| metadata := submatch matches 10;
                 pre := pre;
                 segments := padded;
                 si := List.length segs;
                 original := v |}
      end
  end.

(** [v.String()] *)
Definition String_ (v : Version) : string :=
  strings.Join (strconv.FormatInt <$> segments v) "."
  +:+ (if String.eqb (pre v) "" then "" else "-" +:+ pre v)
  +:+ (if String.eqb (metadata v) "" then "" else "+" +:+ metadata v).

Definition allZero (segs : list Z) : bool := forallb (Z.eqb 0) segs.

(** [comparePart(preSelf, preOther)]; [selfInt] is 0 when the part is not
    a number, as [ParseInt] leaves it. *)
Definition comparePart (preSelf preOther : string) : Z :=
  if String.eqb preSelf preOther then 0
  else
    let '(selfInt, selfNumeric) :=
      match strconv.ParseInt preSelf with
      | inl n => (n, true) | inr _ => (0, false) end in
    let '(otherInt, otherNumeric) :=
      match strconv.ParseInt preOther with
      | inl n => (n, true) | inr _ => (0, false) end in
    if String.eqb preSelf "" then (if otherNumeric then -1 else 1)
    else if String.eqb preOther "" then (if selfNumeric then 1 else -1)
    else if selfNumeric && negb otherNumeric then -1
    else if negb selfNumeric && otherNumeric then 1
    else if negb selfNumeric && negb otherNumeric && String.ltb preOther preSelf then 1
    else if (otherInt <? selfInt) then 1
    else -1.

(** The loop of [comparePrereleases]: [n] parts are still to be looked
    at; a side that ran out of parts contributes the empty part. *)
Fixpoint compareParts (n : nat) (self other : list string) : Z :=
  match n with
  | O => 0
  | S n' =>
      let c := comparePart (hd "" self) (hd "" other) in
      if (c =? 0) then compareParts n' (tl self) (tl other) else c
  end.

(** [comparePrereleases(v, other)] *)
Definition comparePrereleases (v other : string) : Z :=
  if String.eqb v other then 0
  else
    let selfPreReleaseMeta := strings.Split v "." in
    let otherPreReleaseMeta := strings.Split other "." in
    compareParts (Nat.max (List.length selfPreReleaseMeta)
                          (List.length otherPreReleaseMeta))
                 selfPreReleaseMeta otherPreReleaseMeta.

(** The loop of [Compare] over the segments; a version with fewer
    segments is the smaller one unless the other's extra ones are all 0. *)
Fixpoint compareSegments (self other : list Z) : Z :=
  match self, other with
  | [], [] => 0
  | [], _ :: _ => if allZero other then 0 else -1
  | _ :: _, [] => if allZero self then 0 else 1
  | lhs :: self', rhs :: other' =>
      if (lhs =? rhs)%Z then compareSegments self' other'
      else if (lhs <? rhs)%Z then -1 else 1
  end%Z.

(** [v.Compare(other)]: -1, 0 or 1 *)
Definition Compare (v other : Version) : Z :=
  if String.eqb (String_ v) (String_ other) then 0
  else if bool_decide (segments v = segments other) then
    if String.eqb (pre v) "" && String.eqb (pre other) "" then 0
    else if String.eqb (pre v) "" then 1
    else if String.eqb (pre other) "" then -1
    else comparePrereleases (pre v) (pre other)
  else compareSegments (segments v) (segments other).

(** [v.LessThan(o)] *)
Definition LessThan (v o : Version) : bool := (Compare v o <? 0)%Z.

End version.

(* ===================================================================== *)
(** ** Package k8s.io/apimachinery: API errors and [wait.Poll] *)
(* ===================================================================== *)

Module errors.
Import Go.

Definition StatusReasonUnknown : string := "".
Definition StatusReasonNotFound : string := "NotFound".
Definition StatusReasonAlreadyExists : string := "AlreadyExists".

(** [ReasonForError(err)]: the reason of an API status, unknown for any
    other error and for nil. *)
Definition ReasonForError (err : option error) : string :=
  match err with
  | Some (StatusError reason _) => reason
  | _ => StatusReasonUnknown
  end.

Definition IsNotFound (err : option error) : bool :=
  String.eqb (ReasonForError err) StatusReasonNotFound.

Definition IsAlreadyExists (err : option error) : bool :=
  String.eqb (ReasonForError err) StatusReasonAlreadyExists.

Definition NewNotFound (name : string) : error :=
  StatusError StatusReasonNotFound
    ("customresourcedefinitions.apiextensions.k8s.io " +:+ name +:+ " not found").

Definition NewAlreadyExists (name : string) : error :=
  StatusError StatusReasonAlreadyExists
    ("customresourcedefinitions.apiextensions.k8s.io " +:+ name +:+ " already exists").

End errors.

Module wait.
Import Go.

Definition ErrWaitTimeout : error :=
  errorString "timed out waiting for the condition".

(** [WaitFor]: the condition runs once for every tick received from the
    poller and once more when the poller's channel is closed at the
    timeout.  It stops at the first error or the first [true]; a [false]
    on the closed channel is the timeout.  [ticks] is the number of ticks
    that arrive before the channel is closed. *)
Fixpoint WaitFor {E : Type -> Type} (ticks : nat) (fn : prog E (bool * option error))
  : prog E (option error) :=
  '(ok, err) ← fn;
  match err with
  | Some err => mret (Some err)
  | None =>
      if ok : bool then mret None
      else match ticks with
           | O => mret (Some ErrWaitTimeout)
           | S ticks' => WaitFor ticks' fn
           end
  end.

(** [Poll(interval, timeout, condition)].  How many ticks the poller
    delivers before the timeout is up to the clock (at most
    timeout/interval of them, fewer when the condition is slow): starting
    the poller is a call to the environment that answers with that
    number. *)
Definition Poll {E : Type -> Type} (poller : Duration -> Duration -> E nat)
    (interval timeout : Duration) (condition : prog E (bool * option error))
  : prog E (option error) :=
  ticks ← call (poller interval timeout);
  WaitFor ticks condition.

End wait.

(* ===================================================================== *)
(** ** Package v2 (pkg/k8s/apis/cilium.io/v2/register.go) *)
(* ===================================================================== *)

Module v2.
Import Go.

(** *** The descriptor: [apiextensionsv1beta1.CustomResourceDefinition]

    The fields [register.go] reads or writes.  Condition types and
    statuses are strings in Go and stay strings here. *)

Definition Established : string := "Established".
Definition NamesAccepted : string := "NamesAccepted".
Definition ConditionTrue : string := "True".
Definition ConditionFalse : string := "False".
Definition ConditionUnknown : string := "Unknown".

Definition NamespaceScoped : string := "Namespaced".
Definition ClusterScoped : string := "Cluster".

Record CustomResourceDefinitionCondition : Type := {
  cond_Type : string;
  cond_Status : string;
  cond_Reason : string;
  cond_Message : string
}.

(** The validation schema is an opaque document. *)
Record JSONSchemaProps : Type := { schemaDocument : string }.

Record CustomResourceValidation : Type := {
  OpenAPIV3Schema : option JSONSchemaProps
}.

Record CustomResourceDefinitionNames : Type := {
  Plural : string;
  Singular : string;
  ShortNames : list string;
  Kind : string
}.

Record CustomResourceColumnDefinition : Type := {
  ColumnName : string;
  ColumnType : string;
  ColumnDescription : string;
  JSONPath : string
}.

Record CustomResourceSubresources : Type := {
  SubresourceStatus : option unit
}.

Record CustomResourceDefinitionSpec : Type := {
  Group : string;
  Version : string;
  Names : CustomResourceDefinitionNames;
  Scope : string;
  Validation : option CustomResourceValidation;
  Subresources : option CustomResourceSubresources;
  AdditionalPrinterColumns : list CustomResourceColumnDefinition
}.

Record CustomResourceDefinitionStatus : Type := {
  Conditions : list CustomResourceDefinitionCondition
}.

Record CustomResourceDefinition : Type := {
  Name : string;                      (* ObjectMeta.Name *)
  Labels : gmap string string;        (* ObjectMeta.Labels *)
  Spec : CustomResourceDefinitionSpec;
  Status : CustomResourceDefinitionStatus
}.

(** *** What the package calls

    The four operations of the clientset's
    [CustomResourceDefinitions()] interface, the poller of [wait.Poll],
    and the scoped logger. *)

Inductive Level : Type := Debug | Info | Error_.

Inductive callE : Type -> Type :=
| Get (name : string) : callE (CustomResourceDefinition + error)
| Create (crd : CustomResourceDefinition) : callE (CustomResourceDefinition + error)
| Update (crd : CustomResourceDefinition) : callE (CustomResourceDefinition + error)
| Delete (name : string) : callE (option error)
| Poller (interval timeout : Duration) : callE nat
| Log (level : Level) (name : string) (err : option error) (msg : string) : callE unit.

(** *** Constants of the package *)

Definition CustomResourceDefinitionVersion : string := "v2".
Definition CustomResourceDefinitionSchemaVersion : string := "1.15".
Definition CustomResourceDefinitionSchemaVersionKey : string :=
  "io.cilium.k8s.crd.schema.version".
Definition CNPKindDefinition : string := "CiliumNetworkPolicy".

(** [version.Must]: panics on an error; the panic is not modelled, and
    [comparableCRDSchemaVersion_parsed] in Part II shows that the constant
    parses. *)
Definition Must (r : version.Version + error) : version.Version :=
  match r with
  | inl v => v
  | inr _ => {| version.metadata := ""; version.pre := ""; version.segments := [];
                version.si := 0; version.original := "" |}
  end.

(** Set by [init()]. *)
Definition comparableCRDSchemaVersion : version.Version :=
  Must (version.NewVersion CustomResourceDefinitionSchemaVersion).

(** [needsUpdate(clusterCRD)] *)
Definition needsUpdate (clusterCRD : CustomResourceDefinition) : bool :=
  match Validation (Spec clusterCRD) with
  | None =>
      (* no validation detected *)
      true
  | Some _ =>
      match Labels clusterCRD !! CustomResourceDefinitionSchemaVersionKey with
      | None =>
          (* no schema version detected *)
          true
      | Some v =>
          match version.NewVersion v with
          | inr _ => true
          | inl clusterVersion =>
              if version.LessThan clusterVersion comparableCRDSchemaVersion
              then true   (* smaller than the current version *)
              else false
          end
      end
  end.

Definition log (level : Level) (name : string) (err : option error) (msg : string)
  : prog callE unit := call (Log level name err msg).

Definition Poll := wait.Poll Poller.

(** The condition of the first [wait.Poll] (lines 379-403): fetch again,
    check again, and submit the desired labels and spec if the stored
    descriptor still needs them. *)
Definition updateCondition (CRDName : string) (crd : CustomResourceDefinition)
  : prog callE (bool * option error) :=
  r ← call (Get (Name crd));
  match r with
  | inr err => mret (false, Some err)
  | inl clusterCRD =>
      if needsUpdate clusterCRD then
        log Debug CRDName None "CRD validation is different, updating it...";;
        let clusterCRD := {| Name := Name clusterCRD;
                             Labels := Labels crd;
                             Spec := Spec crd;
                             Status := Status clusterCRD |} in
        u ← call (Update clusterCRD);
        match u with
        | inl _ => mret (true, None)
        | inr err =>
            log Debug CRDName (Some err) "Unable to update CRD validation";;
            mret (false, Some err)
        end
      else mret (true, None)
  end.

(** The loop over [crd.Status.Conditions] in the condition of the second
    [wait.Poll] (lines 417-430).  [err] is the closure's own [err], the one
    of its [Get]. *)
Fixpoint scanConditions (CRDName : string) (err : option error)
    (conds : list CustomResourceDefinitionCondition)
  : prog callE (bool * option error) :=
  match conds with
  | [] => mret (false, err)
  | cond :: rest =>
      if String.eqb (cond_Type cond) Established then
        if String.eqb (cond_Status cond) ConditionTrue then mret (true, err)
        else scanConditions CRDName err rest
      else if String.eqb (cond_Type cond) NamesAccepted then
        if String.eqb (cond_Status cond) ConditionFalse then
          log Error_ CRDName (Some (errorString (cond_Reason cond))) "Name conflict for CRD";;
          mret (false, err)
        else scanConditions CRDName err rest
      else scanConditions CRDName err rest
  end.

(** The condition of the second [wait.Poll] (lines 412-431). *)
Definition establishedCondition (CRDName : string) (crd : CustomResourceDefinition)
  : prog callE (bool * option error) :=
  r ← call (Get (Name crd));
  match r with
  | inr err => mret (false, Some err)
  | inl crd' =>
      (* past [if err != nil]: the closure's err is nil *)
      let err : option error := None in
      scanConditions CRDName err (Conditions (Status crd'))
  end.

(** Lines 361-373: fetch, and create when absent.  [inl clusterCRD] goes
    on to the version check; [inr result] is a return of the function. *)
Definition fetchOrCreate (CRDName : string) (crd : CustomResourceDefinition)
  : prog callE (CustomResourceDefinition + option error) :=
  r ← call (Get (Name crd));
  match r with
  | inl clusterCRD => mret (inl clusterCRD)
  | inr err =>
      if errors.IsNotFound (Some err) then
        log Info CRDName None "Creating CRD (CustomResourceDefinition)...";;
        c ← call (Create crd);
        match c with
        | inl clusterCRD => mret (inl clusterCRD)
        | inr err =>
            (* This occurs when multiple agents race to create the CRD.
               Since another has created it, it will also update it, hence
               the non-error return. *)
            if errors.IsAlreadyExists (Some err) then mret (inr None)
            else mret (inr (Some err))
        end
      else mret (inr (Some err))
  end.

(** Lines 375-408: the version check and the update.  [Some err] is a
    return of the function, [None] goes on to the wait. *)
Definition updateIfNeeded (CRDName : string) (crd clusterCRD : CustomResourceDefinition)
  : prog callE (option error) :=
  log Debug CRDName None "Checking if CRD (CustomResourceDefinition) needs update...";;
  if needsUpdate clusterCRD then
    log Info CRDName None "Updating CRD (CustomResourceDefinition)...";;
    err ← Poll (500 * Millisecond)%Z (60 * Second)%Z (updateCondition CRDName crd);
    match err with
    | Some err =>
        log Error_ CRDName (Some err) "Unable to update CRD";;
        mret (Some err)
    | None => mret None
    end
  else mret None.

(** Lines 410-431: wait for the CRD to be established. *)
Definition waitEstablished (CRDName : string) (crd : CustomResourceDefinition)
  : prog callE (option error) :=
  log Debug CRDName None "Waiting for CRD (CustomResourceDefinition) to be available...";;
  Poll (500 * Millisecond)%Z (60 * Second)%Z (establishedCondition CRDName crd).

(** [fmt.Errorf] of line 435. *)
Definition deleteFailed (CRDName : string) (deleteErr err : error) : error :=
  errorString ("unable to delete k8s " +:+ CRDName +:+ " CRD " +:+ Error deleteErr
               +:+ ". Deleting CRD due: " +:+ Error err).

(** Lines 432-441: what follows the wait. *)
Definition afterWait (CRDName : string) (crd : CustomResourceDefinition)
    (err : option error) : prog callE (option error) :=
  match err with
  | Some err =>
      deleteErr ← call (Delete (Name crd));
      match deleteErr with
      | Some deleteErr => mret (Some (deleteFailed CRDName deleteErr err))
      | None => mret (Some err)
      end
  | None =>
      log Info CRDName None "CRD (CustomResourceDefinition) is installed and up-to-date";;
      mret None
  end.

(** [createUpdateCRD(clientset, CRDName, crd)] *)
Definition createUpdateCRD (CRDName : string) (crd : CustomResourceDefinition)
  : prog callE (option error) :=
  r ← fetchOrCreate CRDName crd;
  match r with
  | inr result => mret result
  | inl clusterCRD =>
      u ← updateIfNeeded CRDName crd clusterCRD;
      match u with
      | Some err => mret (Some err)
      | None =>
          err ← waitEstablished CRDName crd;
          afterWait CRDName crd err
      end
  end.

(** *** The four resource kinds

    What the functions below take from outside the file: the group name
    ([k8sconst.GroupName]), the constant the identity allocation mode is
    compared with ([option.IdentityAllocationModeCRD]), and the descriptor
    decoded from the embedded YAML document
    ([examplesCrdsCiliumnetworkpoliciesYamlBytes]; a document that does not
    decode panics at start-up and is not modelled). *)
Class Externals : Type := {
  GroupName : string;
  IdentityAllocationModeCRD : string;
  ciliumCRD : CustomResourceDefinition
}.

(** [option.Config], as far as this file reads it. *)
Record DaemonConfig : Type := { IdentityAllocationMode : string }.

Section kinds.
Context `{Externals}.

(** [SchemeGroupVersion] *)
Definition SchemeGroupVersion_Group : string := GroupName.
Definition SchemeGroupVersion_Version : string := CustomResourceDefinitionVersion.

Definition statusSubresource : option CustomResourceSubresources :=
  Some {| SubresourceStatus := Some tt |}.

Definition cepCRV : CustomResourceValidation :=
  {| OpenAPIV3Schema := Some {| schemaDocument := "" |} |}.

(** The descriptor built by [createCNPCRD]. *)
Definition cnpCRD : CustomResourceDefinition :=
  let CustomResourceDefinitionSingularName := "ciliumnetworkpolicy" in
  let CustomResourceDefinitionPluralName := "ciliumnetworkpolicies" in
  let CustomResourceDefinitionShortNames := ["cnp"; "ciliumnp"] in
  let CustomResourceDefinitionKind := CNPKindDefinition in
  let CRDName := CustomResourceDefinitionPluralName +:+ "." +:+ SchemeGroupVersion_Group in
  {| Name := CRDName;
     Labels := {[ CustomResourceDefinitionSchemaVersionKey :=
                    CustomResourceDefinitionSchemaVersion ]};
     Spec := {| Group := SchemeGroupVersion_Group;
                Version := SchemeGroupVersion_Version;
                Names := {| Plural := CustomResourceDefinitionPluralName;
                            Singular := CustomResourceDefinitionSingularName;
                            ShortNames := CustomResourceDefinitionShortNames;
                            Kind := CustomResourceDefinitionKind |};
                Scope := NamespaceScoped;
                Validation := Validation (Spec ciliumCRD);
                Subresources := statusSubresource;
                AdditionalPrinterColumns := [] |};
     Status := {| Conditions := [] |} |}.

Definition createCNPCRD : prog callE (option error) :=
  createUpdateCRD "CiliumNetworkPolicy/v2" cnpCRD.

Definition cepColumn (name type description path : string)
  : CustomResourceColumnDefinition :=
  {| ColumnName := name; ColumnType := type;
     ColumnDescription := description; JSONPath := path |}.

(** The descriptor built by [createCEPCRD]. *)
Definition cepCRD : CustomResourceDefinition :=
  let CustomResourceDefinitionSingularName := "ciliumendpoint" in
  let CustomResourceDefinitionPluralName := "ciliumendpoints" in
  let CustomResourceDefinitionShortNames := ["cep"; "ciliumep"] in
  let CustomResourceDefinitionKind := "CiliumEndpoint" in
  let CRDName := CustomResourceDefinitionPluralName +:+ "." +:+ SchemeGroupVersion_Group in
  {| Name := CRDName;
     Labels := ∅;
     Spec := {| Group := SchemeGroupVersion_Group;
                Version := SchemeGroupVersion_Version;
                Names := {| Plural := CustomResourceDefinitionPluralName;
                            Singular := CustomResourceDefinitionSingularName;
                            ShortNames := CustomResourceDefinitionShortNames;
                            Kind := CustomResourceDefinitionKind |};
                Scope := NamespaceScoped;
                Validation := Some cepCRV;
                Subresources := statusSubresource;
                AdditionalPrinterColumns :=
                  [ cepColumn "Endpoint ID" "integer" "Cilium endpoint id" ".status.id";
                    cepColumn "Identity ID" "integer" "Cilium identity id"
                              ".status.identity.id";
                    cepColumn "Ingress Enforcement" "boolean"
                              "Ingress enforcement in the endpoint"
                              ".status.policy.ingress.enforcing";
                    cepColumn "Egress Enforcement" "boolean"
                              "Egress enforcement in the endpoint"
                              ".status.policy.egress.enforcing";
                    cepColumn "Endpoint State" "string" "Endpoint current state"
                              ".status.state";
                    cepColumn "IPv4" "string" "Endpoint IPv4 address"
                              ".status.networking.addressing[0].ipv4";
                    cepColumn "IPv6" "string" "Endpoint IPv6 address"
                              ".status.networking.addressing[0].ipv6" ] |};
     Status := {| Conditions := [] |} |}.

Definition createCEPCRD : prog callE (option error) :=
  createUpdateCRD "v2.CiliumEndpoint" cepCRD.

(** The descriptor built by [createNodeCRD]. *)
Definition nodeCRD : CustomResourceDefinition :=
  {| Name := "ciliumnodes." +:+ SchemeGroupVersion_Group;
     Labels := ∅;
     Spec := {| Group := SchemeGroupVersion_Group;
                Version := SchemeGroupVersion_Version;
                Names := {| Plural := "ciliumnodes";
                            Singular := "ciliumnode";
                            ShortNames := ["cn"];
                            Kind := "CiliumNode" |};
                Scope := ClusterScoped;
                Validation := None;
                Subresources := statusSubresource;
                AdditionalPrinterColumns := [] |};
     Status := {| Conditions := [] |} |}.

Definition createNodeCRD : prog callE (option error) :=
  createUpdateCRD "v2.CiliumNode" nodeCRD.

(** The descriptor built by [createIdentityCRD]. *)
Definition identityCRD : CustomResourceDefinition :=
  let CustomResourceDefinitionSingularName := "ciliumidentity" in
  let CustomResourceDefinitionPluralName := "ciliumidentities" in
  let CustomResourceDefinitionShortNames := ["ciliumid"] in
  let CustomResourceDefinitionKind := "CiliumIdentity" in
  let CRDName := CustomResourceDefinitionPluralName +:+ "." +:+ SchemeGroupVersion_Group in
  {| Name := CRDName;
     Labels := ∅;
     Spec := {| Group := SchemeGroupVersion_Group;
                Version := SchemeGroupVersion_Version;
                Names := {| Plural := CustomResourceDefinitionPluralName;
                            Singular := CustomResourceDefinitionSingularName;
                            ShortNames := CustomResourceDefinitionShortNames;
                            Kind := CustomResourceDefinitionKind |};
                Scope := ClusterScoped;
                Validation := None;
                Subresources := statusSubresource;
                AdditionalPrinterColumns := [] |};
     Status := {| Conditions := [] |} |}.

Definition createIdentityCRD : prog callE (option error) :=
  createUpdateCRD "v2.CiliumIdentity" identityCRD.

(** [CreateCustomResourceDefinitions(clientset)]; [cfg] is the global
    [option.Config] as it stands at the call. *)
Definition CreateCustomResourceDefinitions (cfg : DaemonConfig)
  : prog callE (option error) :=
  err ← createCNPCRD;
  match err with
  | Some err => mret (Some err)
  | None =>
      err ← createCEPCRD;
      match err with
      | Some err => mret (Some err)
      | None =>
          err ← createNodeCRD;
          match err with
          | Some err => mret (Some err)
          | None =>
              if String.eqb (IdentityAllocationMode cfg) IdentityAllocationModeCRD then
                err ← createIdentityCRD;
                match err with
                | Some err => mret (Some err)
                | None => mret None
                end
              else mret None
          end
      end
  end.

(** The same in the words of its description: the kinds one after the
    other, the first error ending the sequence; the identity kind is on
    the list only in the CRD allocation mode. *)
Fixpoint reconcileInOrder (kinds : list (prog callE (option error)))
  : prog callE (option error) :=
  match kinds with
  | [] => mret None
  | kind :: rest =>
      err ← kind;
      match err with
      | Some err => mret (Some err)
      | None => reconcileInOrder rest
      end
  end.

Definition managedKinds (cfg : DaemonConfig) : list (prog callE (option error)) :=
  [createCNPCRD; createCEPCRD; createNodeCRD]
  ++ (if String.eqb (IdentityAllocationMode cfg) IdentityAllocationModeCRD
      then [createIdentityCRD] else []).

End kinds.

(** *** The environment of a run

    A cluster with state [S]: the API server behind the clientset and the
    clock behind the poller.  Logging changes nothing in it. *)
Record Cluster (S : Type) : Type := {
  crdGet : string -> S -> (CustomResourceDefinition + error) * S;
  crdCreate : CustomResourceDefinition -> S -> (CustomResourceDefinition + error) * S;
  crdUpdate : CustomResourceDefinition -> S -> (CustomResourceDefinition + error) * S;
  crdDelete : string -> S -> option error * S;
  pollerTicks : Duration -> Duration -> S -> nat * S
}.
Arguments crdGet {S}. Arguments crdCreate {S}. Arguments crdUpdate {S}.
Arguments crdDelete {S}. Arguments pollerTicks {S}.

Definition serve {S} (c : Cluster S) : handler callE S :=
  fun X e =>
    match e in callE X return S -> X * S with
    | Get name => crdGet c name
    | Create crd => crdCreate c crd
    | Update crd => crdUpdate c crd
    | Delete name => crdDelete c name
    | Poller interval timeout => pollerTicks c interval timeout
    | Log _ _ _ _ => fun s => (tt, s)
    end.

(** The calls of a run that change the store. *)
Definition isMutation (e : event callE) : bool :=
  match projT2 e with
  | Create _ | Update _ | Delete _ => true
  | _ => false
  end.

(** The calls of a run that read the store. *)
Definition isGet (e : event callE) : bool :=
  match projT2 e with
  | Get _ => true
  | _ => false
  end.

(** The start of a poll. *)
Definition isPoller (e : event callE) : bool :=
  match projT2 e with
  | Poller _ _ => true
  | _ => false
  end.

(** The name of the descriptor a call is about. *)
Definition target (e : event callE) : option string :=
  match projT2 e with
  | Get name | Delete name => Some name
  | Create crd | Update crd => Some (Name crd)
  | _ => None
  end.

(** The kinds of call that change the store. *)
Definition isCreate (e : event callE) : bool :=
  match projT2 e with Create _ => true | _ => false end.

Definition isUpdate (e : event callE) : bool :=
  match projT2 e with Update _ => true | _ => false end.

Definition isDelete (e : event callE) : bool :=
  match projT2 e with Delete _ => true | _ => false end.

(** A call that a reconciliation of [crd] may make: a fetch or a deletion
    by the name of [crd], the creation of [crd] itself, an update that
    carries the labels and the spec of [crd], the start of a poll, a log
    line. *)
Definition concerns (crd : CustomResourceDefinition) (e : event callE) : Prop :=
  match projT2 e with
  | Get name | Delete name => name = Name crd
  | Create created => created = crd
  | Update updated => Labels updated = Labels crd /\ Spec updated = Spec crd
  | Poller _ _ | Log _ _ _ _ => True
  end.

(** [pending c name n s s']: from the state [s] on, [n] reads of the
    descriptor called [name] succeed, none of them shows Established=True,
    and they leave the cluster in [s']. *)
Inductive pending {S : Type} (c : Cluster S) (name : string) : nat -> S -> S -> Prop :=
| pending_O s : pending c name 0 s s
| pending_S n s stored s1 s' :
    crdGet c name s = (inl stored, s1) ->
    Forall (fun cond => cond_Type cond = Established -> cond_Status cond <> ConditionTrue)
           (Conditions (Status stored)) ->
    pending c name n s1 s' ->
    pending c name (Datatypes.S n) s s'.

End v2.

(* ===================================================================== *)
(** ** Package api (pkg/policy/api/rule.go)

    [Rule] holds three slices, and [CreateDerivative] copies a rule and
    appends to a slice of the copy, so rules live in a heap: a [*Rule] is a
    location, a slice is Go's header of a pointer to a backing array, a
    length and a capacity.  The entries of the slices ([IngressRule],
    [EgressRule], [Label]) and the selector are declared in other files of
    the package; here they are values without pointers of their own. *)
(* ===================================================================== *)

Module api.
Import Go.

(** What [rule.go] takes from outside the file: the types of its fields,
    the zero value of an egress rule (what fills the spare capacity of a
    backing array), and the growth policy of the runtime's [append]: how
    many spare slots a reallocation adds, given the old capacity and the
    length needed. *)
Class Externals : Type := {
  EndpointSelector_t : Type;
  IngressRule : Type;
  EgressRule : Type;
  Label : Type;
  EgressRule_zero : EgressRule;
  growslice_spare : nat -> nat -> nat
}.

Abbreviation loc := positive.

(** A slice header.  [Data = None] is the nil slice. *)
Record slice : Type := Slice { Data : option loc; Len : nat; Cap : nat }.

Definition nilSlice : slice := Slice None 0 0.

Section rule.
Context `{Externals}.

(** [type Rule struct] *)
Record Rule : Type := {
  EndpointSelector : EndpointSelector_t;
  Ingress : slice;          (* []IngressRule *)
  Egress : slice;           (* []EgressRule *)
  Labels : slice;           (* labels.LabelArray *)
  Description : string
}.

(** What a location holds: a rule, or the backing array of a slice. *)
Inductive object : Type :=
| ORule (r : Rule)
| OIngress (a : list IngressRule)
| OEgress (a : list EgressRule)
| OLabels (a : list Label).

Abbreviation heap := (gmap loc object).

(** The element type of a backing array. *)
Record kind (T : Type) : Type := {
  array : list T -> object;
  elements : object -> option (list T)
}.
Arguments array {T}.
Arguments elements {T}.

Definition ingressK : kind IngressRule :=
  {| array := OIngress;
     elements o := match o with OIngress a => Some a | _ => None end |}.
Definition egressK : kind EgressRule :=
  {| array := OEgress;
     elements o := match o with OEgress a => Some a | _ => None end |}.
Definition labelK : kind Label :=
  {| array := OLabels;
     elements o := match o with OLabels a => Some a | _ => None end |}.

(** The capability of an egress rule that [rule.go] invokes, on a copy of
    the entry (the loop variable).  Entries being values, the answer is
    all that comes back from a call: it does not reach the heap. *)
Inductive ruleE : Type -> Type :=
| EgressRule_RequiresDerivative (e : EgressRule) : ruleE bool
| EgressRule_CreateDerivative (e : EgressRule) : ruleE (EgressRule + error).

(** Code of the package: it reads and writes the heap and calls the
    capability; [None] is a panic (a nil or dangling pointer, an index
    out of range). *)
Definition M (A : Type) : Type := heap -> prog ruleE (option (A * heap)).

#[export] Instance M_ret : MRet M := fun _ a h => Ret (Some (a, h)).
#[export] Instance M_bind : MBind M := fun _ _ f m h =>
  bind (m h) (fun r => match r with
                       | Some (a, h') => f a h'
                       | None => Ret None
                       end).

Definition panic {A} : M A := fun _ => Ret None.

Definition invoke {X} (e : ruleE X) : M X :=
  fun h => Vis e (fun x => Ret (Some (x, h))).

Definition load (l : loc) : M object :=
  fun h => match h !! l with
           | Some o => Ret (Some (o, h))
           | None => Ret None
           end.

Definition store (l : loc) (o : object) : M unit :=
  fun h => match h !! l with
           | Some _ => Ret (Some (tt, <[l := o]> h))
           | None => Ret None
           end.

(** Allocation: a location the heap does not hold yet. *)
Definition new (o : object) : M loc :=
  fun h => let l := fresh (dom h) in Ret (Some (l, <[l := o]> h)).

Definition loadRule (p : loc) : M Rule :=
  o ← load p;
  match o with ORule r => mret r | _ => panic end.

(** [make([]T, len(xs))] filled with [xs], and the literal [[]T{...}]. *)
Definition make {T} (K : kind T) (xs : list T) : M slice :=
  l ← new (array K xs);
  mret (Slice (Some l) (length xs) (length xs)).

Definition loadArray {T} (K : kind T) (s : slice) : M (list T) :=
  match Data s with
  | None => panic
  | Some l =>
      o ← load l;
      match elements K o with Some a => mret a | None => panic end
  end.

(** [s[i]] *)
Definition index {T} (K : kind T) (s : slice) (i : nat) : M T :=
  if (i <? Len s)%nat then
    a ← loadArray K s;
    match a !! i with Some x => mret x | None => panic end
  else panic.

(** [append(s, x)]: in place while the capacity lasts, else into a new
    backing array with the old elements, [x] and spare slots. *)
Definition append {T} (K : kind T) (zero : T) (s : slice) (x : T) : M slice :=
  if (Len s <? Cap s)%nat then
    match Data s with
    | None => panic
    | Some l =>
        a ← loadArray K s;
        store l (array K (<[Len s := x]> a));;
        mret (Slice (Some l) (S (Len s)) (Cap s))
    end
  else
    old ← (if (Len s =? 0)%nat then mret []
           else a ← loadArray K s; mret (take (Len s) a));
    let spare := growslice_spare (Cap s) (S (Len s)) in
    l ← new (array K (old ++ x :: replicate spare zero));
    mret (Slice (Some l) (S (Len s)) (S (Len s) + spare)).

(** [NewRule] and the setters. *)
Definition NewRule (zeroSelector : EndpointSelector_t) : M loc :=
  new (ORule {| EndpointSelector := zeroSelector; Ingress := nilSlice;
                Egress := nilSlice; Labels := nilSlice; Description := "" |}).

(** An assignment to a field of the rule at [r]: [r.Egress = rules] is
    [assign r (setEgress rules)]. *)
Definition assign (r : loc) (f : Rule -> Rule) : M unit :=
  R ← loadRule r;
  store r (ORule (f R)).

Definition setEndpointSelector (es : EndpointSelector_t) (R : Rule) : Rule :=
  {| EndpointSelector := es; Ingress := Ingress R; Egress := Egress R;
     Labels := Labels R; Description := Description R |}.

Definition setIngress (rules : slice) (R : Rule) : Rule :=
  {| EndpointSelector := EndpointSelector R; Ingress := rules; Egress := Egress R;
     Labels := Labels R; Description := Description R |}.

Definition setEgress (rules : slice) (R : Rule) : Rule :=
  {| EndpointSelector := EndpointSelector R; Ingress := Ingress R; Egress := rules;
     Labels := Labels R; Description := Description R |}.

Definition setLabels (labels : slice) (R : Rule) : Rule :=
  {| EndpointSelector := EndpointSelector R; Ingress := Ingress R; Egress := Egress R;
     Labels := labels; Description := Description R |}.

Definition setDescription (desc : string) (R : Rule) : Rule :=
  {| EndpointSelector := EndpointSelector R; Ingress := Ingress R; Egress := Egress R;
     Labels := Labels R; Description := desc |}.

Definition WithEndpointSelector (r : loc) (es : EndpointSelector_t) : M loc :=
  assign r (setEndpointSelector es);;
  mret r.

Definition WithIngressRules (r : loc) (rules : slice) : M loc :=
  assign r (setIngress rules);;
  mret r.

Definition WithEgressRules (r : loc) (rules : slice) : M loc :=
  assign r (setEgress rules);;
  mret r.

Definition WithLabels (r : loc) (labels : slice) : M loc :=
  assign r (setLabels labels);;
  mret r.

Definition WithDescription (r : loc) (desc : string) : M loc :=
  assign r (setDescription desc);;
  mret r.

(** The loop of [RequiresDerivative]: [n] entries from index [i] on are
    still to be visited. *)
Fixpoint requiresLoop (s : slice) (i n : nat) : M bool :=
  match n with
  | O => mret false
  | S n' =>
      rule ← index egressK s i;
      b ← invoke (EgressRule_RequiresDerivative rule);
      if b : bool then mret true else requiresLoop s (S i) n'
  end.

(** [r.RequiresDerivative()] *)
Definition RequiresDerivative (r : loc) : M bool :=
  R ← loadRule r;
  requiresLoop (Egress R) 0 (Len (Egress R)).

(** Modelled from the spec: the copy of one slice inside [Rule.DeepCopy]
    (see below).  A nil slice stays nil; any other gets a new backing
    array that holds exactly the entries it shows. *)
Definition copySlice {T} (K : kind T) (s : slice) : M slice :=
  match Data s with
  | None => mret s
  | Some _ =>
      a ← loadArray K s;
      if (Len s <=? length a)%nat then make K (take (Len s) a) else panic
  end.

(** Modelled from the spec: [Rule.DeepCopy], which is generated code
    outside [rule.go].  The spec has [CreateDerivative] deep-copy the
    receiver, the copy's selector, ingress list, labels and description
    being "value-copies of the source at clone time" with "all owned
    containers copied, not aliased": a new rule with the source's selector
    and description whose slices are copies of the source's. *)
Definition DeepCopy (r : loc) : M loc :=
  R ← loadRule r;
  ingress ← copySlice ingressK (Ingress R);
  egress ← copySlice egressK (Egress R);
  labels ← copySlice labelK (Labels R);
  new (ORule {| EndpointSelector := EndpointSelector R; Ingress := ingress;
                Egress := egress; Labels := labels;
                Description := Description R |}).

(** The loop of [CreateDerivative] over [r.Egress]; the range expression
    [s] was evaluated once, the entries are read as the loop reaches
    them. *)
Fixpoint derivativeLoop (newRule : loc) (s : slice) (i n : nat)
  : M (loc * option error) :=
  match n with
  | O => mret (newRule, None)
  | S n' =>
      egressRule ← index egressK s i;
      d ← invoke (EgressRule_CreateDerivative egressRule);
      match d with
      | inr err => mret (newRule, Some err)
      | inl derivativeEgressRule =>
          (* newRule.Egress = append(newRule.Egress, *derivativeEgressRule) *)
          N ← loadRule newRule;
          egress ← append egressK EgressRule_zero (Egress N) derivativeEgressRule;
          assign newRule (setEgress egress);;
          derivativeLoop newRule s (S i) n'
      end
  end.

(** [r.CreateDerivative()].  The literal [[]EgressRule{}] is a slice that
    is not nil, of length and capacity 0; it gets a backing array of its
    own that has no slot. *)
Definition CreateDerivative (r : loc) : M (loc * option error) :=
  newRule ← DeepCopy r;
  empty ← make egressK [];
  assign newRule (setEgress empty);;
  R ← loadRule r;
  derivativeLoop newRule (Egress R) 0 (Len (Egress R)).

(** *** Reading a rule back from the heap *)

(** The entries a slice shows. *)
Definition slice_elems {T} (K : kind T) (h : heap) (s : slice) : option (list T) :=
  match Data s with
  | None => if (Len s =? 0)%nat then Some [] else None
  | Some l =>
      a ← h !! l ≫= elements K;
      if (Len s <=? length a)%nat then Some (take (Len s) a) else None
  end.

(** A rule as a value: its fields with the slices read through. *)
Record RuleValue : Type := {
  selector : EndpointSelector_t;
  ingress : list IngressRule;
  egress : list EgressRule;
  labels : list Label;
  description : string
}.

Definition rule_value (h : heap) (r : loc) : option RuleValue :=
  match h !! r with
  | Some (ORule R) =>
      i ← slice_elems ingressK h (Ingress R);
      e ← slice_elems egressK h (Egress R);
      l ← slice_elems labelK h (Labels R);
      Some {| selector := EndpointSelector R; ingress := i; egress := e;
              labels := l; description := Description R |}
  | _ => None
  end.

(** The locations a rule owns: its own and its backing arrays. *)
Definition slice_locs (s : slice) : gset loc :=
  match Data s with Some l => {[ l ]} | None => ∅ end.

Definition footprint (h : heap) (r : loc) : gset loc :=
  match h !! r with
  | Some (ORule R) =>
      {[ r ]} ∪ slice_locs (Ingress R) ∪ slice_locs (Egress R) ∪ slice_locs (Labels R)
  | _ => ∅
  end.

(** *** The capability seen from the caller

    [derived hd es w ds w']: asked from state [w] on, in order, the
    environment derives the entries [es] to [ds] and is left in [w']. *)
Inductive derived {W : Type} (hd : handler ruleE W)
  : list EgressRule -> W -> list EgressRule -> W -> Prop :=
| derived_nil w : derived hd [] w [] w
| derived_cons e es w d w1 ds w2 :
    hd _ (EgressRule_CreateDerivative e) w = (inl d, w1) ->
    derived hd es w1 ds w2 ->
    derived hd (e :: es) w (d :: ds) w2.

(** The description of [CreateDerivative] as a pipeline: the entries are
    derived in order; the first failure ends it with the entries derived
    so far and the error.  Also the final state and the calls made. *)
Fixpoint deriveAll {W : Type} (hd : handler ruleE W) (es : list EgressRule) (w : W)
  : list EgressRule * option error * W * list (event ruleE) :=
  match es with
  | [] => ([], None, w, [])
  | e :: es' =>
      match hd _ (EgressRule_CreateDerivative e) w with
      | (inr err, w1) => ([], Some err, w1, [ev (EgressRule_CreateDerivative e)])
      | (inl d, w1) =>
          let '(ds, err, w2, t) := deriveAll hd es' w1 in
          (d :: ds, err, w2, ev (EgressRule_CreateDerivative e) :: t)
      end
  end.

(** The entries of [es] up to and including the first that satisfies [p]
    (all of them when none does). *)
Fixpoint upToFirst {A} (p : A -> bool) (es : list A) : list A :=
  match es with
  | [] => []
  | e :: es' => if p e then [e] else e :: upToFirst p es'
  end.

End rule.

Arguments array {_ T}.
Arguments elements {_ T}.

Abbreviation heap := (gmap loc object).

(** A kind whose arrays read back as they were written. *)
Definition lawful `{Externals} {T} (K : kind T) : Prop :=
  forall a, elements K (array K a) = Some a.

End api.

(* ===================================================================== *)
(** ** Clusters to run the reconciler against *)
(* ===================================================================== *)

Module cluster.
Import Go v2.

(** *** A cluster that answers from a script

    The state is the list of answers still to be given; a call that the
    script has no fitting answer for is answered with an error. *)
Inductive reply : Type :=
| Descriptor (r : CustomResourceDefinition + error)
| Deleted (r : option error)
| Ticks (n : nat).

Definition offScript : error := errorString "off script".

Definition nextDescriptor (s : list reply)
  : (CustomResourceDefinition + error) * list reply :=
  match s with
  | Descriptor r :: s' => (r, s')
  | _ => (inr offScript, s)
  end.

Definition scripted : Cluster (list reply) :=
  {| crdGet _ := nextDescriptor;
     crdCreate _ := nextDescriptor;
     crdUpdate _ := nextDescriptor;
     crdDelete _ s := match s with
                      | Deleted r :: s' => (r, s')
                      | _ => (Some offScript, s)
                      end;
     pollerTicks _ _ s := match s with
                          | Ticks n :: s' => (n, s')
                          | _ => (O, s)
                          end |}.

(** *** A store of descriptors shared with other agents

    [objects] is what the store holds.  [arriving] are descriptors that
    other agents are creating: one of them lands after each read, which
    is how a reconciler loses the race between its fetch and its create.
    [ticks] is what the clock gives every poll. *)
Record Store : Type := {
  objects : gmap string CustomResourceDefinition;
  arriving : list CustomResourceDefinition;
  ticks : nat
}.

Definition land (st : Store) : Store :=
  match arriving st with
  | [] => st
  | c :: rest => {| objects := <[Name c := c]> (objects st);
                    arriving := rest; ticks := ticks st |}
  end.

Definition withObjects (st : Store) (m : gmap string CustomResourceDefinition) : Store :=
  {| objects := m; arriving := arriving st; ticks := ticks st |}.

Definition shared : Cluster Store :=
  {| crdGet name st :=
       (match objects st !! name with
        | Some c => inl c
        | None => inr (errors.NewNotFound name)
        end, land st);
     crdCreate crd st :=
       match objects st !! Name crd with
       | Some _ => (inr (errors.NewAlreadyExists (Name crd)), st)
       | None => (inl crd, withObjects st (<[Name crd := crd]> (objects st)))
       end;
     crdUpdate crd st :=
       match objects st !! Name crd with
       | Some _ => (inl crd, withObjects st (<[Name crd := crd]> (objects st)))
       | None => (inr (errors.NewNotFound (Name crd)), st)
       end;
     crdDelete name st :=
       match objects st !! name with
       | Some _ => (None, withObjects st (delete name (objects st)))
       | None => (Some (errors.NewNotFound name), st)
       end;
     pollerTicks _ _ st := (ticks st, st) |}.

(** *** Descriptors of the policy kind *)

#[export] Instance externals : Externals :=
  {| GroupName := "cilium.io";
     IdentityAllocationModeCRD := "crd";
     ciliumCRD := {| Name := "ciliumnetworkpolicies.cilium.io";
                     Labels := ∅;
                     Spec := {| Group := "cilium.io"; Version := "v2";
                                Names := {| Plural := "ciliumnetworkpolicies";
                                            Singular := "ciliumnetworkpolicy";
                                            ShortNames := ["cnp"; "ciliumnp"];
                                            Kind := "CiliumNetworkPolicy" |};
                                Scope := NamespaceScoped;
                                Validation := Some cepCRV;
                                Subresources := None;
                                AdditionalPrinterColumns := [] |};
                     Status := {| Conditions := [] |} |} |}.

(** The policy descriptor as a store reports it, with the given
    schema-version label (if any) and conditions. *)
Definition stored (label : option string)
    (conds : list CustomResourceDefinitionCondition) : CustomResourceDefinition :=
  {| Name := Name cnpCRD;
     Labels := match label with
               | Some v => {[ CustomResourceDefinitionSchemaVersionKey := v ]}
               | None => ∅
               end;
     Spec := Spec cnpCRD;
     Status := {| Conditions := conds |} |}.

Definition condition (type status reason : string) : CustomResourceDefinitionCondition :=
  {| cond_Type := type; cond_Status := status; cond_Reason := reason; cond_Message := "" |}.

Definition accepted : list CustomResourceDefinitionCondition :=
  [ condition NamesAccepted ConditionTrue "NoConflicts";
    condition Established ConditionTrue "InitialNamesAccepted" ].

Definition conflicting : list CustomResourceDefinitionCondition :=
  [ condition NamesAccepted ConditionFalse "conflict";
    condition Established ConditionFalse "NotAccepted" ].

Definition holding (c : CustomResourceDefinition) (n : nat) : Store :=
  {| objects := {[ Name c := c ]}; arriving := []; ticks := n |}.

(** The store before a lost race: the descriptor is absent, and another
    agent's create of it lands right after the fetch. *)
Definition racing : Store :=
  {| objects := ∅; arriving := [stored (Some "1.15") []]; ticks := 120 |}.

(** A script in which the descriptor is found current, the status shows no
    condition at the first poll, the second poll cannot reach the server,
    and the deletion is refused. *)
Definition failingWait : list reply :=
  [ Descriptor (inl (stored (Some "1.15") []));
    Ticks 1;
    Descriptor (inl (stored (Some "1.15") []));
    Descriptor (inr (errorString "connection refused"));
    Deleted (Some (errorString "forbidden")) ].

(** The calls of one status poll that meets a name conflict. *)
Definition conflictPoll (CRDName name : string) : list (event callE) :=
  [ ev (Get name);
    ev (Log Error_ CRDName (Some (errorString "conflict")) "Name conflict for CRD") ].

(** A script in which the fetch cannot reach the server. *)
Definition unreachable : list reply :=
  [ Descriptor (inr (errorString "connection refused")) ].

(** A script in which the descriptor is absent and its creation is
    refused. *)
Definition refusedCreate : list reply :=
  [ Descriptor (inr (errors.NewNotFound (Name cnpCRD)));
    Descriptor (inr (errorString "forbidden")) ].

(** A script in which the descriptor is found with an older schema
    version, both times, and the update is refused. *)
Definition refusedUpdate : list reply :=
  [ Descriptor (inl (stored (Some "1.14") accepted));
    Ticks 120;
    Descriptor (inl (stored (Some "1.14") accepted));
    Descriptor (inr (errorString "the object has been modified")) ].

(** A script in which the descriptor is found current and shows
    Established=True at the second read of its status. *)
Definition slowlyEstablished : list reply :=
  [ Descriptor (inl (stored (Some "1.15") []));
    Ticks 120;
    Descriptor (inl (stored (Some "1.15") []));
    Descriptor (inl (stored (Some "1.15") accepted)) ].

(** A descriptor as a store reports it once installed and established:
    with the labels and the spec it was submitted with. *)
Definition installed (crd : CustomResourceDefinition) : CustomResourceDefinition :=
  {| Name := Name crd; Labels := Labels crd; Spec := Spec crd;
     Status := {| Conditions := accepted |} |}.

(** A store that holds nothing, and in which nothing gets established;
    the clock gives two ticks to a poll. *)
Definition vacant : Store := {| objects := ∅; arriving := []; ticks := 2 |}.

End cluster.

(* ===================================================================== *)
(** ** A rule to derive from

    Egress entries in the manner of the package's variants: an entry that
    names a group of a cloud provider requires a derivative and is derived
    to the addresses the provider reports for the group; the other entries
    are derived to themselves.  The state of the environment is the
    provider's table. *)
(* ===================================================================== *)

Module groups.
Import Go api.

Inductive Entry : Type :=
| ToEndpoints (selector : string)
| ToGroups (group : string)
| ToCIDRSet (cidrs : list string).

(** Entries and labels are written as text; [append] doubles a full
    backing array. *)
#[export] Instance externals : Externals :=
  {| EndpointSelector_t := string;
     IngressRule := string;
     EgressRule := Entry;
     Label := string;
     EgressRule_zero := ToCIDRSet [];
     growslice_spare oldCap needed := 2 * oldCap - needed |}.

Definition requires (e : Entry) : bool :=
  match e with ToGroups _ => true | _ => false end.

Definition derive (table : gmap string (list string)) (e : Entry) : Entry + error :=
  match e with
  | ToGroups group =>
      match table !! group with
      | Some cidrs => inl (ToCIDRSet cidrs)
      | None => inr (errorString ("no such group: " +:+ group))
      end
  | _ => inl e
  end.

Definition provider : handler ruleE (gmap string (list string)) :=
  fun X e table =>
    match e in ruleE X return X * gmap string (list string) with
    | EgressRule_RequiresDerivative e => (requires e, table)
    | EgressRule_CreateDerivative e => (derive table e, table)
    end.

Definition table : gmap string (list string) :=
  {[ "sg-web" := ["10.0.0.0/24"; "10.0.1.0/24"] ]}.

(** A rule at location 1 with its three backing arrays at 2, 3 and 4.  The
    group of its third egress entry is not in the table. *)
Definition source : Rule :=
  {| EndpointSelector := "app=foo";
     Ingress := Slice (Some 2%positive) 1 1;
     Egress := Slice (Some 3%positive) 4 4;
     Labels := Slice (Some 4%positive) 1 1;
     Description := "egress of foo" |}.

Definition memory : heap :=
  {[ 1%positive := ORule source;
     2%positive := OIngress ["from app=frontend"];
     3%positive := OEgress [ToEndpoints "app=bar"; ToGroups "sg-web";
                            ToGroups "sg-lost"; ToEndpoints "app=db"];
     4%positive := OLabels ["policy=demo"] ]}.

Definition policy : RuleValue :=
  {| selector := "app=foo";
     ingress := ["from app=frontend"];
     egress := [ToEndpoints "app=bar"; ToGroups "sg-web";
                ToGroups "sg-lost"; ToEndpoints "app=db"];
     labels := ["policy=demo"];
     description := "egress of foo" |}.

(** A rule whose only egress entry names a group that is not in the
    table. *)
Definition lonely : heap :=
  {[ 1%positive := ORule {| EndpointSelector := "app=foo";
                            Ingress := nilSlice;
                            Egress := Slice (Some 2%positive) 1 1;
                            Labels := nilSlice;
                            Description := "" |};
     2%positive := OEgress [ToGroups "sg-lost"] ]}.

(** A rule at location 1 that has ingress entries and no egress. *)
Definition quiet : heap :=
  {[ 1%positive := ORule {| EndpointSelector := "app=foo";
                            Ingress := Slice (Some 2%positive) 1 1;
                            Egress := nilSlice;
                            Labels := nilSlice;
                            Description := "ingress of foo" |};
     2%positive := OIngress ["from app=frontend"] ]}.

Definition quietPolicy : RuleValue :=
  {| selector := "app=foo";
     ingress := ["from app=frontend"];
     egress := [];
     labels := [];
     description := "ingress of foo" |}.

(** The provider's table once the group sg-lost is known to it. *)
Definition fullTable : gmap string (list string) :=
  <[ "sg-lost" := ["10.9.0.0/16"] ]> table.

End groups.

(* ===================================================================== *)
(** * Part II: theorems *)
(* ===================================================================== *)

(** ** Programs and runs *)

Section exec_facts.
Import Go.
Context {E : Type -> Type} {S : Type} (hd : handler E S).

Lemma exec_bind {A B} (p : prog E A) (f : A -> prog E B) (s : S) :
  exec hd (p ≫= f) s =
    let '(a, s1, t1) := exec hd p s in
    let '(b, s2, t2) := exec hd (f a) s1 in
    (b, s2, t1 ++ t2).
Proof.
  revert s. induction p as [a | X e k IH]; intros s; cbn.
  - destruct (exec hd (f a) s) as [[b s2] t2]. reflexivity.
  - destruct (hd X e s) as [x s1].
    change (bind (k x) f) with (k x ≫= f). rewrite IH.
    destruct (exec hd (k x) s1) as [[a s2] t1].
    destruct (exec hd (f a) s2) as [[b s3] t2]. reflexivity.
Qed.

Lemma exec_ret {A} (a : A) (s : S) : exec hd (mret a) s = (a, s, []).
Proof. reflexivity. Qed.

Lemma exec_call {X} (e : E X) (s : S) :
  exec hd (call e) s = ((hd X e s).1, (hd X e s).2, [ev e]).
Proof. cbn. destruct (hd X e s). reflexivity. Qed.

End exec_facts.

(** ** The schema version *)

Section version_facts.
Import Go v2.

Lemma comparableCRDSchemaVersion_parsed :
  version.NewVersion CustomResourceDefinitionSchemaVersion
  = inl comparableCRDSchemaVersion
  /\ version.segments comparableCRDSchemaVersion = [1; 15; 0]%Z
  /\ version.pre comparableCRDSchemaVersion = "".
Proof. vm_compute. auto. Qed.

(** The order of [LessThan] at a few labels around the expected version:
    a shorter label is padded with zeros, a prerelease comes before its
    release, metadata does not count, and more than three segments
    compare segment by segment. *)
Lemma labels_against_expected_version :
  let less v := match version.NewVersion v with
                | inl clusterVersion =>
                    Some (version.LessThan clusterVersion comparableCRDSchemaVersion)
                | inr _ => None
                end in
  less <$> ["0.9"; "1"; "1.14"; "1.14.99"; "v1.14"; "1.15-rc1"; "1.15.0-beta.2"]
  = replicate 7 (Some true)
  /\ less <$> ["1.15"; "v1.15"; "1.15.0"; "1.15+build7"; "1.15.0.1"; "1.16"; "2"; "10.0"]
     = replicate 8 (Some false)
  /\ less <$> ["abc"; ""; "1.15 "; "1.x"; "latest"] = replicate 5 None.
Proof. vm_compute. auto. Qed.

(** C3.  [needsUpdate] is true exactly when the stored descriptor has no
    validation schema, or carries no schema-version label, or its label
    does not parse as a version, or parses to a version that is less than
    the expected one.  Against the expected version 1.15: the labels 1.14
    and abc need an update, the labels 1.15, 1.15.0, 1.16 and 2.0 do
    not, whatever else the descriptor holds. *)
Theorem needsUpdate_spec :
  (forall clusterCRD : CustomResourceDefinition,
      needsUpdate clusterCRD = true <->
        Validation (Spec clusterCRD) = None
        \/ Labels clusterCRD !! CustomResourceDefinitionSchemaVersionKey = None
        \/ (exists v, Labels clusterCRD !! CustomResourceDefinitionSchemaVersionKey = Some v
              /\ ((exists err, version.NewVersion v = inr err)
                  \/ (exists clusterVersion,
                         version.NewVersion v = inl clusterVersion
                         /\ version.LessThan clusterVersion comparableCRDSchemaVersion
                            = true))))
  /\ version.NewVersion "1.15" = inl comparableCRDSchemaVersion
  /\ (forall clusterCRD schema v,
         Validation (Spec clusterCRD) = Some schema ->
         Labels clusterCRD !! CustomResourceDefinitionSchemaVersionKey = Some v ->
         (v = "1.14" \/ v = "abc" -> needsUpdate clusterCRD = true)
         /\ (v = "1.15" \/ v = "1.15.0" \/ v = "1.16" \/ v = "2.0" ->
             needsUpdate clusterCRD = false)
         /\ (forall clusterVersion,
                version.NewVersion v = inl clusterVersion ->
                (0 <= version.Compare clusterVersion comparableCRDSchemaVersion)%Z ->
                needsUpdate clusterCRD = false)).
Proof.
  split; [| split; [vm_compute; reflexivity |]].
  - intros clusterCRD. unfold needsUpdate.
    destruct (Validation (Spec clusterCRD)) as [schema |]; [| tauto].
    destruct (Labels clusterCRD !! CustomResourceDefinitionSchemaVersionKey)
      as [v |]; [| tauto].
    destruct (version.NewVersion v) as [clusterVersion | err] eqn:Hparse.
    + destruct (version.LessThan clusterVersion comparableCRDSchemaVersion) eqn:Hlt.
      * split; [| reflexivity]. intros _. right. right. exists v. split; [reflexivity |].
        right. exists clusterVersion. split; [exact Hparse | exact Hlt].
      * split; [discriminate |].
        intros [Hnone | [Hnone | (v' & Hv & [[err Herr] | (cv & Hcv & Hless)])]];
          try discriminate.
        -- injection Hv as <-. congruence.
        -- injection Hv as <-. congruence.
    + split; [| reflexivity]. intros _. right. right. exists v. split; [reflexivity |].
      left. exists err. exact Hparse.
  - intros clusterCRD schema v Hschema Hlabel. unfold needsUpdate.
    rewrite Hschema, Hlabel. repeat split.
    + intros [-> | ->]; vm_compute; reflexivity.
    + intros [-> | [-> | [-> | ->]]]; vm_compute; reflexivity.
    + intros clusterVersion -> Hge. unfold version.LessThan.
      destruct (Z.ltb_spec (version.Compare clusterVersion comparableCRDSchemaVersion) 0);
        [lia | reflexivity].
Qed.

End version_facts.

(** ** Substrings *)

Section string_facts.

Lemma append_cons (ch : ascii) (a b : string) :
  String ch a +:+ b = String ch (a +:+ b).
Proof. reflexivity. Qed.

Lemma prefix_app (a b : string) : String.prefix a (a +:+ b) = true.
Proof.
  induction a as [| ch a IH].
  - destruct b; reflexivity.
  - rewrite append_cons. simpl.
    destruct (Ascii.ascii_dec ch ch) as [_ | Hne]; [exact IH | destruct (Hne eq_refl)].
Qed.

Lemma prefix_refl (a : string) : String.prefix a a = true.
Proof.
  induction a as [| ch a IH]; simpl; [reflexivity |].
  destruct (Ascii.ascii_dec ch ch) as [_ | Hne]; [exact IH | destruct (Hne eq_refl)].
Qed.

Lemma Contains_unfold (s substr : string) :
  strings.Contains s substr
  = String.prefix substr s
    || match s with
       | EmptyString => false
       | String _ s' => strings.Contains s' substr
       end.
Proof. destruct s; reflexivity. Qed.

Lemma Contains_here (part after : string) :
  strings.Contains (part +:+ after) part = true.
Proof. rewrite Contains_unfold, prefix_app. reflexivity. Qed.

Lemma Contains_self (part : string) : strings.Contains part part = true.
Proof. rewrite Contains_unfold, prefix_refl. reflexivity. Qed.

Lemma Contains_later (before s part : string) :
  strings.Contains s part = true ->
  strings.Contains (before +:+ s) part = true.
Proof.
  intros Hs. induction before as [| ch before IH]; [exact Hs |].
  rewrite append_cons, Contains_unfold, IH. apply orb_true_r.
Qed.

End string_facts.

(** ** The reconciler: create, race, wait, rollback *)

Section reconciler_facts.
Import Go v2.
Context {S : Type} (c : Cluster S).

Local Abbreviation run p s := (exec (serve c) p s).

#[local] Arguments errors.IsNotFound : simpl never.
#[local] Arguments errors.IsAlreadyExists : simpl never.
#[local] Arguments needsUpdate : simpl never.

Lemma WaitFor_unfold {E : Type -> Type} ticks (fn : prog E (bool * option error)) :
  wait.WaitFor ticks fn =
    '(ok, err) ← fn;
    match err with
    | Some err => mret (Some err)
    | None =>
        if ok : bool then mret None
        else match ticks with
             | O => mret (Some wait.ErrWaitTimeout)
             | Datatypes.S ticks' => wait.WaitFor ticks' fn
             end
    end.
Proof. destruct ticks; reflexivity. Qed.

(** The fetch of an absent descriptor followed by a create that loses the
    race: the function returns nil there and then. *)
Lemma fetchOrCreate_lost_race CRDName crd s notFound s1 exists_ s2 :
  crdGet c (Name crd) s = (inr notFound, s1) ->
  errors.IsNotFound (Some notFound) = true ->
  crdCreate c crd s1 = (inr exists_, s2) ->
  errors.IsAlreadyExists (Some exists_) = true ->
  run (fetchOrCreate CRDName crd) s
  = (inr None, s2,
     [ ev (Get (Name crd));
       ev (Log Info CRDName None "Creating CRD (CustomResourceDefinition)...");
       ev (Create crd) ]).
Proof.
  intros HGet HNotFound HCreate HExists.
  unfold fetchOrCreate. cbn. rewrite HGet. cbn. rewrite HNotFound. cbn.
  rewrite HCreate. cbn. rewrite HExists. reflexivity.
Qed.

(** C5.  When the descriptor is absent on fetch and the create that
    follows reports AlreadyExists, [createUpdateCRD] returns a nil error:
    the conflict is not surfaced to the caller. *)
Theorem createUpdateCRD_already_exists_is_success CRDName crd s notFound s1 exists_ s2 :
  crdGet c (Name crd) s = (inr notFound, s1) ->
  errors.IsNotFound (Some notFound) = true ->
  crdCreate c crd s1 = (inr exists_, s2) ->
  errors.IsAlreadyExists (Some exists_) = true ->
  (run (createUpdateCRD CRDName crd) s).1.1 = None.
Proof.
  intros HGet HNotFound HCreate HExists.
  unfold createUpdateCRD. rewrite exec_bind.
  rewrite (fetchOrCreate_lost_race _ _ _ _ _ _ _ HGet HNotFound HCreate HExists).
  reflexivity.
Qed.

(** C6, as the code has it.  When the create reports AlreadyExists,
    [createUpdateCRD] returns nil at once: the fetch and the create are
    the only calls it makes, and neither the version check nor the
    acceptance wait takes place. *)
Theorem createUpdateCRD_already_exists_returns_at_once
    CRDName crd s notFound s1 exists_ s2 :
  crdGet c (Name crd) s = (inr notFound, s1) ->
  errors.IsNotFound (Some notFound) = true ->
  crdCreate c crd s1 = (inr exists_, s2) ->
  errors.IsAlreadyExists (Some exists_) = true ->
  run (createUpdateCRD CRDName crd) s
  = (None, s2,
     [ ev (Get (Name crd));
       ev (Log Info CRDName None "Creating CRD (CustomResourceDefinition)...");
       ev (Create crd) ]).
Proof.
  intros HGet HNotFound HCreate HExists.
  unfold createUpdateCRD. rewrite exec_bind.
  rewrite (fetchOrCreate_lost_race _ _ _ _ _ _ _ HGet HNotFound HCreate HExists).
  reflexivity.
Qed.

Lemma scanConditions_established CRDName err before established after :
  cond_Type established = Established ->
  cond_Status established = ConditionTrue ->
  Forall (fun d => cond_Type d = NamesAccepted -> cond_Status d <> ConditionFalse) before ->
  scanConditions CRDName err (before ++ established :: after) = mret (true, err).
Proof.
  intros HType HStatus HBefore.
  induction HBefore as [| d before Hd _ IH]; cbn.
  - rewrite HType, HStatus. reflexivity.
  - destruct (String.eqb_spec (cond_Type d) Established) as [_ | _].
    + destruct (String.eqb (cond_Status d) ConditionTrue); [reflexivity | exact IH].
    + destruct (String.eqb_spec (cond_Type d) NamesAccepted) as [HNames | _]; [| exact IH].
      destruct (String.eqb_spec (cond_Status d) ConditionFalse) as [HFalse | _]; [| exact IH].
      destruct (Hd HNames HFalse).
Qed.

(** C8.  Against a store that already holds a current descriptor (the
    fetch returns one that [needsUpdate] finds current) which is
    established (the status read sees Established=True before any
    NamesAccepted=False), [createUpdateCRD] returns nil after the fetch,
    the version check and one read of the status: it makes no create, no
    update and no delete call. *)
Theorem createUpdateCRD_converged_reads_only
    CRDName crd s clusterCRD s1 ticks s2 stored s3 before established after :
  crdGet c (Name crd) s = (inl clusterCRD, s1) ->
  needsUpdate clusterCRD = false ->
  pollerTicks c (500 * Millisecond)%Z (60 * Second)%Z s1 = (ticks, s2) ->
  crdGet c (Name crd) s2 = (inl stored, s3) ->
  Conditions (Status stored) = before ++ established :: after ->
  cond_Type established = Established ->
  cond_Status established = ConditionTrue ->
  Forall (fun d => cond_Type d = NamesAccepted -> cond_Status d <> ConditionFalse) before ->
  exists calls,
    run (createUpdateCRD CRDName crd) s = (None, s3, calls)
    /\ filter (fun e => isMutation e = true) calls = []
    /\ filter (fun e => isGet e = true) calls = [ev (Get (Name crd)); ev (Get (Name crd))]
    /\ calls =
       [ ev (Get (Name crd));
         ev (Log Debug CRDName None
               "Checking if CRD (CustomResourceDefinition) needs update...");
         ev (Log Debug CRDName None
               "Waiting for CRD (CustomResourceDefinition) to be available...");
         ev (Poller (500 * Millisecond)%Z (60 * Second)%Z);
         ev (Get (Name crd));
         ev (Log Info CRDName None
               "CRD (CustomResourceDefinition) is installed and up-to-date") ].
Proof.
  intros HGet HCurrent HTicks HStatus HConds HType HTrue HBefore.
  eexists. split; [| split; [| split; [| reflexivity]]]; [| reflexivity | reflexivity].
  unfold createUpdateCRD, fetchOrCreate, updateIfNeeded, waitEstablished, Poll, wait.Poll.
  cbn. rewrite HGet. cbn. rewrite HCurrent. cbn.
  rewrite HTicks. rewrite WaitFor_unfold. unfold establishedCondition.
  cbn. rewrite HStatus. cbn. rewrite HConds.
  rewrite (scanConditions_established _ _ _ _ _ HType HTrue HBefore).
  reflexivity.
Qed.

(** C7.  Whenever the run reaches the acceptance wait and the wait fails,
    for whatever reason, [createUpdateCRD] calls Delete on the descriptor
    it was installing, as its last call, and returns a non-nil error: the
    wait's error when the deletion succeeded, and otherwise one error
    whose message holds both the deletion's message and the wait's. *)
Theorem createUpdateCRD_rollback
    CRDName crd s clusterCRD s1 t1 s2 t2 err s3 t3 deleteErr s4 :
  run (fetchOrCreate CRDName crd) s = (inl clusterCRD, s1, t1) ->
  run (updateIfNeeded CRDName crd clusterCRD) s1 = (None, s2, t2) ->
  run (waitEstablished CRDName crd) s2 = (Some err, s3, t3) ->
  crdDelete c (Name crd) s3 = (deleteErr, s4) ->
  exists returned,
    run (createUpdateCRD CRDName crd) s
    = (Some returned, s4, t1 ++ t2 ++ t3 ++ [ev (Delete (Name crd))])
    /\ match deleteErr with
       | None => returned = err
       | Some deleteErr =>
           Error returned
           = "unable to delete k8s " +:+ CRDName +:+ " CRD " +:+ Error deleteErr
             +:+ ". Deleting CRD due: " +:+ Error err
           /\ strings.Contains (Error returned) (Error deleteErr) = true
           /\ strings.Contains (Error returned) (Error err) = true
       end.
Proof.
  intros HFetch HUpdate HWait HDelete.
  exists (match deleteErr with
          | None => err
          | Some deleteErr => deleteFailed CRDName deleteErr err
          end).
  split.
  - unfold createUpdateCRD.
    rewrite exec_bind, HFetch. rewrite exec_bind, HUpdate. rewrite exec_bind, HWait.
    unfold afterWait. cbn. rewrite HDelete.
    destruct deleteErr; reflexivity.
  - destruct deleteErr as [deleteErr |]; [| reflexivity].
    split; [reflexivity |]. cbn [deleteFailed Error]. split.
    + do 3 apply Contains_later. apply Contains_here.
    + do 5 apply Contains_later. apply Contains_self.
Qed.

End reconciler_facts.

(** ** The kinds in their order *)

Section kinds_facts.
Import Go v2.
Context `{Externals} {S : Type} (c : Cluster S).

Local Abbreviation run p s := (exec (serve c) p s).

(** Of the four descriptors the package builds, only the policy one
    carries the schema-version label: stored exactly as built, the other
    three are found in need of an update by every later run. *)
Lemma built_descriptors_needing_update :
  needsUpdate cepCRD = true
  /\ needsUpdate nodeCRD = true
  /\ needsUpdate identityCRD = true
  /\ (needsUpdate cnpCRD = false <-> Validation (Spec ciliumCRD) <> None).
Proof.
  repeat split; try reflexivity.
  - unfold needsUpdate, cnpCRD. cbn [Spec Validation].
    destruct (Validation (Spec ciliumCRD)); [intros _ | ]; discriminate.
  - intros Hvalidation. unfold needsUpdate, cnpCRD. cbn [Spec Validation Labels].
    destruct (Validation (Spec ciliumCRD)); [| destruct (Hvalidation eq_refl)].
    rewrite lookup_singleton_eq. vm_compute. reflexivity.
Qed.

Lemma CreateCustomResourceDefinitions_refines cfg s :
  run (CreateCustomResourceDefinitions cfg) s = run (reconcileInOrder (managedKinds cfg)) s.
Proof.
  unfold CreateCustomResourceDefinitions, managedKinds.
  cbn [app reconcileInOrder].
  rewrite !(exec_bind _ createCNPCRD).
  destruct (run createCNPCRD s) as [[[e1 |] s1] t1]; [reflexivity |].
  rewrite !(exec_bind _ createCEPCRD).
  destruct (run createCEPCRD s1) as [[[e2 |] s2] t2]; [reflexivity |].
  rewrite !(exec_bind _ createNodeCRD).
  destruct (run createNodeCRD s2) as [[[e3 |] s3] t3]; [reflexivity |].
  destruct (String.eqb (IdentityAllocationMode cfg) IdentityAllocationModeCRD).
  - cbn [reconcileInOrder]. rewrite !(exec_bind _ createIdentityCRD).
    destruct (run createIdentityCRD s3) as [[[e4 |] s4] t4]; reflexivity.
  - reflexivity.
Qed.

(** C10.  [CreateCustomResourceDefinitions] runs the reconciliations of
    the policy, endpoint, node and identity kinds in this order and
    stops at the first that returns an error, returning that error: the
    calls of the run are those of the kinds up to and including the
    failing one, and the state is the one the failing kind left.  The
    identity kind is reconciled exactly when the identity allocation mode
    is the CRD mode; in any other mode the run ends after the node kind. *)
Theorem CreateCustomResourceDefinitions_in_order cfg s :
  run (CreateCustomResourceDefinitions cfg) s = run (reconcileInOrder (managedKinds cfg)) s
  /\ (forall err s1 t1,
         run createCNPCRD s = (Some err, s1, t1) ->
         run (CreateCustomResourceDefinitions cfg) s = (Some err, s1, t1))
  /\ (forall s1 t1 err s2 t2,
         run createCNPCRD s = (None, s1, t1) ->
         run createCEPCRD s1 = (Some err, s2, t2) ->
         run (CreateCustomResourceDefinitions cfg) s = (Some err, s2, t1 ++ t2))
  /\ (forall s1 t1 s2 t2 err s3 t3,
         run createCNPCRD s = (None, s1, t1) ->
         run createCEPCRD s1 = (None, s2, t2) ->
         run createNodeCRD s2 = (Some err, s3, t3) ->
         run (CreateCustomResourceDefinitions cfg) s = (Some err, s3, t1 ++ t2 ++ t3))
  /\ (forall s1 t1 s2 t2 s3 t3,
         run createCNPCRD s = (None, s1, t1) ->
         run createCEPCRD s1 = (None, s2, t2) ->
         run createNodeCRD s2 = (None, s3, t3) ->
         (IdentityAllocationMode cfg <> IdentityAllocationModeCRD ->
          run (CreateCustomResourceDefinitions cfg) s = (None, s3, t1 ++ t2 ++ t3))
         /\ (forall result s4 t4,
                IdentityAllocationMode cfg = IdentityAllocationModeCRD ->
                run createIdentityCRD s3 = (result, s4, t4) ->
                run (CreateCustomResourceDefinitions cfg) s
                = (result, s4, t1 ++ t2 ++ t3 ++ t4))).
Proof.
  split; [apply CreateCustomResourceDefinitions_refines |].
  unfold CreateCustomResourceDefinitions.
  split; [| split; [| split]].
  - intros err s1 t1 H1. rewrite exec_bind, H1. cbn. rewrite app_nil_r. reflexivity.
  - intros s1 t1 err s2 t2 H1 H2.
    rewrite exec_bind, H1, exec_bind, H2. cbn. rewrite app_nil_r. reflexivity.
  - intros s1 t1 s2 t2 err s3 t3 H1 H2 H3.
    rewrite exec_bind, H1, exec_bind, H2, exec_bind, H3. cbn.
    rewrite app_nil_r. reflexivity.
  - intros s1 t1 s2 t2 s3 t3 H1 H2 H3.
    rewrite exec_bind, H1, exec_bind, H2, exec_bind, H3. split.
    + intros Hmode. apply String.eqb_neq in Hmode. rewrite Hmode. cbn.
      rewrite app_nil_r. reflexivity.
    + intros result s4 t4 Hmode H4. apply String.eqb_eq in Hmode. rewrite Hmode.
      rewrite exec_bind, H4. destruct result; cbn; rewrite app_nil_r; reflexivity.
Qed.

End kinds_facts.

(** ** Runs against the clusters of Part I *)

Section cluster_facts.
Import Go v2 cluster.

Lemma shared_get (c0 : CustomResourceDefinition) (n : nat) :
  crdGet shared (Name c0) (holding c0 n) = (inl c0, holding c0 n).
Proof.
  unfold shared, holding. cbn [crdGet objects].
  rewrite lookup_singleton_eq. reflexivity.
Qed.

(** One poll of the status of a descriptor that reports a name conflict:
    the reason is logged, and the condition function answers
    (false, nil). *)
Lemma establishedCondition_conflict CRDName crd c0 n :
  Name crd = Name c0 ->
  Conditions (Status c0) = conflicting ->
  exec (serve shared) (establishedCondition CRDName crd) (holding c0 n)
  = ((false, None), holding c0 n,
     [ ev (Get (Name crd));
       ev (Log Error_ CRDName (Some (errorString "conflict")) "Name conflict for CRD") ]).
Proof.
  intros HName HConds. unfold establishedCondition.
  rewrite exec_bind, exec_call. cbn [serve]. rewrite HName, shared_get.
  cbn [fst snd]. rewrite HConds. reflexivity.
Qed.

Lemma WaitFor_conflict CRDName crd c0 n ticks :
  Name crd = Name c0 ->
  Conditions (Status c0) = conflicting ->
  exec (serve shared) (wait.WaitFor ticks (establishedCondition CRDName crd)) (holding c0 n)
  = (Some wait.ErrWaitTimeout, holding c0 n,
     mjoin (replicate (Datatypes.S ticks) (conflictPoll CRDName (Name crd)))).
Proof.
  intros HName HConds. induction ticks as [| ticks IH].
  - rewrite WaitFor_unfold, exec_bind, (establishedCondition_conflict _ _ _ _ HName HConds).
    reflexivity.
  - rewrite WaitFor_unfold, exec_bind, (establishedCondition_conflict _ _ _ _ HName HConds).
    cbn match. rewrite IH. reflexivity.
Qed.

Lemma polls_gets CRDName name m :
  length (filter (fun e => isGet e = true) (mjoin (replicate m (conflictPoll CRDName name))))
  = m.
Proof.
  induction m as [| m IH]; [reflexivity |].
  change (mjoin (replicate (Datatypes.S m) (conflictPoll CRDName name)))
    with (conflictPoll CRDName name ++ mjoin (replicate m (conflictPoll CRDName name))).
  rewrite filter_app, length_app, IH. reflexivity.
Qed.

Lemma stored_current_is_current conds : needsUpdate (stored (Some "1.15") conds) = false.
Proof. vm_compute. reflexivity. Qed.

Lemma fetchOrCreate_found CRDName crd c0 n :
  Name crd = Name c0 ->
  exec (serve shared) (fetchOrCreate CRDName crd) (holding c0 n)
  = (inl c0, holding c0 n, [ev (Get (Name crd))]).
Proof.
  intros HName. unfold fetchOrCreate.
  rewrite exec_bind, exec_call. cbn [serve]. rewrite HName, shared_get. reflexivity.
Qed.

Lemma updateIfNeeded_current {S} (c : Cluster S) CRDName crd clusterCRD s :
  needsUpdate clusterCRD = false ->
  exec (serve c) (updateIfNeeded CRDName crd clusterCRD) s
  = (None, s,
     [ev (Log Debug CRDName None
            "Checking if CRD (CustomResourceDefinition) needs update...")]).
Proof. intros HCurrent. unfold updateIfNeeded. cbn. rewrite HCurrent. reflexivity. Qed.

Lemma waitEstablished_conflict CRDName crd c0 n :
  Name crd = Name c0 ->
  Conditions (Status c0) = conflicting ->
  exec (serve shared) (waitEstablished CRDName crd) (holding c0 n)
  = (Some wait.ErrWaitTimeout, holding c0 n,
     [ ev (Log Debug CRDName None
             "Waiting for CRD (CustomResourceDefinition) to be available...");
       ev (Poller (500 * Millisecond)%Z (60 * Second)%Z) ]
     ++ mjoin (replicate (Datatypes.S n) (conflictPoll CRDName (Name crd)))).
Proof.
  intros HName HConds. unfold waitEstablished, Poll, wait.Poll, log.
  rewrite exec_bind, exec_call. cbn [serve fst snd].
  rewrite exec_bind, exec_call.
  change (serve shared nat (Poller (500 * Millisecond)%Z (60 * Second)%Z) (holding c0 n))
    with (n, holding c0 n).
  cbn [fst snd]. rewrite (WaitFor_conflict _ _ _ _ _ HName HConds). reflexivity.
Qed.

Lemma shared_delete (c0 : CustomResourceDefinition) (n : nat) :
  crdDelete shared (Name c0) (holding c0 n)
  = (None, withObjects (holding c0 n) (delete (Name c0) (objects (holding c0 n)))).
Proof.
  unfold shared, holding. cbn [crdDelete objects].
  rewrite lookup_singleton_eq. reflexivity.
Qed.

Lemma afterWait_deletes CRDName crd c0 n err :
  Name crd = Name c0 ->
  exec (serve shared) (afterWait CRDName crd (Some err)) (holding c0 n)
  = (Some err, withObjects (holding c0 n) (delete (Name c0) (objects (holding c0 n))),
     [ev (Delete (Name c0))]).
Proof.
  intros HName. unfold afterWait. rewrite exec_bind, exec_call. cbn [serve].
  rewrite HName, shared_delete. reflexivity.
Qed.

(** C4, on the code.  A store holds the policy descriptor, current, with
    the condition NamesAccepted=False and the reason conflict; the poller
    delivers [n] ticks before the timeout.  [createUpdateCRD] logs the
    reason at every poll and polls on: it reads the status [n + 1] times,
    the whole of the poll window, deletes the descriptor and returns the
    timeout error of [wait.Poll], whose message does not mention the
    reason. *)
Theorem name_conflict_is_polled_until_the_timeout (n : nat) :
  exists (st' : Store) calls,
    exec (serve shared) (createUpdateCRD "CiliumNetworkPolicy/v2" cnpCRD)
         (holding (stored (Some "1.15") conflicting) n)
    = (Some wait.ErrWaitTimeout, st', calls)
    /\ calls
       = [ ev (Get (Name cnpCRD));
           ev (Log Debug "CiliumNetworkPolicy/v2" None
                 "Checking if CRD (CustomResourceDefinition) needs update...");
           ev (Log Debug "CiliumNetworkPolicy/v2" None
                 "Waiting for CRD (CustomResourceDefinition) to be available...");
           ev (Poller (500 * Millisecond)%Z (60 * Second)%Z) ]
         ++ mjoin (replicate (Datatypes.S n)
                     (conflictPoll "CiliumNetworkPolicy/v2" (Name cnpCRD)))
         ++ [ ev (Delete (Name cnpCRD)) ]
    /\ length (filter (fun e => isGet e = true) calls) = n + 2
    /\ strings.Contains (Error wait.ErrWaitTimeout) "conflict" = false
    /\ objects st' !! Name cnpCRD = None.
Proof.
  set (c0 := stored (Some "1.15") conflicting).
  assert (HName : Name cnpCRD = Name c0) by reflexivity.
  assert (HConds : Conditions (Status c0) = conflicting) by reflexivity.
  assert (HCurrent : needsUpdate c0 = false) by apply stored_current_is_current.
  eexists _, _. split; [| split; [reflexivity | split; [| split]]].
  - unfold createUpdateCRD.
    rewrite exec_bind, (fetchOrCreate_found _ _ _ _ HName). cbv beta iota.
    rewrite exec_bind, (updateIfNeeded_current _ _ _ c0 _ HCurrent). cbv beta iota.
    rewrite exec_bind, (waitEstablished_conflict _ _ _ _ HName HConds). cbv beta iota.
    rewrite (afterWait_deletes _ _ _ _ _ HName).
    reflexivity.
  - rewrite !filter_app, !length_app, polls_gets.
    change (1 + (Datatypes.S n + 0) = n + 2). lia.
  - vm_compute. reflexivity.
  - cbn [objects withObjects holding]. apply lookup_delete_eq.
Qed.

(** C6, as the specification states it, fails here.  A reconciler fetches
    the policy descriptor, finds it absent, and loses the race for its
    creation.  It returns nil, and the create is its last call: no poll is
    started and the status of the descriptor is never read. *)
Lemma lost_race_makes_no_acceptance_check :
  exists calls,
    exec (serve shared) (createUpdateCRD "CiliumNetworkPolicy/v2" cnpCRD) racing
    = (None, land racing, calls)
    /\ calls = [ ev (Get (Name cnpCRD));
                 ev (Log Info "CiliumNetworkPolicy/v2" None
                       "Creating CRD (CustomResourceDefinition)...");
                 ev (Create cnpCRD) ]
    /\ filter (fun e => isPoller e = true) calls = []
    /\ filter (fun e => isGet e = true) calls = [ev (Get (Name cnpCRD))].
Proof. eexists. split; [| split; [reflexivity |]]; vm_compute; auto. Qed.

Lemma createUpdateCRD_already_exists_is_success_witness :
  (exec (serve shared) (createUpdateCRD "CiliumNetworkPolicy/v2" cnpCRD) racing).1.1
  = None.
Proof.
  eapply (createUpdateCRD_already_exists_is_success shared
            "CiliumNetworkPolicy/v2" cnpCRD racing);
    vm_compute; reflexivity.
Defined.

Lemma createUpdateCRD_already_exists_returns_at_once_witness :
  exec (serve shared) (createUpdateCRD "CiliumNetworkPolicy/v2" cnpCRD) racing
  = (None, land racing,
     [ ev (Get (Name cnpCRD));
       ev (Log Info "CiliumNetworkPolicy/v2" None
             "Creating CRD (CustomResourceDefinition)...");
       ev (Create cnpCRD) ]).
Proof.
  eapply (createUpdateCRD_already_exists_returns_at_once shared
            "CiliumNetworkPolicy/v2" cnpCRD racing);
    vm_compute; reflexivity.
Defined.

Lemma createUpdateCRD_rollback_witness :
  exists returned,
    (exec (serve scripted) (createUpdateCRD "CiliumNetworkPolicy/v2" cnpCRD) failingWait).1.1
    = Some returned
    /\ strings.Contains (Error returned) "forbidden" = true
    /\ strings.Contains (Error returned) "connection refused" = true.
Proof.
  edestruct (createUpdateCRD_rollback scripted "CiliumNetworkPolicy/v2" cnpCRD failingWait)
    as (returned & Hrun & Hmessage).
  - vm_compute. reflexivity.
  - vm_compute. reflexivity.
  - vm_compute. reflexivity.
  - vm_compute. reflexivity.
  - exists returned. rewrite Hrun. split; [reflexivity |].
    destruct Hmessage as (_ & HDelete & HWait). split; [exact HDelete | exact HWait].
Defined.

Lemma createUpdateCRD_converged_reads_only_witness :
  exists calls,
    exec (serve shared) (createUpdateCRD "CiliumNetworkPolicy/v2" cnpCRD)
         (holding (stored (Some "1.15") accepted) 120)
    = (None, holding (stored (Some "1.15") accepted) 120, calls)
    /\ filter (fun e => isMutation e = true) calls = [].
Proof.
  destruct (createUpdateCRD_converged_reads_only shared "CiliumNetworkPolicy/v2" cnpCRD
              (holding (stored (Some "1.15") accepted) 120)
              (stored (Some "1.15") accepted)
              (holding (stored (Some "1.15") accepted) 120)
              120
              (holding (stored (Some "1.15") accepted) 120)
              (stored (Some "1.15") accepted)
              (holding (stored (Some "1.15") accepted) 120)
              [condition NamesAccepted ConditionTrue "NoConflicts"]
              (condition Established ConditionTrue "InitialNamesAccepted")
              [])
    as (calls & Hrun & Hreads & _).
  - vm_compute. reflexivity.
  - vm_compute. reflexivity.
  - vm_compute. reflexivity.
  - vm_compute. reflexivity.
  - reflexivity.
  - reflexivity.
  - reflexivity.
  - constructor; [| constructor]. intros _. discriminate.
  - exists calls. split; [exact Hrun | exact Hreads].
Defined.

End cluster_facts.

(** ** The rule model: heap facts *)

Section heap_facts.
Import Go api.
Context `{Externals}.

Lemma ingressK_lawful : lawful ingressK.
Proof. intros a. reflexivity. Qed.

Lemma egressK_lawful : lawful egressK.
Proof. intros a. reflexivity. Qed.

Lemma labelK_lawful : lawful labelK.
Proof. intros a. reflexivity. Qed.

(** What a slice shows depends on the cell of its backing array only. *)
Lemma slice_elems_agree {T} (K : kind T) (h h' : heap) (s : slice) :
  (forall l, l ∈ slice_locs s -> h' !! l = h !! l) ->
  slice_elems K h' s = slice_elems K h s.
Proof.
  intros Hagree. unfold slice_elems, slice_locs in *.
  destruct (Data s) as [l |]; [| reflexivity].
  rewrite (Hagree l) by set_solver. reflexivity.
Qed.

Lemma slice_elems_mono {T} (K : kind T) (h h' : heap) (s : slice) xs :
  h ⊆ h' -> slice_elems K h s = Some xs -> slice_elems K h' s = Some xs.
Proof.
  intros Hsub Hs. unfold slice_elems in *.
  destruct (Data s) as [l |]; [| exact Hs].
  destruct (h !! l) as [o |] eqn:Hl; [| discriminate].
  rewrite (lookup_weaken _ _ _ _ Hl Hsub). exact Hs.
Qed.

Lemma slice_elems_dom {T} (K : kind T) (h : heap) (s : slice) xs :
  slice_elems K h s = Some xs -> slice_locs s ⊆ dom h.
Proof.
  unfold slice_elems, slice_locs. destruct (Data s) as [l |]; [| set_solver].
  destruct (h !! l) as [o |] eqn:Hl; [| discriminate].
  intros _. apply singleton_subseteq_l, elem_of_dom. eauto.
Qed.

Lemma slice_elems_length {T} (K : kind T) (h : heap) (s : slice) xs :
  slice_elems K h s = Some xs -> length xs = Len s.
Proof.
  unfold slice_elems. destruct (Data s) as [l |].
  - destruct (h !! l ≫= elements K) as [a |]; [| discriminate]. cbn.
    destruct (Nat.leb_spec (Len s) (length a)); [| discriminate].
    intros [= <-]. rewrite length_take. lia.
  - destruct (Nat.eqb_spec (Len s) 0) as [-> |]; [| discriminate].
    intros [= <-]. reflexivity.
Qed.

(** A rule that reads back is a rule in the heap, whose slices read back. *)
Lemma rule_value_inv (h : heap) (r : loc) v :
  rule_value h r = Some v ->
  exists R,
    h !! r = Some (ORule R)
    /\ slice_elems ingressK h (Ingress R) = Some (ingress v)
    /\ slice_elems egressK h (Egress R) = Some (egress v)
    /\ slice_elems labelK h (Labels R) = Some (labels v)
    /\ selector v = EndpointSelector R
    /\ description v = Description R.
Proof.
  unfold rule_value. destruct (h !! r) as [[R | | |] |] eqn:Hr; try discriminate.
  destruct (slice_elems ingressK h (Ingress R)) as [i |] eqn:Hi; [| discriminate].
  destruct (slice_elems egressK h (Egress R)) as [e |] eqn:He; [| discriminate].
  destruct (slice_elems labelK h (Labels R)) as [l |] eqn:Hl; [| discriminate].
  cbn. intros [= <-]. exists R. cbn. repeat split; auto.
Qed.

Lemma rule_value_intro (h : heap) (r : loc) R i e l :
  h !! r = Some (ORule R) ->
  slice_elems ingressK h (Ingress R) = Some i ->
  slice_elems egressK h (Egress R) = Some e ->
  slice_elems labelK h (Labels R) = Some l ->
  rule_value h r
  = Some {| selector := EndpointSelector R; ingress := i; egress := e; labels := l;
            description := Description R |}.
Proof.
  intros Hr Hi He Hl. unfold rule_value. rewrite Hr, Hi, He, Hl. reflexivity.
Qed.

Lemma footprint_rule (h : heap) (r : loc) R :
  h !! r = Some (ORule R) ->
  footprint h r
  = {[ r ]} ∪ slice_locs (Ingress R) ∪ slice_locs (Egress R) ∪ slice_locs (Labels R).
Proof. intros Hr. unfold footprint. rewrite Hr. reflexivity. Qed.

Lemma footprint_dom (h : heap) (r : loc) v :
  rule_value h r = Some v -> footprint h r ⊆ dom h.
Proof.
  intros (R & Hr & Hi & He & Hl & _)%rule_value_inv.
  rewrite (footprint_rule _ _ _ Hr).
  apply slice_elems_dom in Hi, He, Hl.
  assert (r ∈ dom h) by (apply elem_of_dom; eauto).
  set_solver.
Qed.

(** Writing outside the footprint of a rule does not change what the rule
    reads back as. *)
Lemma rule_value_insert_outside (h : heap) (r l : loc) (o : object) R :
  h !! r = Some (ORule R) ->
  l ∉ footprint h r ->
  rule_value (<[l := o]> h) r = rule_value h r.
Proof.
  intros Hr Hl. rewrite (footprint_rule _ _ _ Hr) in Hl.
  assert (Hne : l ≠ r) by set_solver.
  unfold rule_value. rewrite lookup_insert_ne, Hr by exact Hne.
  rewrite (slice_elems_agree ingressK h), (slice_elems_agree egressK h),
    (slice_elems_agree labelK h); [reflexivity | | |];
    intros l' Hl'; apply lookup_insert_ne; set_solver.
Qed.

End heap_facts.

(** ** The rule model: the operations on the heap *)

Section heap_operations.
Import Go api.
Context `{Externals}.

Lemma M_bind_ret {A B} (m : M A) (f : A -> M B) (h h1 : heap) a :
  m h = Ret (Some (a, h1)) -> (m ≫= f) h = f a h1.
Proof. intros Hm. unfold mbind, M_bind. rewrite Hm. reflexivity. Qed.

Lemma loadRule_ret (h : heap) (p : loc) R :
  h !! p = Some (ORule R) -> loadRule p h = Ret (Some (R, h)).
Proof.
  intros Hp. unfold loadRule.
  erewrite M_bind_ret by (unfold load; rewrite Hp; reflexivity). reflexivity.
Qed.

Lemma loadArray_ret {T} (K : kind T) (h : heap) (s : slice) l o a :
  Data s = Some l -> h !! l = Some o -> elements K o = Some a ->
  loadArray K s h = Ret (Some (a, h)).
Proof.
  intros Hs Hl Ho. unfold loadArray. rewrite Hs.
  erewrite M_bind_ret by (unfold load; rewrite Hl; reflexivity).
  rewrite Ho. reflexivity.
Qed.

(** What a slice shows comes from a backing array, unless it shows
    nothing. *)
Lemma slice_elems_inv {T} (K : kind T) (h : heap) (s : slice) xs :
  slice_elems K h s = Some xs ->
  (Data s = None /\ Len s = 0 /\ xs = [])
  \/ (exists l o a, Data s = Some l /\ h !! l = Some o /\ elements K o = Some a
                   /\ Len s <= length a /\ xs = take (Len s) a).
Proof.
  unfold slice_elems. destruct (Data s) as [l |].
  - destruct (h !! l) as [o |] eqn:Hl; [| discriminate]. cbn.
    destruct (elements K o) as [a |] eqn:Ho; [| discriminate]. cbn.
    destruct (Nat.leb_spec (Len s) (length a)); [| discriminate].
    intros [= <-]. right. exists l, o, a. auto.
  - destruct (Nat.eqb_spec (Len s) 0); [| discriminate].
    intros [= <-]. left. auto.
Qed.

Lemma index_ret {T} (K : kind T) (h : heap) (s : slice) xs i x :
  slice_elems K h s = Some xs -> xs !! i = Some x ->
  index K s i h = Ret (Some (x, h)).
Proof.
  intros Hs Hi.
  destruct (slice_elems_inv _ _ _ _ Hs)
    as [(_ & _ & ->) | (l & o & a & HData & Hl & Ho & Hlen & ->)]; [discriminate |].
  assert (Hlt : i < Len s).
  { apply lookup_lt_Some in Hi. rewrite length_take in Hi. lia. }
  unfold index. destruct (Nat.ltb_spec i (Len s)); [| lia].
  erewrite M_bind_ret by (eapply loadArray_ret; eassumption).
  rewrite lookup_take_lt in Hi by exact Hlt. rewrite Hi. reflexivity.
Qed.

Lemma assign_ret (h : heap) (r : loc) R (f : Rule -> Rule) :
  h !! r = Some (ORule R) ->
  assign r f h = Ret (Some (tt, <[r := ORule (f R)]> h)).
Proof.
  intros Hr. unfold assign.
  erewrite M_bind_ret by (apply loadRule_ret; exact Hr).
  unfold store. rewrite Hr. reflexivity.
Qed.

(** Copying a slice: the copy shows the same entries from a backing array
    that did not exist before, and nothing that existed is written. *)
Lemma copySlice_spec {T} (K : kind T) (h : heap) (s : slice) xs :
  lawful K ->
  slice_elems K h s = Some xs ->
  exists s' h',
    copySlice K s h = Ret (Some (s', h'))
    /\ h ⊆ h'
    /\ slice_elems K h' s' = Some xs
    /\ slice_locs s' ⊆ dom h' ∖ dom h.
Proof.
  intros HK Hs.
  destruct (slice_elems_inv _ _ _ _ Hs)
    as [(HData & HLen & ->) | (l & o & a & HData & Hl & Ho & Hlen & ->)].
  - exists s, h. unfold copySlice, slice_locs. rewrite HData.
    split; [reflexivity |]. split; [reflexivity |]. split; [exact Hs | set_solver].
  - set (l' := fresh (dom h)).
    assert (Hfresh : h !! l' = None) by (apply not_elem_of_dom, is_fresh).
    exists (Slice (Some l') (length (take (Len s) a)) (length (take (Len s) a))),
           (<[l' := array K (take (Len s) a)]> h).
    split; [| split; [| split]].
    + unfold copySlice. rewrite HData.
      erewrite M_bind_ret by (eapply loadArray_ret; eassumption).
      destruct (Nat.leb_spec (Len s) (length a)); [reflexivity | lia].
    + apply insert_subseteq. exact Hfresh.
    + unfold slice_elems. cbn [Data Len]. rewrite lookup_insert_eq. cbn.
      rewrite HK. cbn. rewrite Nat.leb_refl. rewrite firstn_all. reflexivity.
    + unfold slice_locs. cbn [Data]. rewrite dom_insert_L.
      pose proof (is_fresh (dom h)). set_solver.
Qed.

(** One more entry shown by a slice whose backing array is [a]. *)
Lemma take_S_insert {T} (a : list T) (n : nat) (x : T) :
  n < length a -> take (S n) (<[n := x]> a) = take n a ++ [x].
Proof.
  intros Hn. rewrite (insert_take_drop a n x Hn).
  rewrite take_app_ge by (rewrite length_take; lia).
  rewrite length_take. replace (S n - (n `min` length a)) with 1 by lia.
  reflexivity.
Qed.

(** [append] to a slice that is the only one on its backing array: the
    array is written in place or a new one is allocated; either way the
    slice shows the old entries and the new one, and no other location is
    written. *)
Lemma append_spec {T} (K : kind T) (zero : T) (h : heap) (s : slice) le a x :
  lawful K ->
  Data s = Some le ->
  h !! le = Some (array K a) ->
  Len s <= Cap s ->
  Cap s = length a ->
  exists s' le' a',
    append K zero s x h = Ret (Some (s', <[le' := array K a']> h))
    /\ Data s' = Some le'
    /\ (le' = le \/ le' ∉ dom h)
    /\ Len s' = S (Len s)
    /\ Len s' <= Cap s'
    /\ Cap s' = length a'
    /\ take (Len s') a' = take (Len s) a ++ [x].
Proof.
  intros HK HData Hle HLen HCap. unfold append.
  destruct (Nat.ltb_spec (Len s) (Cap s)) as [Hroom | Hfull].
  - exists (Slice (Some le) (S (Len s)) (Cap s)), le, (<[Len s := x]> a).
    rewrite HData.
    erewrite M_bind_ret by (eapply loadArray_ret; [exact HData | exact Hle | apply HK]).
    erewrite M_bind_ret by (unfold store; rewrite Hle; reflexivity).
    cbn [Data Len Cap]. rewrite length_insert.
    repeat split; [auto | lia | exact HCap |].
    apply take_S_insert. lia.
  - set (le' := fresh (dom h)).
    set (spare := growslice_spare (Cap s) (S (Len s))).
    exists (Slice (Some le') (S (Len s)) (S (Len s) + spare)), le',
           (take (Len s) a ++ x :: replicate spare zero).
    assert (Hold : (if (Len s =? 0)%nat then mret []
                    else a0 ← loadArray K s; mret (take (Len s) a0)) h
                   = Ret (Some (take (Len s) a, h))).
    { destruct (Nat.eqb_spec (Len s) 0) as [-> | _]; [reflexivity |].
      erewrite M_bind_ret by (eapply loadArray_ret; [exact HData | exact Hle | apply HK]).
      reflexivity. }
    erewrite M_bind_ret by exact Hold.
    cbn [Data Len Cap].
    assert (Hlen : length (take (Len s) a) = Len s) by (rewrite length_take; lia).
    repeat split.
    + right. apply is_fresh.
    + lia.
    + rewrite length_app, Hlen. cbn [length]. rewrite length_replicate. lia.
    + rewrite take_app_ge by lia. rewrite Hlen.
      replace (S (Len s) - Len s) with 1 by lia. reflexivity.
Qed.

(** [DeepCopy]: a new rule with the source's selector and description,
    whose slices show the source's entries from backing arrays that did
    not exist before; nothing that existed is written. *)
Lemma DeepCopy_spec (h : heap) (r : loc) R i e l :
  h !! r = Some (ORule R) ->
  slice_elems ingressK h (Ingress R) = Some i ->
  slice_elems egressK h (Egress R) = Some e ->
  slice_elems labelK h (Labels R) = Some l ->
  exists n N h',
    DeepCopy r h = Ret (Some (n, h'))
    /\ h ⊆ h'
    /\ (n ∉ dom h)
    /\ h' !! n = Some (ORule N)
    /\ EndpointSelector N = EndpointSelector R
    /\ Description N = Description R
    /\ slice_elems ingressK h' (Ingress N) = Some i
    /\ slice_elems egressK h' (Egress N) = Some e
    /\ slice_elems labelK h' (Labels N) = Some l
    /\ slice_locs (Ingress N) ∪ slice_locs (Egress N) ∪ slice_locs (Labels N)
       ⊆ dom h' ∖ dom h ∖ {[ n ]}.
Proof.
  intros Hr Hi He Hl.
  destruct (copySlice_spec ingressK h (Ingress R) i ingressK_lawful Hi)
    as (si & h1 & Hcopy1 & Hsub1 & Hi1 & Hlocs1).
  destruct (copySlice_spec egressK h1 (Egress R) e egressK_lawful
              (slice_elems_mono _ _ _ _ _ Hsub1 He))
    as (se & h2 & Hcopy2 & Hsub2 & He2 & Hlocs2).
  destruct (copySlice_spec labelK h2 (Labels R) l labelK_lawful
              (slice_elems_mono _ _ _ _ _ Hsub2 (slice_elems_mono _ _ _ _ _ Hsub1 Hl)))
    as (sl & h3 & Hcopy3 & Hsub3 & Hl3 & Hlocs3).
  set (n := fresh (dom h3)).
  set (N := {| EndpointSelector := EndpointSelector R; Ingress := si; Egress := se;
               Labels := sl; Description := Description R |}).
  assert (Hfresh : n ∉ dom h3) by apply is_fresh.
  assert (Hnone : h3 !! n = None) by (apply not_elem_of_dom; exact Hfresh).
  assert (Hsub4 : h3 ⊆ <[n := ORule N]> h3) by (apply insert_subseteq; exact Hnone).
  pose proof (subseteq_dom _ _ Hsub1) as Hd1.
  pose proof (subseteq_dom _ _ Hsub2) as Hd2.
  pose proof (subseteq_dom _ _ Hsub3) as Hd3.
  exists n, N, (<[n := ORule N]> h3).
  split; [| split; [| split; [| split; [| split; [| split; [| split; [| split; [| split]]]]]]]].
  - unfold DeepCopy.
    erewrite M_bind_ret by (apply loadRule_ret; exact Hr).
    erewrite M_bind_ret by exact Hcopy1.
    erewrite M_bind_ret by exact Hcopy2.
    erewrite M_bind_ret by exact Hcopy3.
    reflexivity.
  - etrans; [exact Hsub1 |]. etrans; [exact Hsub2 |]. etrans; [exact Hsub3 | exact Hsub4].
  - set_solver.
  - apply lookup_insert_eq.
  - reflexivity.
  - reflexivity.
  - cbn [Ingress N]. eapply slice_elems_mono; [exact Hsub4 |].
    eapply slice_elems_mono; [exact Hsub3 |].
    eapply slice_elems_mono; [exact Hsub2 | exact Hi1].
  - cbn [Egress N]. eapply slice_elems_mono; [exact Hsub4 |].
    eapply slice_elems_mono; [exact Hsub3 | exact He2].
  - cbn [Labels N]. eapply slice_elems_mono; [exact Hsub4 | exact Hl3].
  - cbn [Ingress Egress Labels N]. rewrite dom_insert_L. set_solver.
Qed.

End heap_operations.

(** ** The rule model: runs of [CreateDerivative] and [RequiresDerivative] *)

Section rule_runs.
Import Go api.
Context `{Externals} {W : Type} (hd : handler ruleE W).

Lemma exec_M_bind_ret {A B} (m : M A) (f : A -> M B) (h h1 : heap) a (w : W) :
  m h = Ret (Some (a, h1)) -> exec hd ((m ≫= f) h) w = exec hd (f a h1) w.
Proof. intros Hm. rewrite (M_bind_ret _ _ _ _ _ Hm). reflexivity. Qed.

Lemma exec_invoke {X B} (e : ruleE X) (f : X -> M B) (h : heap) (w : W) :
  exec hd ((invoke e ≫= f) h) w
  = let '(x, w1) := hd _ e w in
    let '(r, w2, t) := exec hd (f x h) w1 in
    (r, w2, ev e :: t).
Proof. reflexivity. Qed.

(** The loop of [CreateDerivative].  [P] is any set of locations that
    holds the backing array of the source's egress slice and holds neither
    the new rule [n] nor the backing array [le] of its egress slice: the
    loop leaves every location of [P] as it was.  Its result, final state
    and calls are those of [deriveAll] on the entries still to visit, and
    the new rule's egress slice shows what it showed before followed by
    the derived entries. *)
Lemma derivativeLoop_spec (P : gset loc) (n : loc) (s : slice) (es : list EgressRule) :
  forall k i (h : heap) (w : W) N le a ds err w' t,
    slice_elems egressK h s = Some es ->
    i + k = length es ->
    slice_locs s ⊆ P -> P ⊆ dom h -> n ∉ P -> le ∉ P ->
    h !! n = Some (ORule N) ->
    Data (Egress N) = Some le ->
    h !! le = Some (OEgress a) ->
    Len (Egress N) <= Cap (Egress N) ->
    Cap (Egress N) = length a ->
    deriveAll hd (drop i es) w = (ds, err, w', t) ->
    exists (h' : heap) N' le',
      exec hd (derivativeLoop n s i k h) w = (Some ((n, err), h'), w', t)
      /\ (forall l, l ∈ P -> h' !! l = h !! l)
      /\ dom h ⊆ dom h'
      /\ h' !! n = Some (ORule N')
      /\ EndpointSelector N' = EndpointSelector N
      /\ Ingress N' = Ingress N
      /\ Labels N' = Labels N
      /\ Description N' = Description N
      /\ slice_elems egressK h' (Egress N') = Some (take (Len (Egress N)) a ++ ds)
      /\ Data (Egress N') = Some le'
      /\ (le' = le \/ le' ∉ dom h).
Proof.
  induction k as [| k IH];
    intros i h w N le a ds err w' t Hs Hik HsP HP HnP HleP Hn HData Hle HLen HCap Hall.
  - rewrite drop_ge in Hall by lia. injection Hall as <- <- <- <-.
    exists h, N, le. cbn [derivativeLoop].
    repeat split; auto.
    unfold slice_elems. rewrite HData, Hle. cbn.
    destruct (Nat.leb_spec (Len (Egress N)) (length a)); [| lia].
    rewrite app_nil_r. reflexivity.
  - destruct (lookup_lt_is_Some_2 es i) as [x Hx]; [lia |].
    rewrite (drop_S _ _ _ Hx) in Hall. cbn [deriveAll] in Hall.
    cbn [derivativeLoop].
    rewrite (exec_M_bind_ret _ _ _ _ _ _ (index_ret _ _ _ _ _ _ Hs Hx)).
    rewrite exec_invoke.
    destruct (hd _ (EgressRule_CreateDerivative x) w) as [[d | e] w1].
    + (* the entry is derived *)
      destruct (deriveAll hd (drop (S i) es) w1) as [[[ds' err'] w2] t'] eqn:Hrest.
      injection Hall as <- <- <- <-.
      assert (Hnle : n ≠ le) by (intros ->; congruence).
      destruct (append_spec egressK EgressRule_zero h (Egress N) le a d
                  egressK_lawful HData Hle HLen HCap)
        as (s' & le' & a' & Happend & HData' & Hle' & HLen' & HLenCap' & HCap' & Htake).
      assert (Hnle' : n ≠ le').
      { destruct Hle' as [-> | Hfresh]; [exact Hnle |].
        intros <-. apply Hfresh, elem_of_dom. eauto. }
      assert (Hle'P : le' ∉ P).
      { destruct Hle' as [-> | Hfresh]; [exact HleP | set_solver]. }
      set (h1 := <[le' := OEgress a']> h) in *.
      set (N1 := setEgress s' N).
      set (h2 := <[n := ORule N1]> h1).
      assert (Hn1 : h1 !! n = Some (ORule N)).
      { unfold h1. rewrite lookup_insert_ne by auto. exact Hn. }
      assert (Hagree : forall l, l ∈ P -> h2 !! l = h !! l).
      { intros l Hl. unfold h2, h1.
        rewrite !lookup_insert_ne by (intros <-; auto). reflexivity. }
      assert (Hdom : dom h ⊆ dom h2).
      { unfold h2, h1. rewrite !dom_insert_L. set_solver. }
      destruct (IH (S i) h2 w1 N1 le' a' ds' err' w2 t') as
        (h' & N' & le'' & Hrun & Hkeep & Hdom' & Hn' & Hsel & Hing & Hlab & Hdesc
         & Hegress & HData'' & Hle''); try assumption.
      * rewrite (slice_elems_agree egressK h h2); [exact Hs |].
        intros l Hl. apply Hagree. set_solver.
      * lia.
      * set_solver.
      * apply lookup_insert_eq.
      * unfold h2, h1. rewrite lookup_insert_ne by auto. apply lookup_insert_eq.
      * exists h', N', le''.
        split.
        { rewrite (exec_M_bind_ret _ _ _ _ _ _ (loadRule_ret _ _ _ Hn)).
          rewrite (exec_M_bind_ret _ _ _ _ _ _ Happend).
          rewrite (exec_M_bind_ret _ _ _ _ _ _ (assign_ret _ _ _ (setEgress s') Hn1)).
          fold N1. fold h2. rewrite Hrun. reflexivity. }
        repeat split; auto.
        -- intros l Hl. rewrite (Hkeep l Hl). apply Hagree. exact Hl.
        -- set_solver.
        -- rewrite Hegress. unfold N1. cbn [Egress setEgress].
           rewrite Htake, <- app_assoc. reflexivity.
        -- destruct Hle'' as [-> | Hfresh]; [exact Hle' |]. right. set_solver.
    + (* the entry fails: the loop returns *)
      injection Hall as <- <- <- <-.
      exists h, N, le. repeat split; auto.
      unfold slice_elems. rewrite HData, Hle. cbn.
      destruct (Nat.leb_spec (Len (Egress N)) (length a)); [| lia].
      rewrite app_nil_r. reflexivity.
Qed.

Lemma rule_value_mono (h h' : heap) (r : loc) v :
  h ⊆ h' -> rule_value h r = Some v -> rule_value h' r = Some v.
Proof.
  intros Hsub (R & Hr & Hi & He & Hl & Hsel & Hdesc)%rule_value_inv.
  rewrite (rule_value_intro h' r R (ingress v) (egress v) (labels v)).
  - destruct v. cbn in *. subst. reflexivity.
  - eapply lookup_weaken; eassumption.
  - eapply slice_elems_mono; eassumption.
  - eapply slice_elems_mono; eassumption.
  - eapply slice_elems_mono; eassumption.
Qed.

(** [CreateDerivative] against its description.  The run does not panic;
    its error, final state and calls are those of the pipeline
    [deriveAll] over the source's egress entries; the heap it leaves
    extends the one it found; the new rule reads back as the source with
    the derived entries for egress; and every location the new rule owns
    is new. *)
Lemma CreateDerivative_run (h : heap) (w : W) (r : loc) v ds err w' t :
  rule_value h r = Some v ->
  deriveAll hd (egress v) w = (ds, err, w', t) ->
  exists n (h' : heap),
    exec hd (CreateDerivative r h) w = (Some ((n, err), h'), w', t)
    /\ h ⊆ h'
    /\ footprint h' n ## dom h
    /\ rule_value h' n
       = Some {| selector := selector v; ingress := ingress v; egress := ds;
                 labels := labels v; description := description v |}.
Proof.
  intros Hv Hall.
  destruct (rule_value_inv _ _ _ Hv) as (R & Hr & Hi & He & Hl & Hsel & Hdesc).
  destruct (DeepCopy_spec h r R _ _ _ Hr Hi He Hl)
    as (n & N & h1 & Hcopy & Hsub1 & Hnh & Hn1 & HselN & HdescN & Hi1 & _ & Hl1 & Hlocs).
  pose proof (subseteq_dom _ _ Hsub1) as Hdom1.
  set (le0 := fresh (dom h1)).
  assert (Hle0 : le0 ∉ dom h1) by apply is_fresh.
  assert (Hn1dom : n ∈ dom h1) by (apply elem_of_dom; eauto).
  assert (Hnle0 : n ≠ le0) by (intros Heq; apply Hle0; rewrite <- Heq; exact Hn1dom).
  set (h2 := <[le0 := OEgress []]> h1).
  set (N0 := setEgress (Slice (Some le0) 0 0) N).
  set (h3 := <[n := ORule N0]> h2).
  assert (Hn2 : h2 !! n = Some (ORule N)).
  { unfold h2. rewrite lookup_insert_ne by auto. exact Hn1. }
  assert (Hh3 : forall l, l ≠ n -> l ≠ le0 -> h3 !! l = h1 !! l).
  { intros l Hln Hlle. unfold h3, h2. rewrite !lookup_insert_ne by auto. reflexivity. }
  assert (Hh3old : forall l, l ∈ dom h -> h3 !! l = h !! l).
  { intros l Hl'. rewrite Hh3 by (intros ->; set_solver).
    apply elem_of_dom in Hl' as [o Ho]. rewrite Ho. eapply lookup_weaken; eassumption. }
  assert (Hr3 : h3 !! r = Some (ORule R)).
  { rewrite Hh3old; [exact Hr | apply elem_of_dom; eauto]. }
  pose proof (slice_elems_dom _ _ _ _ He) as HeDom.
  assert (He3 : slice_elems egressK h3 (Egress R) = Some (egress v)).
  { rewrite (slice_elems_agree egressK h h3); [exact He |].
    intros l Hl'. apply Hh3old. set_solver. }
  set (P := dom h1 ∖ {[ n ]}).
  destruct (derivativeLoop_spec P n (Egress R) (egress v)
              (Len (Egress R)) 0 h3 w N0 le0 [] ds err w' t)
    as (h' & N' & le' & Hrun & Hkeep & Hdom' & Hn' & HselN' & HingN' & HlabN' & HdescN'
        & Hegress & HData' & Hle'); try assumption.
  - rewrite (slice_elems_length _ _ _ _ He). reflexivity.
  - unfold P. set_solver.
  - unfold P, h3, h2. rewrite !dom_insert_L. set_solver.
  - unfold P. set_solver.
  - unfold P. set_solver.
  - apply lookup_insert_eq.
  - reflexivity.
  - unfold h3. rewrite lookup_insert_ne by auto. apply lookup_insert_eq.
  - reflexivity.
  - reflexivity.
  - assert (Hdom3 : dom h3 = {[ n ]} ∪ ({[ le0 ]} ∪ dom h1)).
    { unfold h3, h2. rewrite !dom_insert_L. reflexivity. }
    assert (Hold : forall l, l ∈ dom h -> h' !! l = h !! l).
    { intros l Hl'. rewrite Hkeep by (unfold P; set_solver). apply Hh3old. exact Hl'. }
    exists n, h'. split; [| split; [| split]].
    + unfold CreateDerivative.
      rewrite (exec_M_bind_ret _ _ _ _ _ _ Hcopy).
      rewrite (exec_M_bind_ret (api.make egressK []) _ h1 h2 (Slice (Some le0) 0 0))
        by reflexivity.
      rewrite (exec_M_bind_ret _ _ _ _ _ _ (assign_ret _ _ _ (setEgress _) Hn2)).
      fold N0. fold h3.
      rewrite (exec_M_bind_ret _ _ _ _ _ _ (loadRule_ret _ _ _ Hr3)).
      exact Hrun.
    + apply map_subseteq_spec. intros l o Ho.
      rewrite Hold by (apply elem_of_dom; eauto). exact Ho.
    + rewrite (footprint_rule _ _ _ Hn'), HingN', HlabN'.
      unfold slice_locs at 2. rewrite HData'. unfold N0. cbn [Ingress Labels setEgress].
      assert (le' ∉ dom h).
      { destruct Hle' as [-> | Hfresh]; [set_solver |]. rewrite Hdom3 in Hfresh. set_solver. }
      set_solver.
    + rewrite (rule_value_intro h' n N' (ingress v) ds (labels v) Hn').
      * rewrite HselN', HdescN'. unfold N0. cbn [EndpointSelector Description setEgress].
        rewrite HselN, HdescN, Hsel, Hdesc. reflexivity.
      * rewrite HingN'. unfold N0. cbn [Ingress setEgress].
        rewrite (slice_elems_agree ingressK h1 h'); [exact Hi1 |].
        intros l Hl'. rewrite Hkeep by (unfold P; set_solver).
        apply Hh3; intros ->; set_solver.
      * exact Hegress.
      * rewrite HlabN'. unfold N0. cbn [Labels setEgress].
        rewrite (slice_elems_agree labelK h1 h'); [exact Hl1 |].
        intros l Hl'. rewrite Hkeep by (unfold P; set_solver).
        apply Hh3; intros ->; set_solver.
Qed.

Lemma deriveAll_first_failure pre e post (w : W) outs w1 err w2 :
  derived hd pre w outs w1 ->
  hd _ (EgressRule_CreateDerivative e) w1 = (inr err, w2) ->
  deriveAll hd (pre ++ e :: post) w
  = (outs, Some err, w2, (fun x => ev (EgressRule_CreateDerivative x)) <$> (pre ++ [e]))
  /\ length outs = length pre.
Proof.
  intros Hpre Hfail. induction Hpre as [w | x es w d w1 ds w1' Hx Hrest IH].
  - cbn. rewrite Hfail. auto.
  - cbn. rewrite Hx. destruct (IH Hfail) as [-> ->]. auto.
Qed.

(** The loop of [RequiresDerivative], for a capability whose answer is a
    function [reqd] of the entry: the result is whether some entry still
    to visit satisfies [reqd], the calls are those on the entries up to
    the first that does, and the heap is as it was. *)
Lemma requiresLoop_spec (reqd : EgressRule -> bool) (s : slice) (es : list EgressRule) :
  (forall e w, (hd _ (EgressRule_RequiresDerivative e) w).1 = reqd e) ->
  forall k i (h : heap) (w : W),
    slice_elems egressK h s = Some es ->
    i + k = length es ->
    exists w',
      exec hd (requiresLoop s i k h) w
      = (Some (existsb reqd (drop i es), h), w',
         (fun x => ev (EgressRule_RequiresDerivative x)) <$> upToFirst reqd (drop i es)).
Proof.
  intros Hreqd. induction k as [| k IH]; intros i h w Hs Hik.
  - rewrite drop_ge by lia. exists w. reflexivity.
  - destruct (lookup_lt_is_Some_2 es i) as [x Hx]; [lia |].
    rewrite (drop_S _ _ _ Hx). cbn [requiresLoop existsb upToFirst].
    rewrite (exec_M_bind_ret _ _ _ _ _ _ (index_ret _ _ _ _ _ _ Hs Hx)).
    rewrite exec_invoke. specialize (Hreqd x w).
    destruct (hd _ (EgressRule_RequiresDerivative x) w) as [b w1].
    cbn [fst] in Hreqd. subst b.
    destruct (reqd x).
    + exists w1. reflexivity.
    + destruct (IH (S i) h w1 Hs) as [w' Hrun]; [lia |].
      exists w'. rewrite Hrun. reflexivity.
Qed.

(** C1.  [CreateDerivative] does not mutate its receiver and returns a
    rule that shares nothing with it.  For every rule [r] in the heap,
    whatever the derivation of its egress entries answers: the call does
    not panic; afterwards [r] reads back as before (selector, ingress,
    egress, labels, description) and every location the heap held is as it
    was; the returned rule's selector, ingress, labels and description
    equal the receiver's; the locations the two rules own are disjoint;
    and a later write to any location of either, with any content, leaves
    what the other reads back as unchanged. *)
Theorem CreateDerivative_preserves_receiver (h : heap) (w : W) (r : loc) v :
  rule_value h r = Some v ->
  exists n err (h' : heap) w' t vn,
    exec hd (CreateDerivative r h) w = (Some ((n, err), h'), w', t)
    /\ rule_value h' r = Some v
    /\ (forall l, l ∈ dom h -> h' !! l = h !! l)
    /\ rule_value h' n = Some vn
    /\ selector vn = selector v
    /\ ingress vn = ingress v
    /\ labels vn = labels v
    /\ description vn = description v
    /\ footprint h' n ## footprint h' r
    /\ (forall l o, l ∈ footprint h' n -> rule_value (<[l := o]> h') r = Some v)
    /\ (forall l o, l ∈ footprint h' r -> rule_value (<[l := o]> h') n = Some vn).
Proof.
  intros Hv.
  destruct (deriveAll hd (egress v) w) as [[[ds err] w'] t] eqn:Hall.
  destruct (CreateDerivative_run h w r v ds err w' t Hv Hall)
    as (n & h' & Hrun & Hsub & Hnew & Hvn).
  pose proof (rule_value_mono _ _ _ _ Hsub Hv) as Hv'.
  pose proof (footprint_dom _ _ _ Hv) as Hfr.
  destruct (rule_value_inv _ _ _ Hv) as (R & Hr & _).
  destruct (rule_value_inv _ _ _ Hvn) as (N & Hn & _).
  assert (Hr' : h' !! r = Some (ORule R)) by (eapply lookup_weaken; eassumption).
  assert (Hfr' : footprint h' r = footprint h r).
  { rewrite (footprint_rule _ _ _ Hr), (footprint_rule _ _ _ Hr'). reflexivity. }
  assert (Hdisj : footprint h' n ## footprint h' r) by (rewrite Hfr'; set_solver).
  eexists n, err, h', w', t, _.
  split; [exact Hrun |]. split; [exact Hv' |].
  split.
  { intros l [o Ho]%elem_of_dom. rewrite Ho. eapply lookup_weaken; eassumption. }
  split; [exact Hvn |]. cbn [selector ingress labels description].
  repeat split; try reflexivity.
  - exact Hdisj.
  - intros l o Hl. rewrite (rule_value_insert_outside h' r l o R Hr'); [exact Hv' |].
    set_solver.
  - intros l o Hl. rewrite (rule_value_insert_outside h' n l o N Hn); [exact Hvn |].
    set_solver.
Qed.

(** C2.  [CreateDerivative] takes the egress entries in their order and
    stops at the first whose derivation fails.  If the entries [pre] that
    come before [e] are derived, in order, to [outs], and the derivation
    of [e] then fails with [err], the call returns [err] with a new rule
    whose egress list is exactly [outs]; the calls made are the
    derivations of [pre] and of [e], in order, and nothing is asked about
    the entries [post] after [e].  In particular a rule with a single,
    failing, egress entry gives a non-nil error and an egress list of
    length 0. *)
Theorem CreateDerivative_stops_at_first_failure :
  (forall (h : heap) (w : W) (r : loc) v pre e post outs w1 err w2,
      rule_value h r = Some v ->
      egress v = pre ++ e :: post ->
      derived hd pre w outs w1 ->
      hd _ (EgressRule_CreateDerivative e) w1 = (inr err, w2) ->
      exists n (h' : heap) vn,
        exec hd (CreateDerivative r h) w
        = (Some ((n, Some err), h'), w2,
           (fun x => ev (EgressRule_CreateDerivative x)) <$> (pre ++ [e]))
        /\ rule_value h' n = Some vn
        /\ egress vn = outs
        /\ length (egress vn) = length pre)
  /\ (forall (h : heap) (w : W) (r : loc) v e err w2,
         rule_value h r = Some v ->
         egress v = [e] ->
         hd _ (EgressRule_CreateDerivative e) w = (inr err, w2) ->
         exists n (h' : heap) vn,
           exec hd (CreateDerivative r h) w
           = (Some ((n, Some err), h'), w2, [ev (EgressRule_CreateDerivative e)])
           /\ rule_value h' n = Some vn
           /\ length (egress vn) = 0).
Proof.
  assert (Hgeneral :
    forall (h : heap) (w : W) (r : loc) v pre e post outs w1 err w2,
      rule_value h r = Some v ->
      egress v = pre ++ e :: post ->
      derived hd pre w outs w1 ->
      hd _ (EgressRule_CreateDerivative e) w1 = (inr err, w2) ->
      exists n (h' : heap) vn,
        exec hd (CreateDerivative r h) w
        = (Some ((n, Some err), h'), w2,
           (fun x => ev (EgressRule_CreateDerivative x)) <$> (pre ++ [e]))
        /\ rule_value h' n = Some vn
        /\ egress vn = outs
        /\ length (egress vn) = length pre).
  { intros h w r v pre e post outs w1 err w2 Hv Hegress Hpre Hfail.
    destruct (deriveAll_first_failure pre e post w outs w1 err w2 Hpre Hfail)
      as [Hall Hlen].
    rewrite <- Hegress in Hall.
    destruct (CreateDerivative_run h w r v _ _ _ _ Hv Hall)
      as (n & h' & Hrun & _ & _ & Hvn).
    eexists n, h', _. split; [exact Hrun |]. split; [exact Hvn |].
    cbn [egress]. auto. }
  split; [exact Hgeneral |].
  intros h w r v e err w2 Hv Hegress Hfail.
  destruct (Hgeneral h w r v [] e [] [] w err w2 Hv Hegress (derived_nil hd w) Hfail)
    as (n & h' & vn & Hrun & Hvn & _ & Hlen).
  exists n, h', vn. auto.
Qed.

(** C9.  [RequiresDerivative] is true exactly when some egress entry
    reports that it requires a derivative.  For a rule in the heap whose
    egress slice shows the entries [es], and a capability that answers by
    a predicate [reqd] of the entry: the call does not panic and leaves
    the heap as it was; its result is true iff some entry of [es]
    satisfies [reqd]; the capability is asked about the entries in order
    up to the first that satisfies [reqd] and about none after it; with no
    egress entries the result is false and nothing is asked.  Nothing is
    assumed of the rule's ingress or labels slices, which need not even
    point into the heap: they are not read. *)
Theorem RequiresDerivative_spec (reqd : EgressRule -> bool) (h : heap) (w : W) (r : loc) R es :
  (forall e w, (hd _ (EgressRule_RequiresDerivative e) w).1 = reqd e) ->
  h !! r = Some (ORule R) ->
  slice_elems egressK h (Egress R) = Some es ->
  exists result w' t,
    exec hd (RequiresDerivative r h) w = (Some (result, h), w', t)
    /\ (result = true <-> exists e, e ∈ es /\ reqd e = true)
    /\ t = (fun x => ev (EgressRule_RequiresDerivative x)) <$> upToFirst reqd es
    /\ (es = [] -> result = false /\ t = []).
Proof.
  intros Hreqd Hr Hes.
  destruct (requiresLoop_spec reqd (Egress R) es Hreqd (Len (Egress R)) 0 h w Hes)
    as [w' Hrun].
  { rewrite (slice_elems_length _ _ _ _ Hes). reflexivity. }
  rewrite drop_0 in Hrun.
  eexists (existsb reqd es), w', _. split; [| split; [| split; [reflexivity |]]].
  - unfold RequiresDerivative.
    rewrite (exec_M_bind_ret _ _ _ _ _ _ (loadRule_ret _ _ _ Hr)). exact Hrun.
  - rewrite existsb_exists. split.
    + intros (e & He%list_elem_of_In & Hreq). eauto.
    + intros (e & He%list_elem_of_In & Hreq). eauto.
  - intros ->. split; reflexivity.
Qed.

End rule_runs.

(** ** The rule of Part I *)

Section groups_facts.
Import Go api groups.

Lemma memory_holds_policy : rule_value memory 1%positive = Some policy.
Proof. vm_compute. reflexivity. Qed.

Lemma CreateDerivative_preserves_receiver_witness :
  rule_value memory 1%positive = Some policy
  /\ exists n err (h' : heap) w' t vn,
       exec provider (CreateDerivative 1%positive memory) table
       = (Some ((n, err), h'), w', t)
       /\ rule_value h' 1%positive = Some policy
       /\ rule_value h' n = Some vn
       /\ ingress vn = ingress policy
       /\ footprint h' n ## footprint h' 1%positive.
Proof.
  split; [vm_compute; reflexivity |].
  destruct (CreateDerivative_preserves_receiver provider memory table 1%positive policy)
    as (n & err & h' & w' & t & vn & Hrun & Hr & _ & Hn & _ & Hingress & _ & _ & Hdisjoint & _).
  - vm_compute. reflexivity.
  - exists n, err, h', w', t, vn. auto.
Defined.

Lemma CreateDerivative_stops_at_first_failure_witness :
  (exists n (h' : heap) vn,
      exec provider (CreateDerivative 1%positive memory) table
      = (Some ((n, Some (errorString "no such group: sg-lost")), h'), table,
         [ ev (EgressRule_CreateDerivative (ToEndpoints "app=bar"));
           ev (EgressRule_CreateDerivative (ToGroups "sg-web"));
           ev (EgressRule_CreateDerivative (ToGroups "sg-lost")) ])
      /\ rule_value h' n = Some vn
      /\ egress vn = [ToEndpoints "app=bar"; ToCIDRSet ["10.0.0.0/24"; "10.0.1.0/24"]])
  /\ (exists n (h' : heap) vn,
         exec provider (CreateDerivative 1%positive lonely) table
         = (Some ((n, Some (errorString "no such group: sg-lost")), h'), table,
            [ev (EgressRule_CreateDerivative (ToGroups "sg-lost"))])
         /\ rule_value h' n = Some vn
         /\ length (egress vn) = 0).
Proof.
  split.
  - destruct (proj1 (CreateDerivative_stops_at_first_failure provider)
                memory table 1%positive policy
                [ToEndpoints "app=bar"; ToGroups "sg-web"] (ToGroups "sg-lost")
                [ToEndpoints "app=db"]
                [ToEndpoints "app=bar"; ToCIDRSet ["10.0.0.0/24"; "10.0.1.0/24"]]
                table (errorString "no such group: sg-lost") table)
      as (n & h' & vn & Hrun & Hn & Hegress & _).
    + vm_compute. reflexivity.
    + reflexivity.
    + apply (derived_cons provider (ToEndpoints "app=bar") [ToGroups "sg-web"] table
               (ToEndpoints "app=bar") table _ table eq_refl).
      apply (derived_cons provider (ToGroups "sg-web") [] table
               (ToCIDRSet ["10.0.0.0/24"; "10.0.1.0/24"]) table _ table eq_refl).
      exact (derived_nil provider table).
    + reflexivity.
    + exists n, h', vn. auto.
  - eapply (proj2 (CreateDerivative_stops_at_first_failure provider)
              lonely table 1%positive);
      vm_compute; reflexivity.
Defined.

Lemma RequiresDerivative_spec_witness :
  exists w',
    exec provider (RequiresDerivative 1%positive memory) table
    = (Some (true, memory), w',
       [ ev (EgressRule_RequiresDerivative (ToEndpoints "app=bar"));
         ev (EgressRule_RequiresDerivative (ToGroups "sg-web")) ]).
Proof.
  destruct (RequiresDerivative_spec provider requires memory table 1%positive source
              [ToEndpoints "app=bar"; ToGroups "sg-web";
               ToGroups "sg-lost"; ToEndpoints "app=db"])
    as (result & w' & t & Hrun & Hiff & Ht & _).
  - intros e w. reflexivity.
  - vm_compute. reflexivity.
  - vm_compute. reflexivity.
  - exists w'. rewrite Hrun, Ht.
    assert (result = true) as ->.
    { apply Hiff. exists (ToGroups "sg-web"). split; [| reflexivity].
      apply list_elem_of_In. cbn. auto. }
    reflexivity.
Defined.

End groups_facts.

(** ** The rule model: building a rule *)

Section rule_building.
Import Go api.
Context `{Externals}.

(** A setter on a rule in the heap: the field is assigned and the
    receiver returned. *)
Lemma setter_ret (h : heap) (r : loc) R (f : Rule -> Rule) :
  h !! r = Some (ORule R) ->
  (assign r f;; mret r) h = Ret (Some (r, <[r := ORule (f R)]> h)).
Proof.
  intros Hr. erewrite M_bind_ret by (apply assign_ret; exact Hr). reflexivity.
Qed.

Lemma setter_twice (h : heap) (r : loc) R (f g : Rule -> Rule) :
  h !! r = Some (ORule R) ->
  (r' ← (assign r f;; mret r); (assign r' g;; mret r')) h
  = Ret (Some (r, <[r := ORule (g (f R))]> h)).
Proof.
  intros Hr. erewrite M_bind_ret by (apply setter_ret; exact Hr).
  erewrite setter_ret by apply lookup_insert_eq.
  rewrite insert_insert_eq. reflexivity.
Qed.

(** X1.  [NewRule] and the setters build a rule.  On any heap, [NewRule]
    allocates a rule that reads back with the zero selector, no ingress,
    no egress, no labels and the empty description.  Chained with the five
    setters it returns one and the same pointer, to a location the heap
    did not hold, and the rule there reads back as exactly the selector
    and the description given and the entries the three slices show.
    Nothing fails, no capability is called, the rule is the only location
    added, and no location that existed is written. *)
Theorem NewRule_and_setters_build_the_rule
    (h : heap) zero es (i e l : slice) d ingress_ egress_ labels_ :
  slice_elems ingressK h i = Some ingress_ ->
  slice_elems egressK h e = Some egress_ ->
  slice_elems labelK h l = Some labels_ ->
  exists r (h0 h' : heap),
    NewRule zero h = Ret (Some (r, h0))
    /\ rule_value h0 r
       = Some {| selector := zero; ingress := []; egress := []; labels := [];
                 description := "" |}
    /\ (r0 ← NewRule zero;
        r1 ← WithEndpointSelector r0 es;
        r2 ← WithIngressRules r1 i;
        r3 ← WithEgressRules r2 e;
        r4 ← WithLabels r3 l;
        WithDescription r4 d) h
       = Ret (Some (r, h'))
    /\ (r ∉ dom h)
    /\ dom h' = {[ r ]} ∪ dom h
    /\ (forall l', l' ∈ dom h -> h' !! l' = h !! l')
    /\ rule_value h' r
       = Some {| selector := es; ingress := ingress_; egress := egress_;
                 labels := labels_; description := d |}.
Proof.
  intros Hi He Hl.
  set (r := fresh (dom h)).
  assert (Hfresh : r ∉ dom h) by apply is_fresh.
  assert (Hnone : h !! r = None) by (apply not_elem_of_dom; exact Hfresh).
  set (R := {| EndpointSelector := es; Ingress := i; Egress := e; Labels := l;
               Description := d |}).
  eexists r, _, (<[r := ORule R]> h).
  assert (Hsub : h ⊆ <[r := ORule R]> h) by (apply insert_subseteq; exact Hnone).
  split; [reflexivity |].
  split; [fold r; unfold rule_value; rewrite lookup_insert_eq; reflexivity |].
  split; [| split; [exact Hfresh | split; [apply dom_insert_L | split]]].
  - erewrite M_bind_ret by reflexivity. fold r.
    unfold WithEndpointSelector, WithIngressRules, WithEgressRules, WithLabels,
      WithDescription.
    erewrite M_bind_ret by (apply setter_ret, lookup_insert_eq).
    rewrite insert_insert_eq.
    erewrite M_bind_ret by (apply setter_ret, lookup_insert_eq).
    rewrite insert_insert_eq.
    erewrite M_bind_ret by (apply setter_ret, lookup_insert_eq).
    rewrite insert_insert_eq.
    erewrite M_bind_ret by (apply setter_ret, lookup_insert_eq).
    rewrite insert_insert_eq.
    erewrite setter_ret by apply lookup_insert_eq.
    rewrite insert_insert_eq. reflexivity.
  - intros l' Hl'. apply lookup_insert_ne. intros <-. exact (Hfresh Hl').
  - apply (rule_value_intro _ r R ingress_ egress_ labels_).
    + apply lookup_insert_eq.
    + eapply slice_elems_mono; [exact Hsub | exact Hi].
    + eapply slice_elems_mono; [exact Hsub | exact He].
    + eapply slice_elems_mono; [exact Hsub | exact Hl].
Qed.

(** X2.  A setter replaces its field and leaves the other four as they
    are.  On a rule in the heap, calling a setter twice is calling it once
    with the last argument (nothing is merged or appended), and two
    setters of different fields leave the same heap and return the same
    pointer in either order. *)
Theorem setters_replace_and_commute (h : heap) (r : loc) R :
  h !! r = Some (ORule R) ->
  (forall a b, (r' ← WithEndpointSelector r a; WithEndpointSelector r' b) h = WithEndpointSelector r b h)
  /\ (forall a b, (r' ← WithIngressRules r a; WithIngressRules r' b) h = WithIngressRules r b h)
  /\ (forall a b, (r' ← WithEgressRules r a; WithEgressRules r' b) h = WithEgressRules r b h)
  /\ (forall a b, (r' ← WithLabels r a; WithLabels r' b) h = WithLabels r b h)
  /\ (forall a b, (r' ← WithDescription r a; WithDescription r' b) h = WithDescription r b h)
  /\ (forall a b, (r' ← WithEndpointSelector r a; WithIngressRules r' b) h
                  = (r' ← WithIngressRules r b; WithEndpointSelector r' a) h)
  /\ (forall a b, (r' ← WithEndpointSelector r a; WithEgressRules r' b) h
                  = (r' ← WithEgressRules r b; WithEndpointSelector r' a) h)
  /\ (forall a b, (r' ← WithEndpointSelector r a; WithLabels r' b) h
                  = (r' ← WithLabels r b; WithEndpointSelector r' a) h)
  /\ (forall a b, (r' ← WithEndpointSelector r a; WithDescription r' b) h
                  = (r' ← WithDescription r b; WithEndpointSelector r' a) h)
  /\ (forall a b, (r' ← WithIngressRules r a; WithEgressRules r' b) h
                  = (r' ← WithEgressRules r b; WithIngressRules r' a) h)
  /\ (forall a b, (r' ← WithIngressRules r a; WithLabels r' b) h
                  = (r' ← WithLabels r b; WithIngressRules r' a) h)
  /\ (forall a b, (r' ← WithIngressRules r a; WithDescription r' b) h
                  = (r' ← WithDescription r b; WithIngressRules r' a) h)
  /\ (forall a b, (r' ← WithEgressRules r a; WithLabels r' b) h
                  = (r' ← WithLabels r b; WithEgressRules r' a) h)
  /\ (forall a b, (r' ← WithEgressRules r a; WithDescription r' b) h
                  = (r' ← WithDescription r b; WithEgressRules r' a) h)
  /\ (forall a b, (r' ← WithLabels r a; WithDescription r' b) h
                  = (r' ← WithDescription r b; WithLabels r' a) h).
Proof.
  intros Hr.
  unfold WithEndpointSelector, WithIngressRules, WithEgressRules, WithLabels,
    WithDescription.
  repeat split; intros a b;
    rewrite ?(setter_twice h r R _ _ Hr), ?(setter_ret h r R _ Hr); reflexivity.
Qed.

End rule_building.

(** ** The rule model: what the methods do under any environment *)

Section rule_methods.
Import Go api.
Context `{Externals} {W : Type} (hd : handler ruleE W).

Local Abbreviation derivation := (fun x : EgressRule => ev (EgressRule_CreateDerivative x)).
Local Abbreviation question := (fun x : EgressRule => ev (EgressRule_RequiresDerivative x)).

Lemma slice_locs_hold {T} (K : kind T) (h : heap) (s : slice) xs l :
  slice_elems K h s = Some xs -> l ∈ slice_locs s ->
  exists o a, h !! l = Some o /\ elements K o = Some a.
Proof.
  intros Hs Hl.
  destruct (slice_elems_inv _ _ _ _ Hs)
    as [(HData & _) | (l' & o & a & HData & Hl' & Ho & _)];
    unfold slice_locs in Hl; rewrite HData in Hl; [set_solver |].
  apply elem_of_singleton in Hl as ->. eauto.
Qed.

(** The rule at [r] after [r.Egress = s], where [s] is a slice on the
    array at [l]: it shows the first [Len s] entries of whatever the array
    holds. *)
Lemma setEgress_value (h : heap) (r l : loc) v R (s : slice) a :
  rule_value h r = Some v ->
  h !! r = Some (ORule R) ->
  Data s = Some l ->
  h !! l = Some (OEgress a) ->
  forall a', Len s <= length a' ->
    rule_value (<[l := OEgress a']> (<[r := ORule (setEgress s R)]> h)) r
    = Some {| selector := selector v; ingress := ingress v; egress := take (Len s) a';
              labels := labels v; description := description v |}.
Proof.
  intros Hv Hr HData Hl a' Hlen.
  destruct (rule_value_inv _ _ _ Hv) as (R' & Hr' & Hi & _ & Hlab & Hsel & Hdesc).
  assert (R' = R) as -> by congruence.
  assert (Hrl : r ≠ l) by (intros ->; congruence).
  set (h' := <[l := OEgress a']> (<[r := ORule (setEgress s R)]> h)).
  assert (Hother : forall l', l' ≠ r -> l' ≠ l -> h' !! l' = h !! l').
  { intros l' H1 H2. unfold h'. rewrite !lookup_insert_ne by auto. reflexivity. }
  rewrite (rule_value_intro h' r (setEgress s R) (ingress v) (take (Len s) a') (labels v)).
  - cbn [EndpointSelector Description setEgress]. rewrite Hsel, Hdesc. reflexivity.
  - unfold h'. rewrite lookup_insert_ne by auto. apply lookup_insert_eq.
  - cbn [Ingress setEgress]. rewrite (slice_elems_agree ingressK h h'); [exact Hi |].
    intros l' Hl'. destruct (slice_locs_hold _ _ _ _ _ Hi Hl') as (o & a0 & Ho & Hel).
    apply Hother; intros ->; rewrite Ho in *; simplify_eq; discriminate.
  - cbn [Egress setEgress]. unfold slice_elems. rewrite HData. unfold h'.
    rewrite lookup_insert_eq. cbn.
    destruct (Nat.leb_spec (Len s) (length a')); [reflexivity | lia].
  - cbn [Labels setEgress]. rewrite (slice_elems_agree labelK h h'); [exact Hlab |].
    intros l' Hl'. destruct (slice_locs_hold _ _ _ _ _ Hlab Hl') as (o & a0 & Ho & Hel).
    apply Hother; intros ->; rewrite Ho in *; simplify_eq; discriminate.
Qed.

(** X3.  [WithEgressRules] keeps the caller's slice: the entries are not
    copied.  After the call the backing array of the slice given is one of
    the locations the rule owns, no location was added and no location
    other than the rule was written; the rule shows the first [Len s]
    entries of that array, and whatever is written to the array later is
    what the rule shows from then on. *)
Theorem WithEgressRules_keeps_the_callers_array (h : heap) (r l : loc) v (s : slice) a :
  rule_value h r = Some v ->
  Data s = Some l ->
  h !! l = Some (OEgress a) ->
  Len s <= length a ->
  exists h' : heap,
    WithEgressRules r s h = Ret (Some (r, h'))
    /\ dom h' = dom h
    /\ (forall l', l' ≠ r -> h' !! l' = h !! l')
    /\ l ∈ footprint h' r
    /\ rule_value h' r
       = Some {| selector := selector v; ingress := ingress v; egress := take (Len s) a;
                 labels := labels v; description := description v |}
    /\ (forall a', Len s <= length a' ->
           rule_value (<[l := OEgress a']> h') r
           = Some {| selector := selector v; ingress := ingress v;
                     egress := take (Len s) a';
                     labels := labels v; description := description v |}).
Proof.
  intros Hv HData Hl Hlen.
  destruct (rule_value_inv _ _ _ Hv) as (R & Hr & _).
  assert (Hrl : r ≠ l) by (intros ->; congruence).
  exists (<[r := ORule (setEgress s R)]> h).
  split; [apply setter_ret; exact Hr |].
  split; [apply dom_insert_lookup_L; eauto |].
  split; [intros l' Hl'; apply lookup_insert_ne; auto |].
  split.
  { erewrite footprint_rule by apply lookup_insert_eq.
    cbn [Egress setEgress]. unfold slice_locs at 2. rewrite HData. set_solver. }
  split.
  - rewrite <- (setEgress_value h r l v R s a Hv Hr HData Hl a Hlen).
    rewrite (insert_id (<[r := ORule (setEgress s R)]> h) l (OEgress a)); [reflexivity |].
    rewrite lookup_insert_ne by auto. exact Hl.
  - intros a' Hlen'. exact (setEgress_value h r l v R s a Hv Hr HData Hl a' Hlen').
Qed.

(** X4.  [CreateDerivative] of a rule that shows no egress entry, be its
    egress slice nil or empty, is a plain copy: it runs to its end without
    a call to the capability, whatever the environment, returns a nil
    error and a new rule that reads back as the receiver does.  The egress
    slice of the new rule is the literal of line 116: of length 0 and not
    nil, also where the receiver's is nil. *)
Theorem CreateDerivative_without_egress (h : heap) (r : loc) v :
  rule_value h r = Some v ->
  egress v = [] ->
  exists n (h' : heap) N,
    CreateDerivative r h = Ret (Some ((n, None), h'))
    /\ h ⊆ h'
    /\ (n ∉ dom h)
    /\ rule_value h' n = Some v
    /\ h' !! n = Some (ORule N)
    /\ Data (Egress N) <> None
    /\ Len (Egress N) = 0.
Proof.
  intros Hv Hempty.
  destruct (rule_value_inv _ _ _ Hv) as (R & Hr & Hi & He & Hl & Hsel & Hdesc).
  destruct (DeepCopy_spec h r R _ _ _ Hr Hi He Hl)
    as (n & N & h1 & Hcopy & Hsub1 & Hnh & Hn1 & HselN & HdescN & Hi1 & _ & Hl1 & Hlocs).
  pose proof (subseteq_dom _ _ Hsub1) as Hdom1.
  set (le0 := fresh (dom h1)).
  assert (Hle0 : le0 ∉ dom h1) by apply is_fresh.
  assert (Hn1dom : n ∈ dom h1) by (apply elem_of_dom; eauto).
  assert (Hnle0 : n ≠ le0) by (intros Heq; apply Hle0; rewrite <- Heq; exact Hn1dom).
  set (h2 := <[le0 := OEgress []]> h1).
  set (N0 := setEgress (Slice (Some le0) 0 0) N).
  set (h3 := <[n := ORule N0]> h2).
  assert (Hn2 : h2 !! n = Some (ORule N)).
  { unfold h2. rewrite lookup_insert_ne by auto. exact Hn1. }
  assert (Hsub2 : h1 ⊆ h2).
  { apply insert_subseteq, not_elem_of_dom. exact Hle0. }
  assert (Hh3 : forall l, l ≠ n -> h3 !! l = h2 !! l).
  { intros l Hln. unfold h3. rewrite lookup_insert_ne by auto. reflexivity. }
  assert (Hsub : h ⊆ h3).
  { apply map_subseteq_spec. intros l o Ho.
    assert (l ∈ dom h) by (apply elem_of_dom; eauto).
    rewrite Hh3 by (intros ->; auto).
    eapply lookup_weaken; [| exact Hsub2]. eapply lookup_weaken; eassumption. }
  assert (Hr3 : h3 !! r = Some (ORule R)) by (eapply lookup_weaken; eassumption).
  assert (HLen : Len (Egress R) = 0).
  { rewrite <- (slice_elems_length _ _ _ _ He), Hempty. reflexivity. }
  exists n, h3, N0.
  split; [| split; [exact Hsub | split; [exact Hnh | split; [| split; [| split]]]]].
  - unfold CreateDerivative.
    erewrite M_bind_ret by exact Hcopy.
    erewrite (M_bind_ret (api.make egressK []) _ h1 h2 (Slice (Some le0) 0 0))
      by reflexivity.
    erewrite M_bind_ret by (apply (assign_ret _ _ _ (setEgress _) Hn2)).
    fold N0. fold h3.
    erewrite M_bind_ret by (apply loadRule_ret; exact Hr3).
    rewrite HLen. reflexivity.
  - rewrite (rule_value_intro h3 n N0 (ingress v) [] (labels v)).
    + unfold N0. cbn [EndpointSelector Description setEgress].
      rewrite HselN, HdescN, <- Hsel, <- Hdesc, <- Hempty. destruct v. reflexivity.
    + apply lookup_insert_eq.
    + unfold N0. cbn [Ingress setEgress].
      rewrite (slice_elems_agree ingressK h2 h3).
      * eapply slice_elems_mono; [exact Hsub2 | exact Hi1].
      * intros l Hl'. apply Hh3. intros ->. set_solver.
    + unfold N0. cbn [Egress setEgress]. unfold slice_elems. cbn [Data Len].
      rewrite Hh3 by auto. unfold h2. rewrite lookup_insert_eq. reflexivity.
    + unfold N0. cbn [Labels setEgress].
      rewrite (slice_elems_agree labelK h2 h3).
      * eapply slice_elems_mono; [exact Hsub2 | exact Hl1].
      * intros l Hl'. apply Hh3. intros ->. set_solver.
  - apply lookup_insert_eq.
  - discriminate.
  - reflexivity.
Qed.

Lemma deriveAll_success es (w : W) ds w' :
  derived hd es w ds w' ->
  deriveAll hd es w = (ds, None, w', derivation <$> es) /\ length ds = length es.
Proof.
  induction 1 as [w | x es w d w1 ds w2 Hx Hrest [IH Hlen]].
  - auto.
  - cbn. rewrite Hx, IH, Hlen. auto.
Qed.

(** What [deriveAll] asks: the derivation of the entries of a prefix, one
    more than it derives when it ends in an error. *)
Lemma deriveAll_calls es (w : W) ds err w' t :
  deriveAll hd es w = (ds, err, w', t) ->
  exists asked,
    t = derivation <$> asked
    /\ asked `prefix_of` es
    /\ length asked = length ds + (match err with Some _ => 1 | None => 0 end)
    /\ (err = None -> asked = es).
Proof.
  revert w ds err w' t. induction es as [| e es IH]; intros w ds err w' t Hall.
  - injection Hall as <- <- <- <-. exists []. auto.
  - cbn in Hall. destruct (hd _ (EgressRule_CreateDerivative e) w) as [[d | e'] w1].
    + destruct (deriveAll hd es w1) as [[[ds' err'] w2] t'] eqn:Hrest.
      injection Hall as <- <- <- <-.
      destruct (IH _ _ _ _ _ Hrest) as (asked & -> & Hpre & Hlen & Hall).
      exists (e :: asked). repeat split.
      * apply prefix_cons. exact Hpre.
      * cbn. rewrite Hlen. reflexivity.
      * intros Herr. rewrite (Hall Herr). reflexivity.
    + injection Hall as <- <- <- <-. exists [e]. repeat split.
      * apply prefix_cons, prefix_nil.
      * discriminate.
Qed.

(** X5.  [CreateDerivative] when every derivation succeeds.  If the
    environment derives the egress entries, asked in their order, to
    [outs], the call returns a nil error and a new rule whose egress list
    is [outs], entry for entry in the order of the receiver's; the
    derivation of every entry is asked once, in order; and the receiver
    reads back as before. *)
Theorem CreateDerivative_derives_every_entry (h : heap) (w : W) (r : loc) v outs w' :
  rule_value h r = Some v ->
  derived hd (egress v) w outs w' ->
  exists n (h' : heap),
    exec hd (CreateDerivative r h) w
    = (Some ((n, None), h'), w', derivation <$> egress v)
    /\ rule_value h' n
       = Some {| selector := selector v; ingress := ingress v; egress := outs;
                 labels := labels v; description := description v |}
    /\ length outs = length (egress v)
    /\ rule_value h' r = Some v.
Proof.
  intros Hv Hall. destruct (deriveAll_success _ _ _ _ Hall) as [Hrun Hlen].
  destruct (CreateDerivative_run hd h w r v _ _ _ _ Hv Hrun)
    as (n & h' & Hexec & Hsub & _ & Hvn).
  exists n, h'. repeat split; auto.
  eapply rule_value_mono; eassumption.
Qed.

(** X6.  What [CreateDerivative] asks of its environment, whatever the
    environment answers and however its state moves: the derivation of the
    entries of a prefix of the egress list, each once and in order, and
    never whether an entry requires a derivative.  The new rule never has
    more egress entries than the receiver; with a nil error every entry
    was asked and the two lists are of one length; with an error the
    entries asked are one more than the entries derived. *)
Theorem CreateDerivative_asks_a_prefix (h : heap) (w : W) (r : loc) v :
  rule_value h r = Some v ->
  exists n err (h' : heap) w' vn asked,
    exec hd (CreateDerivative r h) w = (Some ((n, err), h'), w', derivation <$> asked)
    /\ rule_value h' n = Some vn
    /\ asked `prefix_of` egress v
    /\ length (egress vn) <= length (egress v)
    /\ (err = None -> asked = egress v /\ length (egress vn) = length (egress v))
    /\ (err <> None -> length asked = Datatypes.S (length (egress vn))).
Proof.
  intros Hv.
  destruct (deriveAll hd (egress v) w) as [[[ds err] w'] t] eqn:Hall.
  destruct (CreateDerivative_run hd h w r v _ _ _ _ Hv Hall)
    as (n & h' & Hexec & _ & _ & Hvn).
  destruct (deriveAll_calls _ _ _ _ _ _ Hall) as (asked & -> & Hpre & Hlen & Hnone).
  eexists n, err, h', w', _, asked.
  split; [exact Hexec |]. split; [exact Hvn |]. cbn [egress].
  pose proof (prefix_length _ _ Hpre) as Hle.
  split; [exact Hpre |]. split; [lia |]. split.
  - intros ->. rewrite (Hnone eq_refl) in *. split; [reflexivity | lia].
  - intros Herr. destruct err; [lia | congruence].
Qed.

(** The loop of [RequiresDerivative] under any environment. *)
Lemma requiresLoop_asks (s : slice) (es : list EgressRule) :
  forall k i (h : heap) (w : W),
    slice_elems egressK h s = Some es ->
    i + k = length es ->
    exists result w' asked,
      exec hd (requiresLoop s i k h) w = (Some (result, h), w', question <$> asked)
      /\ asked `prefix_of` drop i es
      /\ (result = false -> asked = drop i es)
      /\ (result = true -> asked <> []).
Proof.
  induction k as [| k IH]; intros i h w Hs Hik.
  - rewrite drop_ge by lia. exists false, w, []. cbn. auto.
  - destruct (lookup_lt_is_Some_2 es i) as [x Hx]; [lia |].
    rewrite (drop_S _ _ _ Hx). cbn [requiresLoop].
    rewrite (exec_M_bind_ret _ _ _ _ _ _ _ (index_ret _ _ _ _ _ _ Hs Hx)).
    rewrite exec_invoke.
    destruct (hd _ (EgressRule_RequiresDerivative x) w) as [[|] w1].
    + exists true, w1, [x]. repeat split; try discriminate.
      apply prefix_cons, prefix_nil.
    + destruct (IH (Datatypes.S i) h w1 Hs) as (result & w' & asked & Hrun & Hpre & Hf & Ht);
        [lia |].
      exists result, w', (x :: asked). rewrite Hrun. repeat split.
      * apply prefix_cons. exact Hpre.
      * intros Hres. rewrite (Hf Hres). reflexivity.
      * discriminate.
Qed.

(** X7.  [RequiresDerivative] under any environment, also one whose
    answers depend on its state: the call does not panic and leaves the
    heap as it was; it asks only whether an entry requires a derivative
    (it derives nothing), about the entries of a prefix of the egress
    list, in order; when it answers false every entry was asked, and when
    it answers true at least one was. *)
Theorem RequiresDerivative_only_asks (h : heap) (w : W) (r : loc) R es :
  h !! r = Some (ORule R) ->
  slice_elems egressK h (Egress R) = Some es ->
  exists result w' asked,
    exec hd (RequiresDerivative r h) w = (Some (result, h), w', question <$> asked)
    /\ asked `prefix_of` es
    /\ (result = false -> asked = es)
    /\ (result = true -> asked <> []).
Proof.
  intros Hr Hes.
  destruct (requiresLoop_asks (Egress R) es (Len (Egress R)) 0 h w Hes)
    as (result & w' & asked & Hrun & Hpre & Hf & Ht).
  { rewrite (slice_elems_length _ _ _ _ Hes). reflexivity. }
  rewrite drop_0 in *.
  exists result, w', asked. split; [| auto].
  unfold RequiresDerivative.
  rewrite (exec_M_bind_ret _ _ _ _ _ _ _ (loadRule_ret _ _ _ Hr)). exact Hrun.
Qed.

(** X8.  [CreateDerivative] can be called again.  Two calls on the same
    rule, one after the other and whatever the environment answers, return
    two different rules; the second call leaves the first result reading
    back as it did, the receiver reads back as before both, and the
    locations the three rules own are pairwise disjoint. *)
Theorem CreateDerivative_twice (h : heap) (w : W) (r : loc) v :
  rule_value h r = Some v ->
  exists n1 err1 (h1 : heap) w1 t1 v1 n2 err2 (h2 : heap) w2 t2 v2,
    exec hd (CreateDerivative r h) w = (Some ((n1, err1), h1), w1, t1)
    /\ exec hd (CreateDerivative r h1) w1 = (Some ((n2, err2), h2), w2, t2)
    /\ rule_value h1 n1 = Some v1
    /\ rule_value h2 n1 = Some v1
    /\ rule_value h2 n2 = Some v2
    /\ rule_value h2 r = Some v
    /\ n1 <> n2
    /\ footprint h2 n1 ## footprint h2 n2
    /\ footprint h2 n1 ## footprint h2 r
    /\ footprint h2 n2 ## footprint h2 r.
Proof.
  intros Hv.
  destruct (deriveAll hd (egress v) w) as [[[ds1 err1] w1] t1] eqn:Hall1.
  destruct (CreateDerivative_run hd h w r v _ _ _ _ Hv Hall1)
    as (n1 & h1 & Hrun1 & Hsub1 & Hnew1 & Hv1).
  pose proof (rule_value_mono _ _ _ _ Hsub1 Hv) as Hvr1.
  destruct (deriveAll hd (egress v) w1) as [[[ds2 err2] w2] t2] eqn:Hall2.
  destruct (CreateDerivative_run hd h1 w1 r v _ _ _ _ Hvr1 Hall2)
    as (n2 & h2 & Hrun2 & Hsub2 & Hnew2 & Hv2).
  pose proof (rule_value_mono _ _ _ _ Hsub2 Hvr1) as Hvr2.
  pose proof (rule_value_mono _ _ _ _ Hsub2 Hv1) as Hv12.
  pose proof (footprint_dom _ _ _ Hv) as Hfr.
  pose proof (footprint_dom _ _ _ Hv1) as Hf1.
  pose proof (subseteq_dom _ _ Hsub1) as Hd1.
  destruct (rule_value_inv _ _ _ Hv) as (R & Hr & _).
  destruct (rule_value_inv _ _ _ Hv1) as (N1 & Hn1 & _).
  destruct (rule_value_inv _ _ _ Hv2) as (N2 & Hn2 & _).
  assert (Hr2 : h2 !! r = Some (ORule R)).
  { eapply lookup_weaken; [| exact Hsub2]. eapply lookup_weaken; eassumption. }
  assert (Hn12 : h2 !! n1 = Some (ORule N1)) by (eapply lookup_weaken; eassumption).
  assert (Hfr2 : footprint h2 r = footprint h r).
  { rewrite (footprint_rule _ _ _ Hr), (footprint_rule _ _ _ Hr2). reflexivity. }
  assert (Hf12 : footprint h2 n1 = footprint h1 n1).
  { rewrite (footprint_rule _ _ _ Hn1), (footprint_rule _ _ _ Hn12). reflexivity. }
  assert (Hin1 : n1 ∈ footprint h1 n1) by (rewrite (footprint_rule _ _ _ Hn1); set_solver).
  assert (Hin2 : n2 ∈ footprint h2 n2) by (rewrite (footprint_rule _ _ _ Hn2); set_solver).
  eexists n1, err1, h1, w1, t1, _, n2, err2, h2, w2, t2, _.
  split; [exact Hrun1 |]. split; [exact Hrun2 |]. split; [exact Hv1 |].
  split; [exact Hv12 |]. split; [exact Hv2 |]. split; [exact Hvr2 |].
  rewrite Hfr2, Hf12. repeat split; set_solver.
Qed.

(** X9.  On a pointer that holds no rule (a nil receiver) the five
    setters, [RequiresDerivative] and [CreateDerivative] panic: there is
    no result, the heap is not written, and the capability is not
    called. *)
Theorem methods_of_a_nil_rule_panic (h : heap) (r : loc) :
  h !! r = None ->
  (forall es, WithEndpointSelector r es h = Ret None)
  /\ (forall rules, WithIngressRules r rules h = Ret None)
  /\ (forall rules, WithEgressRules r rules h = Ret None)
  /\ (forall labels, WithLabels r labels h = Ret None)
  /\ (forall desc, WithDescription r desc h = Ret None)
  /\ RequiresDerivative r h = Ret None
  /\ CreateDerivative r h = Ret None.
Proof.
  intros Hr.
  assert (Hload : loadRule r h = Ret None).
  { unfold loadRule, mbind, M_bind, load. rewrite Hr. reflexivity. }
  assert (Hbind : forall A (f : Rule -> M A), (loadRule r ≫= f) h = Ret None).
  { intros A f. unfold mbind at 1, M_bind at 1. rewrite Hload. reflexivity. }
  assert (Hset : forall f, (assign r f;; mret r) h = Ret None).
  { intros f. unfold assign. unfold mbind at 1, M_bind at 1. rewrite Hbind. reflexivity. }
  repeat split; try (intros; apply Hset).
  - apply Hbind.
  - unfold CreateDerivative, DeepCopy. unfold mbind at 1, M_bind at 1.
    rewrite Hbind. reflexivity.
Qed.

End rule_methods.

(** ** Building rules and deriving them, on the rule of Part I *)

Section groups_more.
Import Go api groups.

Lemma NewRule_and_setters_build_the_rule_witness :
  exists (r : loc) (h' : heap),
    (r0 ← NewRule "";
     r1 ← WithEndpointSelector r0 "app=web";
     r2 ← WithIngressRules r1 (Slice (Some 2%positive) 1 1);
     r3 ← WithEgressRules r2 (Slice (Some 3%positive) 2 4);
     r4 ← WithLabels r3 (Slice (Some 4%positive) 1 1);
     WithDescription r4 "egress of web") memory
    = Ret (Some (r, h'))
    /\ rule_value h' r
       = Some {| selector := "app=web";
                 ingress := ["from app=frontend"];
                 egress := [ToEndpoints "app=bar"; ToGroups "sg-web"];
                 labels := ["policy=demo"];
                 description := "egress of web" |}.
Proof.
  destruct (NewRule_and_setters_build_the_rule memory "" "app=web"
              (Slice (Some 2%positive) 1 1) (Slice (Some 3%positive) 2 4)
              (Slice (Some 4%positive) 1 1) "egress of web"
              ["from app=frontend"] [ToEndpoints "app=bar"; ToGroups "sg-web"]
              ["policy=demo"])
    as (r & h0 & h' & _ & _ & Hrun & _ & _ & _ & Hvalue).
  - vm_compute. reflexivity.
  - vm_compute. reflexivity.
  - vm_compute. reflexivity.
  - exists r, h'. split; [exact Hrun | exact Hvalue].
Defined.

Lemma setters_replace_and_commute_witness :
  (r' ← WithDescription 1%positive "draft"; WithDescription r' "final") memory
  = WithDescription 1%positive "final" memory
  /\ (r' ← WithEgressRules 1%positive nilSlice; WithLabels r' nilSlice) memory
     = (r' ← WithLabels 1%positive nilSlice; WithEgressRules r' nilSlice) memory.
Proof.
  destruct (setters_replace_and_commute memory 1%positive source)
    as (_ & _ & _ & _ & Hd & _ & _ & _ & _ & _ & _ & _ & Hel & _).
  - vm_compute. reflexivity.
  - split; [apply Hd | apply Hel].
Defined.

Lemma WithEgressRules_keeps_the_callers_array_witness :
  exists h' : heap,
    WithEgressRules 1%positive (Slice (Some 3%positive) 2 4) memory
    = Ret (Some (1%positive, h'))
    /\ rule_value h' 1%positive
       = Some {| selector := "app=foo";
                 ingress := ["from app=frontend"];
                 egress := [ToEndpoints "app=bar"; ToGroups "sg-web"];
                 labels := ["policy=demo"];
                 description := "egress of foo" |}
    /\ rule_value (<[3%positive := OEgress [ToCIDRSet []; ToCIDRSet ["10.0.0.0/8"]]]> h')
                  1%positive
       = Some {| selector := "app=foo";
                 ingress := ["from app=frontend"];
                 egress := [ToCIDRSet []; ToCIDRSet ["10.0.0.0/8"]];
                 labels := ["policy=demo"];
                 description := "egress of foo" |}.
Proof.
  destruct (WithEgressRules_keeps_the_callers_array memory 1%positive 3%positive policy
              (Slice (Some 3%positive) 2 4)
              [ToEndpoints "app=bar"; ToGroups "sg-web";
               ToGroups "sg-lost"; ToEndpoints "app=db"])
    as (h' & Hrun & _ & _ & _ & Hvalue & Hlater).
  - vm_compute. reflexivity.
  - reflexivity.
  - vm_compute. reflexivity.
  - cbn. lia.
  - exists h'. split; [exact Hrun |]. split; [exact Hvalue |].
    apply (Hlater [ToCIDRSet []; ToCIDRSet ["10.0.0.0/8"]]). cbn. lia.
Defined.

Lemma CreateDerivative_without_egress_witness :
  exists (n : loc) (h' : heap),
    CreateDerivative 1%positive quiet = Ret (Some ((n, None), h'))
    /\ rule_value h' n = Some quietPolicy.
Proof.
  destruct (CreateDerivative_without_egress quiet 1%positive quietPolicy)
    as (n & h' & N & Hrun & _ & _ & Hvalue & _).
  - vm_compute. reflexivity.
  - reflexivity.
  - exists n, h'. split; [exact Hrun | exact Hvalue].
Defined.

Lemma CreateDerivative_derives_every_entry_witness :
  exists (n : loc) (h' : heap),
    exec provider (CreateDerivative 1%positive memory) fullTable
    = (Some ((n, None), h'), fullTable,
       [ ev (EgressRule_CreateDerivative (ToEndpoints "app=bar"));
         ev (EgressRule_CreateDerivative (ToGroups "sg-web"));
         ev (EgressRule_CreateDerivative (ToGroups "sg-lost"));
         ev (EgressRule_CreateDerivative (ToEndpoints "app=db")) ])
    /\ rule_value h' n
       = Some {| selector := "app=foo";
                 ingress := ["from app=frontend"];
                 egress := [ ToEndpoints "app=bar";
                             ToCIDRSet ["10.0.0.0/24"; "10.0.1.0/24"];
                             ToCIDRSet ["10.9.0.0/16"];
                             ToEndpoints "app=db" ];
                 labels := ["policy=demo"];
                 description := "egress of foo" |}.
Proof.
  destruct (CreateDerivative_derives_every_entry provider memory fullTable 1%positive policy
              [ ToEndpoints "app=bar"; ToCIDRSet ["10.0.0.0/24"; "10.0.1.0/24"];
                ToCIDRSet ["10.9.0.0/16"]; ToEndpoints "app=db" ]
              fullTable)
    as (n & h' & Hrun & Hvalue & _).
  - vm_compute. reflexivity.
  - apply (derived_cons provider (ToEndpoints "app=bar") _ fullTable
             (ToEndpoints "app=bar") fullTable _ fullTable eq_refl).
    apply (derived_cons provider (ToGroups "sg-web") _ fullTable
             (ToCIDRSet ["10.0.0.0/24"; "10.0.1.0/24"]) fullTable _ fullTable eq_refl).
    apply (derived_cons provider (ToGroups "sg-lost") _ fullTable
             (ToCIDRSet ["10.9.0.0/16"]) fullTable _ fullTable eq_refl).
    apply (derived_cons provider (ToEndpoints "app=db") [] fullTable
             (ToEndpoints "app=db") fullTable _ fullTable eq_refl).
    exact (derived_nil provider fullTable).
  - exists n, h'. split; [exact Hrun | exact Hvalue].
Defined.

Lemma CreateDerivative_asks_a_prefix_witness :
  exists (n : loc) err (h' : heap) w' vn asked,
    exec provider (CreateDerivative 1%positive memory) table
    = (Some ((n, err), h'), w',
       (fun x => ev (EgressRule_CreateDerivative x)) <$> asked)
    /\ rule_value h' n = Some vn
    /\ asked `prefix_of` egress policy
    /\ length (egress vn) <= 4.
Proof.
  destruct (CreateDerivative_asks_a_prefix provider memory table 1%positive policy)
    as (n & err & h' & w' & vn & asked & Hrun & Hvalue & Hprefix & Hlength & _).
  - vm_compute. reflexivity.
  - exists n, err, h', w', vn, asked. auto.
Defined.

Lemma RequiresDerivative_only_asks_witness :
  exists result w' asked,
    exec provider (RequiresDerivative 1%positive memory) table
    = (Some (result, memory), w',
       (fun x => ev (EgressRule_RequiresDerivative x)) <$> asked)
    /\ asked `prefix_of` egress policy.
Proof.
  destruct (RequiresDerivative_only_asks provider memory table 1%positive source
              (egress policy))
    as (result & w' & asked & Hrun & Hprefix & _).
  - vm_compute. reflexivity.
  - vm_compute. reflexivity.
  - exists result, w', asked. auto.
Defined.

Lemma CreateDerivative_twice_witness :
  exists (n1 : loc) err1 (h1 : heap) w1 t1 (n2 : loc) err2 (h2 : heap) w2 t2,
    exec provider (CreateDerivative 1%positive memory) table
    = (Some ((n1, err1), h1), w1, t1)
    /\ exec provider (CreateDerivative 1%positive h1) w1 = (Some ((n2, err2), h2), w2, t2)
    /\ rule_value h2 n1 = rule_value h1 n1
    /\ rule_value h2 1%positive = Some policy
    /\ footprint h2 n1 ## footprint h2 n2.
Proof.
  destruct (CreateDerivative_twice provider memory table 1%positive policy)
    as (n1 & err1 & h1 & w1 & t1 & v1 & n2 & err2 & h2 & w2 & t2 & v2
        & Hrun1 & Hrun2 & Hv1 & Hv12 & _ & Hr & _ & Hdisjoint & _).
  - vm_compute. reflexivity.
  - exists n1, err1, h1, w1, t1, n2, err2, h2, w2, t2.
    rewrite Hv1, Hv12. auto.
Defined.

Lemma methods_of_a_nil_rule_panic_witness :
  WithDescription 1%positive "lost" (∅ : heap) = Ret None
  /\ RequiresDerivative 1%positive (∅ : heap) = Ret None
  /\ CreateDerivative 1%positive (∅ : heap) = Ret None.
Proof.
  destruct (methods_of_a_nil_rule_panic (∅ : heap) 1%positive)
    as (_ & _ & _ & _ & Hdesc & Hrequires & Hcreate).
  - reflexivity.
  - split; [apply Hdesc | split; [exact Hrequires | exact Hcreate]].
Defined.

End groups_more.

(** ** The reconciler, step by step *)

Section reconciler_steps.
Import Go v2.
Context {S : Type} (c : Cluster S).

Local Abbreviation run p s := (exec (serve c) p s).

#[local] Arguments errors.IsNotFound : simpl never.
#[local] Arguments errors.IsAlreadyExists : simpl never.
#[local] Arguments needsUpdate : simpl never.

(** What the update submits: the descriptor as fetched, with the labels
    and the spec of the descriptor being installed. *)
Local Abbreviation submitted crd fetched :=
  {| Name := Name fetched; Labels := Labels crd; Spec := Spec crd;
     Status := Status fetched |}.

Local Abbreviation halfSecond := (500 * Millisecond)%Z.
Local Abbreviation minute := (60 * Second)%Z.

Lemma fetchOrCreate_run CRDName crd s :
  run (fetchOrCreate CRDName crd) s
  = match crdGet c (Name crd) s with
    | (inl clusterCRD, s1) => (inl clusterCRD, s1, [ev (Get (Name crd))])
    | (inr err, s1) =>
        if errors.IsNotFound (Some err) then
          match crdCreate c crd s1 with
          | (created, s2) =>
              (match created with
               | inl clusterCRD => inl clusterCRD
               | inr err =>
                   if errors.IsAlreadyExists (Some err) then inr None
                   else inr (Some err)
               end, s2,
               [ ev (Get (Name crd));
                 ev (Log Info CRDName None "Creating CRD (CustomResourceDefinition)...");
                 ev (Create crd) ])
          end
        else (inr (Some err), s1, [ev (Get (Name crd))])
    end.
Proof.
  unfold fetchOrCreate. cbn.
  destruct (crdGet c (Name crd) s) as [[clusterCRD | err] s1]; cbn; [reflexivity |].
  destruct (errors.IsNotFound (Some err)); cbn; [| reflexivity].
  destruct (crdCreate c crd s1) as [[clusterCRD | err'] s2]; cbn; [reflexivity |].
  destruct (errors.IsAlreadyExists (Some err')); reflexivity.
Qed.

Lemma updateCondition_run CRDName crd s :
  run (updateCondition CRDName crd) s
  = match crdGet c (Name crd) s with
    | (inr err, s1) => ((false, Some err), s1, [ev (Get (Name crd))])
    | (inl fetched, s1) =>
        if needsUpdate fetched then
          match crdUpdate c (submitted crd fetched) s1 with
          | (inl _, s2) =>
              ((true, None), s2,
               [ ev (Get (Name crd));
                 ev (Log Debug CRDName None "CRD validation is different, updating it...");
                 ev (Update (submitted crd fetched)) ])
          | (inr err, s2) =>
              ((false, Some err), s2,
               [ ev (Get (Name crd));
                 ev (Log Debug CRDName None "CRD validation is different, updating it...");
                 ev (Update (submitted crd fetched));
                 ev (Log Debug CRDName (Some err) "Unable to update CRD validation") ])
          end
        else ((true, None), s1, [ev (Get (Name crd))])
    end.
Proof.
  unfold updateCondition. cbn.
  destruct (crdGet c (Name crd) s) as [[fetched | err] s1]; cbn; [| reflexivity].
  destruct (needsUpdate fetched); cbn; [| reflexivity].
  destruct (crdUpdate c _ s1) as [[updated | err] s2]; reflexivity.
Qed.

(** The condition of the update poll never asks to be polled again: it
    answers done, or an error. *)
Lemma updateCondition_decides CRDName crd s :
  exists err s' t,
    run (updateCondition CRDName crd) s
    = ((match err with None => true | Some _ => false end, err), s', t).
Proof.
  rewrite updateCondition_run.
  destruct (crdGet c (Name crd) s) as [[fetched | err] s1];
    [| exists (Some err); eexists _, _; reflexivity].
  destruct (needsUpdate fetched); [| exists None; eexists _, _; reflexivity].
  destruct (crdUpdate c _ s1) as [[updated | err] s2];
    [exists None | exists (Some err)]; eexists _, _; reflexivity.
Qed.

Lemma WaitFor_updateCondition CRDName crd ticks s :
  run (wait.WaitFor ticks (updateCondition CRDName crd)) s
  = let '(answer, s', t) := run (updateCondition CRDName crd) s in (answer.2, s', t).
Proof.
  rewrite WaitFor_unfold, exec_bind.
  destruct (updateCondition_decides CRDName crd s) as (err & s' & t & ->).
  destruct err; cbn; rewrite app_nil_r; reflexivity.
Qed.

Lemma updateIfNeeded_run CRDName crd clusterCRD s ticks s1 :
  needsUpdate clusterCRD = true ->
  pollerTicks c halfSecond minute s = (ticks, s1) ->
  run (updateIfNeeded CRDName crd clusterCRD) s
  = let '(answer, s2, t) := run (updateCondition CRDName crd) s1 in
    (answer.2, s2,
     [ ev (Log Debug CRDName None
             "Checking if CRD (CustomResourceDefinition) needs update...");
       ev (Log Info CRDName None "Updating CRD (CustomResourceDefinition)...");
       ev (Poller halfSecond minute) ]
     ++ t
     ++ match answer.2 with
        | Some err => [ev (Log Error_ CRDName (Some err) "Unable to update CRD")]
        | None => []
        end).
Proof.
  intros HNeeds HTicks. unfold updateIfNeeded, log.
  rewrite exec_bind, exec_call. cbn [serve fst snd]. rewrite HNeeds.
  rewrite exec_bind, exec_call. cbn [serve fst snd].
  unfold Poll, wait.Poll. rewrite !exec_bind, exec_call. cbn [serve].
  rewrite HTicks. cbn [fst snd]. rewrite WaitFor_updateCondition.
  destruct (run (updateCondition CRDName crd) s1) as [[[ok err] s2] t].
  cbn [snd]. destruct err; cbn; rewrite ?app_nil_r; reflexivity.
Qed.

Lemma createUpdateCRD_steps CRDName crd s :
  run (createUpdateCRD CRDName crd) s
  = let '(r, s1, t1) := run (fetchOrCreate CRDName crd) s in
    match r with
    | inr result => (result, s1, t1)
    | inl clusterCRD =>
        let '(u, s2, t2) := run (updateIfNeeded CRDName crd clusterCRD) s1 in
        match u with
        | Some err => (Some err, s2, t1 ++ t2)
        | None =>
            let '(err, s3, t3) := run (waitEstablished CRDName crd) s2 in
            let '(result, s4, t4) := run (afterWait CRDName crd err) s3 in
            (result, s4, t1 ++ t2 ++ t3 ++ t4)
        end
    end.
Proof.
  unfold createUpdateCRD. rewrite exec_bind.
  destruct (run (fetchOrCreate CRDName crd) s) as [[[clusterCRD | result] s1] t1].
  - rewrite exec_bind.
    destruct (run (updateIfNeeded CRDName crd clusterCRD) s1) as [[[err |] s2] t2].
    + cbn. rewrite app_nil_r. reflexivity.
    + rewrite exec_bind.
      destruct (run (waitEstablished CRDName crd) s2) as [[err s3] t3].
      destruct (run (afterWait CRDName crd err) s3) as [[result s4] t4].
      reflexivity.
  - cbn. rewrite app_nil_r. reflexivity.
Qed.

(** X10.  An error of the fetch other than NotFound, and an error of the
    create other than AlreadyExists, is returned as it is and at once: the
    failed call is the last call of the run, which makes no update, starts
    no poll and deletes nothing. *)
Theorem createUpdateCRD_returns_store_errors_at_once CRDName crd s :
  (forall err s1,
      crdGet c (Name crd) s = (inr err, s1) ->
      errors.IsNotFound (Some err) = false ->
      run (createUpdateCRD CRDName crd) s = (Some err, s1, [ev (Get (Name crd))]))
  /\ (forall notFound s1 err s2,
         crdGet c (Name crd) s = (inr notFound, s1) ->
         errors.IsNotFound (Some notFound) = true ->
         crdCreate c crd s1 = (inr err, s2) ->
         errors.IsAlreadyExists (Some err) = false ->
         run (createUpdateCRD CRDName crd) s
         = (Some err, s2,
            [ ev (Get (Name crd));
              ev (Log Info CRDName None "Creating CRD (CustomResourceDefinition)...");
              ev (Create crd) ])).
Proof.
  split.
  - intros err s1 HGet HOther.
    rewrite createUpdateCRD_steps, fetchOrCreate_run, HGet, HOther. reflexivity.
  - intros notFound s1 err s2 HGet HNotFound HCreate HOther.
    rewrite createUpdateCRD_steps, fetchOrCreate_run, HGet, HNotFound, HCreate, HOther.
    reflexivity.
Qed.

(** X11.  The update poll does not poll.  Its condition function never
    answers "not yet": it answers done or an error.  So for every number
    of ticks the poll runs the condition once: one fetch, at most one
    update, no create and no delete; its error, if any, is the error of
    that fetch or of that update, so that this poll never times out. *)
Theorem update_poll_runs_its_condition_once CRDName crd s :
  exists err s' t,
    (forall ticks,
        run (wait.WaitFor ticks (updateCondition CRDName crd)) s = (err, s', t))
    /\ filter (fun e => isGet e = true) t = [ev (Get (Name crd))]
    /\ length (filter (fun e => isUpdate e = true) t) <= 1
    /\ filter (fun e => isCreate e = true) t = []
    /\ filter (fun e => isDelete e = true) t = []
    /\ match err with
       | None => True
       | Some e =>
           crdGet c (Name crd) s = (inr e, s')
           \/ exists fetched s1,
                crdGet c (Name crd) s = (inl fetched, s1)
                /\ crdUpdate c (submitted crd fetched) s1 = (inr e, s')
       end.
Proof.
  destruct (run (updateCondition CRDName crd) s) as [[[ok err] s'] t] eqn:Hrun.
  exists err, s', t. split.
  { intros ticks. rewrite WaitFor_updateCondition, Hrun. reflexivity. }
  rewrite updateCondition_run in Hrun.
  destruct (crdGet c (Name crd) s) as [[fetched | e] s1].
  - destruct (needsUpdate fetched).
    + destruct (crdUpdate c _ s1) as [[updated | e] s2] eqn:HUpdate;
        injection Hrun as <- <- <- <-;
        (split; [reflexivity |]); (split; [vm_compute; lia |]);
        (split; [reflexivity |]); (split; [reflexivity |]); [exact I |].
      right. eauto.
    + injection Hrun as <- <- <- <-.
      split; [reflexivity |]. split; [vm_compute; lia |]. auto.
  - injection Hrun as <- <- <- <-.
    split; [reflexivity |]. split; [vm_compute; lia |]. auto.
Qed.

(** X12.  When the descriptor found (or just created) needs an update
    and the update step fails, the failure is final.  Be it the second
    fetch or the update call that fails: the error is returned as it is
    after that one attempt, it is logged, and the run ends there; it does
    not wait for acceptance and does not delete the descriptor, also where
    this run created it. *)
Theorem createUpdateCRD_update_failure_is_final
    CRDName crd s clusterCRD s1 t1 ticks s2 :
  run (fetchOrCreate CRDName crd) s = (inl clusterCRD, s1, t1) ->
  needsUpdate clusterCRD = true ->
  pollerTicks c halfSecond minute s1 = (ticks, s2) ->
  (forall err s3,
      crdGet c (Name crd) s2 = (inr err, s3) ->
      run (createUpdateCRD CRDName crd) s
      = (Some err, s3,
         t1 ++ [ ev (Log Debug CRDName None
                       "Checking if CRD (CustomResourceDefinition) needs update...");
                 ev (Log Info CRDName None "Updating CRD (CustomResourceDefinition)...");
                 ev (Poller halfSecond minute);
                 ev (Get (Name crd));
                 ev (Log Error_ CRDName (Some err) "Unable to update CRD") ]))
  /\ (forall fetched s3 err s4,
         crdGet c (Name crd) s2 = (inl fetched, s3) ->
         needsUpdate fetched = true ->
         crdUpdate c (submitted crd fetched) s3 = (inr err, s4) ->
         run (createUpdateCRD CRDName crd) s
         = (Some err, s4,
            t1 ++ [ ev (Log Debug CRDName None
                          "Checking if CRD (CustomResourceDefinition) needs update...");
                    ev (Log Info CRDName None
                          "Updating CRD (CustomResourceDefinition)...");
                    ev (Poller halfSecond minute);
                    ev (Get (Name crd));
                    ev (Log Debug CRDName None
                          "CRD validation is different, updating it...");
                    ev (Update (submitted crd fetched));
                    ev (Log Debug CRDName (Some err) "Unable to update CRD validation");
                    ev (Log Error_ CRDName (Some err) "Unable to update CRD") ])).
Proof.
  intros HFetch HNeeds HTicks. split.
  - intros err s3 HGet.
    rewrite createUpdateCRD_steps, HFetch.
    rewrite (updateIfNeeded_run _ _ _ _ _ _ HNeeds HTicks), updateCondition_run, HGet.
    reflexivity.
  - intros fetched s3 err s4 HGet HStill HUpdate.
    rewrite createUpdateCRD_steps, HFetch.
    rewrite (updateIfNeeded_run _ _ _ _ _ _ HNeeds HTicks), updateCondition_run, HGet,
      HStill, HUpdate.
    reflexivity.
Qed.

(** X13.  When the descriptor found needs an update, it is fetched again
    and checked again.  If it is current by then, no update is sent.
    Otherwise one update is sent: the descriptor as fetched again (its
    name and its status), with the labels and the spec of the descriptor
    being installed.  Either way the run goes on to the acceptance wait
    and what follows it. *)
Theorem createUpdateCRD_updates_what_it_fetched_again
    CRDName crd s clusterCRD s1 t1 ticks s2 fetched s3 :
  run (fetchOrCreate CRDName crd) s = (inl clusterCRD, s1, t1) ->
  needsUpdate clusterCRD = true ->
  pollerTicks c halfSecond minute s1 = (ticks, s2) ->
  crdGet c (Name crd) s2 = (inl fetched, s3) ->
  (needsUpdate fetched = false ->
   run (createUpdateCRD CRDName crd) s
   = let '(err, s4, t3) := run (waitEstablished CRDName crd) s3 in
     let '(result, s5, t4) := run (afterWait CRDName crd err) s4 in
     (result, s5,
      t1 ++ [ ev (Log Debug CRDName None
                    "Checking if CRD (CustomResourceDefinition) needs update...");
              ev (Log Info CRDName None "Updating CRD (CustomResourceDefinition)...");
              ev (Poller halfSecond minute);
              ev (Get (Name crd)) ]
         ++ t3 ++ t4))
  /\ (forall updated s4,
         needsUpdate fetched = true ->
         crdUpdate c (submitted crd fetched) s3 = (inl updated, s4) ->
         run (createUpdateCRD CRDName crd) s
         = let '(err, s5, t3) := run (waitEstablished CRDName crd) s4 in
           let '(result, s6, t4) := run (afterWait CRDName crd err) s5 in
           (result, s6,
            t1 ++ [ ev (Log Debug CRDName None
                          "Checking if CRD (CustomResourceDefinition) needs update...");
                    ev (Log Info CRDName None
                          "Updating CRD (CustomResourceDefinition)...");
                    ev (Poller halfSecond minute);
                    ev (Get (Name crd));
                    ev (Log Debug CRDName None
                          "CRD validation is different, updating it...");
                    ev (Update (submitted crd fetched)) ]
               ++ t3 ++ t4)).
Proof.
  intros HFetch HNeeds HTicks HGet. split.
  - intros HCurrent.
    rewrite createUpdateCRD_steps, HFetch.
    rewrite (updateIfNeeded_run _ _ _ _ _ _ HNeeds HTicks), updateCondition_run, HGet,
      HCurrent.
    reflexivity.
  - intros updated s4 HStill HUpdate.
    rewrite createUpdateCRD_steps, HFetch.
    rewrite (updateIfNeeded_run _ _ _ _ _ _ HNeeds HTicks), updateCondition_run, HGet,
      HStill, HUpdate.
    reflexivity.
Qed.

(** The loop over the conditions: it makes no call but one log line when
    it meets a name conflict, leaves the closure's [err] as it is, and
    answers [true] exactly when it meets Established=True before any
    NamesAccepted=False. *)
Lemma scanConditions_run CRDName err conds s :
  exists ok t,
    run (scanConditions CRDName err conds) s = ((ok, err), s, t)
    /\ (t = []
        \/ exists reason,
             ok = false
             /\ t = [ev (Log Error_ CRDName (Some (errorString reason))
                            "Name conflict for CRD")])
    /\ (ok = true <->
        exists before established after,
          conds = before ++ established :: after
          /\ cond_Type established = Established
          /\ cond_Status established = ConditionTrue
          /\ Forall (fun d => cond_Type d = NamesAccepted -> cond_Status d <> ConditionFalse)
                    before).
Proof.
  induction conds as [| cond rest (ok & t & Hrun & Ht & Hok)].
  - exists false, []. split; [reflexivity |]. split; [auto |]. split; [discriminate |].
    intros (before & established & after & Happ & _).
    destruct before; discriminate.
  - assert (Hskip :
      (cond_Type cond = Established -> cond_Status cond <> ConditionTrue) ->
      (cond_Type cond = NamesAccepted -> cond_Status cond <> ConditionFalse) ->
      ok = true <->
      exists before established after,
        cond :: rest = before ++ established :: after
        /\ cond_Type established = Established
        /\ cond_Status established = ConditionTrue
        /\ Forall (fun d => cond_Type d = NamesAccepted -> cond_Status d <> ConditionFalse)
                  before).
    { intros HnotE HnotN. rewrite Hok. split.
      - intros (before & established & after & -> & HType & HStatus & HBefore).
        exists (cond :: before), established, after. repeat split; auto.
      - intros (before & established & after & Happ & HType & HStatus & HBefore).
        destruct before as [| d before].
        + injection Happ as <- <-. destruct (HnotE HType HStatus).
        + injection Happ as <- ->. inversion HBefore; subst.
          exists before, established, after. auto. }
    cbn [scanConditions].
    destruct (String.eqb_spec (cond_Type cond) Established) as [HE | HE].
    + destruct (String.eqb_spec (cond_Status cond) ConditionTrue) as [HT | HT].
      * exists true, []. split; [reflexivity |]. split; [auto |]. split; [| reflexivity].
        intros _. exists [], cond, rest. auto.
      * exists ok, t. split; [exact Hrun |]. split; [exact Ht |].
        apply Hskip; [auto |]. intros HN. rewrite HE in HN. discriminate.
    + destruct (String.eqb_spec (cond_Type cond) NamesAccepted) as [HN | HN].
      * destruct (String.eqb_spec (cond_Status cond) ConditionFalse) as [HF | HF].
        -- exists false, [ev (Log Error_ CRDName (Some (errorString (cond_Reason cond)))
                                "Name conflict for CRD")].
           split; [reflexivity |]. split; [right; eauto |]. split; [discriminate |].
           intros (before & established & after & Happ & HType & HStatus & HBefore).
           destruct before as [| d before].
           ++ injection Happ as <- <-. destruct (HE HType).
           ++ injection Happ as <- ->. inversion HBefore; subst. tauto.
        -- exists ok, t. split; [exact Hrun |]. split; [exact Ht |].
           apply Hskip; [intros HE'; destruct (HE HE') | auto].
      * exists ok, t. split; [exact Hrun |]. split; [exact Ht |].
        apply Hskip; [intros HE'; destruct (HE HE') | intros HN'; destruct (HN HN')].
Qed.

Lemma establishedCondition_run CRDName crd s :
  run (establishedCondition CRDName crd) s
  = match crdGet c (Name crd) s with
    | (inr err, s1) => ((false, Some err), s1, [ev (Get (Name crd))])
    | (inl stored, s1) =>
        let '(answer, _, t) :=
          run (scanConditions CRDName None (Conditions (Status stored))) s1 in
        (answer, s1, ev (Get (Name crd)) :: t)
    end.
Proof.
  unfold establishedCondition. rewrite exec_bind, exec_call. cbn [serve].
  destruct (crdGet c (Name crd) s) as [[stored | err] s1]; cbn [fst snd]; [| reflexivity].
  destruct (scanConditions_run CRDName None (Conditions (Status stored)) s1)
    as (ok & t & -> & _).
  reflexivity.
Qed.

(** X14.  One poll of the acceptance wait whose read succeeds.  It
    answers with a nil error always, and with done exactly when the
    conditions show Established=True before any NamesAccepted=False: the
    first of the two decides, in the order the store lists them.  It makes
    no call besides the read, and one log line where it meets a name
    conflict, in which case it does not answer done. *)
Theorem status_read_is_decided_by_the_first_decisive_condition
    CRDName crd s stored s1 :
  crdGet c (Name crd) s = (inl stored, s1) ->
  exists ok t,
    run (establishedCondition CRDName crd) s
    = ((ok, None), s1, ev (Get (Name crd)) :: t)
    /\ (t = []
        \/ exists reason,
             ok = false
             /\ t = [ev (Log Error_ CRDName (Some (errorString reason))
                            "Name conflict for CRD")])
    /\ (ok = true <->
        exists before established after,
          Conditions (Status stored) = before ++ established :: after
          /\ cond_Type established = Established
          /\ cond_Status established = ConditionTrue
          /\ Forall (fun d => cond_Type d = NamesAccepted -> cond_Status d <> ConditionFalse)
                    before).
Proof.
  intros HGet. rewrite establishedCondition_run, HGet.
  destruct (scanConditions_run CRDName None (Conditions (Status stored)) s1)
    as (ok & t & -> & Ht & Hok).
  exists ok, t. auto.
Qed.

(** A call that is neither a change of the store nor the start of a
    poll. *)
Local Abbreviation reading :=
  (fun e : event callE => isMutation e = false /\ isPoller e = false).

Lemma establishedCondition_calls CRDName crd s answer s1 t :
  run (establishedCondition CRDName crd) s = (answer, s1, t) ->
  Forall (concerns crd) t
  /\ Forall reading t
  /\ filter (fun e => isGet e = true) t = [ev (Get (Name crd))]
  /\ match answer.2 with
     | Some err => answer.1 = false /\ crdGet c (Name crd) s = (inr err, s1)
     | None =>
         answer.1 = true ->
         exists stored established,
           crdGet c (Name crd) s = (inl stored, s1)
           /\ established ∈ Conditions (Status stored)
           /\ cond_Type established = Established
           /\ cond_Status established = ConditionTrue
     end.
Proof.
  rewrite establishedCondition_run.
  destruct (crdGet c (Name crd) s) as [[stored | err] s0].
  - destruct (scanConditions_run CRDName None (Conditions (Status stored)) s0)
      as (ok & t0 & -> & Ht & Hok).
    intros [= <- <- <-]. cbn [fst snd].
    assert (Hlog : Forall (concerns crd) t0 /\ Forall reading t0
                   /\ filter (fun e => isGet e = true) t0 = []).
    { destruct Ht as [-> | (reason & _ & ->)]; repeat constructor. }
    destruct Hlog as (H1 & H2 & H3).
    split; [constructor; [reflexivity | exact H1] |].
    split; [constructor; [split; reflexivity | exact H2] |].
    split; [rewrite filter_cons_True by reflexivity; rewrite H3; reflexivity |].
    intros ->. destruct (proj1 Hok eq_refl)
      as (before & established & after & Hconds & HType & HStatus & _).
    exists stored, established. repeat split; auto.
    rewrite Hconds. apply elem_of_app. right. apply list_elem_of_here.
  - intros [= <- <- <-]. cbn [fst snd]. repeat constructor.
Qed.

(** The acceptance poll: it reads and logs only; it reads at least once
    and at most once more than there are ticks; it ends without an error
    only on a read that shows Established=True, and with an error only on
    a failed read or at the timeout, after the last read. *)
Lemma WaitFor_established CRDName crd :
  forall ticks s err s' t,
    run (wait.WaitFor ticks (establishedCondition CRDName crd)) s = (err, s', t) ->
    Forall (concerns crd) t
    /\ Forall reading t
    /\ 1 <= length (filter (fun e => isGet e = true) t) <= Datatypes.S ticks
    /\ match err with
       | None =>
           exists s0 stored established,
             crdGet c (Name crd) s0 = (inl stored, s')
             /\ established ∈ Conditions (Status stored)
             /\ cond_Type established = Established
             /\ cond_Status established = ConditionTrue
       | Some e =>
           (exists s0, crdGet c (Name crd) s0 = (inr e, s'))
           \/ (e = wait.ErrWaitTimeout
               /\ length (filter (fun e => isGet e = true) t) = Datatypes.S ticks)
       end.
Proof.
  induction ticks as [| ticks IH]; intros s err s' t;
    rewrite WaitFor_unfold, exec_bind;
    destruct (run (establishedCondition CRDName crd) s) as [[[ok e] s1] t1] eqn:Hone;
    destruct (establishedCondition_calls _ _ _ _ _ _ Hone) as (Hc & Hr & Hg & Hanswer);
    cbn [fst snd] in Hanswer.
  - destruct e as [e |]; [| destruct ok]; cbn; rewrite app_nil_r;
      intros [= <- <- <-]; rewrite Hg; cbn [length];
      (split; [exact Hc |]); (split; [exact Hr |]); (split; [lia |]).
    + left. exists s. apply Hanswer.
    + destruct (Hanswer eq_refl) as (stored & established & HGet & Hest).
      exists s, stored, established. auto.
    + right. auto.
  - destruct e as [e |]; [| destruct ok].
    + cbn. rewrite app_nil_r. intros [= <- <- <-]. rewrite Hg. cbn [length].
      split; [exact Hc |]. split; [exact Hr |]. split; [lia |].
      left. exists s. apply Hanswer.
    + cbn. rewrite app_nil_r. intros [= <- <- <-]. rewrite Hg. cbn [length].
      split; [exact Hc |]. split; [exact Hr |]. split; [lia |].
      destruct (Hanswer eq_refl) as (stored & established & HGet & Hest).
      exists s, stored, established. auto.
    + cbv beta iota.
      destruct (run (wait.WaitFor ticks (establishedCondition CRDName crd)) s1)
        as [[err2 s2] t2] eqn:Hrest.
      destruct (IH _ _ _ _ Hrest) as (Hc2 & Hr2 & Hg2 & Herr2).
      intros [= <- <- <-].
      rewrite filter_app, length_app, Hg. cbn [length].
      split; [apply Forall_app; auto |]. split; [apply Forall_app; auto |].
      split; [lia |].
      destruct err2 as [e2 |]; [| exact Herr2].
      destruct Herr2 as [Hread | [-> Hlen]]; [left; exact Hread |].
      right. split; [reflexivity | lia].
Qed.

(** One read of a status that does not show Established=True: the
    condition asks to be polled again. *)
Lemma establishedCondition_pending CRDName crd s stored s1 :
  crdGet c (Name crd) s = (inl stored, s1) ->
  Forall (fun cond => cond_Type cond = Established -> cond_Status cond <> ConditionTrue)
         (Conditions (Status stored)) ->
  exists t,
    run (establishedCondition CRDName crd) s = ((false, None), s1, t)
    /\ Forall reading t
    /\ filter (fun e => isGet e = true) t = [ev (Get (Name crd))].
Proof.
  intros HGet HPending.
  destruct (run (establishedCondition CRDName crd) s) as [[[ok err] s0] t] eqn:Hrun.
  destruct (establishedCondition_calls _ _ _ _ _ _ Hrun) as (_ & Hr & Hg & Hanswer).
  rewrite establishedCondition_run, HGet in Hrun.
  destruct (scanConditions_run CRDName None (Conditions (Status stored)) s1)
    as (ok' & t' & Hscan & _ & Hok).
  rewrite Hscan in Hrun. injection Hrun as <- <- <- <-.
  exists (ev (Get (Name crd)) :: t'). split; [| auto].
  destruct ok'; [| reflexivity].
  destruct (proj1 Hok eq_refl) as (before & established & after & Hconds & HType & HStatus & _).
  rewrite Hconds in HPending.
  apply Forall_app in HPending as [_ HPending]. inversion HPending; subst. tauto.
Qed.

Lemma WaitFor_pending_then_established CRDName crd k :
  forall ticks s s1 stored s2 before established after,
    pending c (Name crd) k s s1 ->
    k <= ticks ->
    crdGet c (Name crd) s1 = (inl stored, s2) ->
    Conditions (Status stored) = before ++ established :: after ->
    cond_Type established = Established ->
    cond_Status established = ConditionTrue ->
    Forall (fun d => cond_Type d = NamesAccepted -> cond_Status d <> ConditionFalse) before ->
    exists t,
      run (wait.WaitFor ticks (establishedCondition CRDName crd)) s = (None, s2, t)
      /\ Forall reading t
      /\ length (filter (fun e => isGet e = true) t) = Datatypes.S k.
Proof.
  induction k as [| k IH];
    intros ticks s s1 stored s2 before established after HPending Hk HGet HConds HType
      HStatus HBefore; inversion HPending; subst.
  - exists [ev (Get (Name crd))].
    rewrite WaitFor_unfold, exec_bind, establishedCondition_run, HGet, HConds.
    rewrite (scanConditions_established _ _ _ _ _ HType HStatus HBefore).
    split; [reflexivity |]. split; [repeat constructor | reflexivity].
  - destruct ticks as [| ticks]; [lia |].
    match goal with
    | Hread : crdGet c (Name crd) s = _, Hnot : Forall _ (Conditions _),
      Hrest : pending c (Name crd) k _ s1 |- _ =>
        destruct (establishedCondition_pending CRDName crd _ _ _ Hread Hnot)
          as (t1 & Hone & Hr1 & Hg1);
        destruct (IH ticks _ _ _ _ _ _ _ Hrest ltac:(lia) HGet HConds HType HStatus HBefore)
          as (t2 & Hrun & Hr2 & Hg2)
    end.
    exists (t1 ++ t2). rewrite WaitFor_unfold, exec_bind, Hone. cbv beta iota.
    rewrite Hrun. split; [reflexivity |]. split; [apply Forall_app; auto |].
    rewrite filter_app, length_app, Hg1, Hg2. reflexivity.
Qed.

Lemma WaitFor_never_established CRDName crd :
  forall ticks s s1,
    pending c (Name crd) (Datatypes.S ticks) s s1 ->
    exists t,
      run (wait.WaitFor ticks (establishedCondition CRDName crd)) s
      = (Some wait.ErrWaitTimeout, s1, t)
      /\ Forall reading t
      /\ length (filter (fun e => isGet e = true) t) = Datatypes.S ticks.
Proof.
  induction ticks as [| ticks IH]; intros s s1 HPending; inversion HPending; subst;
    match goal with
    | Hread : crdGet c (Name crd) s = _, Hnot : Forall _ (Conditions _) |- _ =>
        destruct (establishedCondition_pending CRDName crd _ _ _ Hread Hnot)
          as (t1 & Hone & Hr1 & Hg1)
    end.
  - match goal with Hrest : pending _ _ 0 _ _ |- _ => inversion Hrest; subst end.
    exists t1. rewrite WaitFor_unfold, exec_bind, Hone. cbn. rewrite app_nil_r.
    split; [reflexivity |]. split; [exact Hr1 |]. rewrite Hg1. reflexivity.
  - match goal with
    | Hrest : pending _ _ (Datatypes.S ticks) _ _ |- _ =>
        destruct (IH _ _ Hrest) as (t2 & Hrun & Hr2 & Hg2)
    end.
    exists (t1 ++ t2). rewrite WaitFor_unfold, exec_bind, Hone. cbv beta iota.
    rewrite Hrun. split; [reflexivity |]. split; [apply Forall_app; auto |].
    rewrite filter_app, length_app, Hg1, Hg2. reflexivity.
Qed.

Lemma waitEstablished_run CRDName crd s :
  run (waitEstablished CRDName crd) s
  = let '(ticks, s1) := pollerTicks c halfSecond minute s in
    let '(err, s2, t) := run (wait.WaitFor ticks (establishedCondition CRDName crd)) s1 in
    (err, s2,
     [ ev (Log Debug CRDName None
             "Waiting for CRD (CustomResourceDefinition) to be available...");
       ev (Poller halfSecond minute) ] ++ t).
Proof.
  unfold waitEstablished, Poll, wait.Poll, log.
  rewrite exec_bind, exec_call. cbn [serve fst snd].
  rewrite exec_bind, exec_call. cbn [serve].
  destruct (pollerTicks c halfSecond minute s) as [ticks s1]. cbn [fst snd].
  destruct (run (wait.WaitFor ticks (establishedCondition CRDName crd)) s1) as [[err s2] t].
  reflexivity.
Qed.

Lemma afterWait_run CRDName crd err s :
  run (afterWait CRDName crd err) s
  = match err with
    | None =>
        (None, s,
         [ev (Log Info CRDName None
                "CRD (CustomResourceDefinition) is installed and up-to-date")])
    | Some err =>
        let '(deleteErr, s1) := crdDelete c (Name crd) s in
        (Some match deleteErr with
              | Some deleteErr => deleteFailed CRDName deleteErr err
              | None => err
              end, s1, [ev (Delete (Name crd))])
    end.
Proof.
  destruct err as [err |]; [| reflexivity].
  unfold afterWait. rewrite exec_bind, exec_call. cbn [serve].
  destruct (crdDelete c (Name crd) s) as [[deleteErr |] s1]; reflexivity.
Qed.

(** X15.  What a nil result means.  [createUpdateCRD] returns nil only
    in two ways: its create was answered AlreadyExists, and the create is
    its last call; or the last read of the descriptor showed a condition
    Established=True, the store is as that read left it, and the last call
    is the log line that reports the installation. *)
Theorem createUpdateCRD_nil_means_established_or_lost_race CRDName crd s s' t :
  run (createUpdateCRD CRDName crd) s = (None, s', t) ->
  (exists s0 err,
      crdCreate c crd s0 = (inr err, s')
      /\ errors.IsAlreadyExists (Some err) = true
      /\ last t = Some (ev (Create crd)))
  \/ (exists s0 stored established,
         crdGet c (Name crd) s0 = (inl stored, s')
         /\ established ∈ Conditions (Status stored)
         /\ cond_Type established = Established
         /\ cond_Status established = ConditionTrue
         /\ last t
            = Some (ev (Log Info CRDName None
                          "CRD (CustomResourceDefinition) is installed and up-to-date"))).
Proof.
  rewrite createUpdateCRD_steps.
  destruct (run (fetchOrCreate CRDName crd) s) as [[[clusterCRD | result] s1] t1] eqn:HFetch.
  - destruct (run (updateIfNeeded CRDName crd clusterCRD) s1) as [[[err |] s2] t2];
      [discriminate |].
    rewrite waitEstablished_run.
    destruct (pollerTicks c halfSecond minute s2) as [ticks s3].
    destruct (run (wait.WaitFor ticks (establishedCondition CRDName crd)) s3)
      as [[err s4] t3] eqn:HWait.
    rewrite afterWait_run. destruct err as [err |].
    + destruct (crdDelete c (Name crd) s4); discriminate.
    + intros [= <- <-]. right.
      destruct (WaitFor_established _ _ _ _ _ _ _ HWait)
        as (_ & _ & _ & s0 & stored & established & HGet & Hest).
      exists s0, stored, established. split; [exact HGet |].
      destruct Hest as (H1 & H2 & H3). repeat split; auto.
      rewrite !last_app, !last_cons, last_app. reflexivity.
  - rewrite fetchOrCreate_run in HFetch.
    destruct (crdGet c (Name crd) s) as [[found | err] s0]; [discriminate |].
    destruct (errors.IsNotFound (Some err)).
    + destruct (crdCreate c crd s0) as [[created | err'] s2] eqn:HCreate; [discriminate |].
      destruct (errors.IsAlreadyExists (Some err')) eqn:HExists.
      * injection HFetch as <- <- <-. intros [= <- <-]. left.
        exists s0, err'. auto.
      * injection HFetch as <- <- <-. discriminate.
    + injection HFetch as <- <- <-. discriminate.
Qed.

(** X16.  The acceptance wait reads and logs only.  It starts one
    poller, at 500ms and 60s; it reads the status of the descriptor, by
    its name, at least once and at most once more than the poller delivers
    ticks; it makes no create, update or delete.  An error it returns is
    the error of a failed read, or the timeout, after all the reads. *)
Theorem acceptance_wait_reads_at_most_once_per_tick CRDName crd s ticks s1 err s' t :
  pollerTicks c halfSecond minute s = (ticks, s1) ->
  run (waitEstablished CRDName crd) s = (err, s', t) ->
  filter (fun e => isMutation e = true) t = []
  /\ filter (fun e => isPoller e = true) t = [ev (Poller halfSecond minute)]
  /\ Forall (fun e => isGet e = true -> e = ev (Get (Name crd))) t
  /\ 1 <= length (filter (fun e => isGet e = true) t) <= Datatypes.S ticks
  /\ (forall e, err = Some e ->
        (exists s0, crdGet c (Name crd) s0 = (inr e, s'))
        \/ (e = wait.ErrWaitTimeout
            /\ length (filter (fun e => isGet e = true) t) = Datatypes.S ticks)).
Proof.
  intros HTicks. rewrite waitEstablished_run, HTicks.
  destruct (run (wait.WaitFor ticks (establishedCondition CRDName crd)) s1)
    as [[err0 s2] t0] eqn:HWait.
  intros [= <- <- <-].
  destruct (WaitFor_established _ _ _ _ _ _ _ HWait) as (Hc & Hr & Hg & Herr).
  assert (Hquiet : filter (fun e => isMutation e = true) t0 = []
                   /\ filter (fun e => isPoller e = true) t0 = []).
  { clear -Hr. induction Hr as [| e t [Hm Hp] _ [IH1 IH2]]; [auto |].
    rewrite !filter_cons_False by congruence. auto. }
  destruct Hquiet as [Hm Hp].
  match goal with
  | |- context [?a :: ?b :: t0] => change (a :: b :: t0) with ([a; b] ++ t0)
  end.
  rewrite !filter_app, Hm, Hp.
  split; [reflexivity |]. split; [reflexivity |].
  split.
  { apply Forall_app. split; [repeat constructor; discriminate |].
    clear -Hc. induction Hc as [| [X e] t He _ IH]; constructor; [| exact IH].
    destruct e; cbn in *; try discriminate. intros _. rewrite He. reflexivity. }
  split; [exact Hg |].
  intros e ->. exact Herr.
Qed.

Local Abbreviation count f t := (length (filter (fun e : event callE => f e = true) t)).

Lemma reading_counts (t : list (event callE)) :
  Forall reading t ->
  count isCreate t = 0 /\ count isUpdate t = 0 /\ count isDelete t = 0
  /\ count isPoller t = 0.
Proof.
  induction 1 as [| [X e] t [Hm Hp] _ (IH1 & IH2 & IH3 & IH4)]; [auto |].
  rewrite !filter_cons_False; [auto | | | |]; destruct e; cbn in *; congruence.
Qed.

Lemma fetchOrCreate_calls CRDName crd s r s1 t :
  run (fetchOrCreate CRDName crd) s = (r, s1, t) ->
  Forall (concerns crd) t
  /\ count isCreate t <= 1 /\ count isUpdate t = 0 /\ count isDelete t = 0
  /\ count isPoller t = 0.
Proof.
  rewrite fetchOrCreate_run.
  destruct (crdGet c (Name crd) s) as [[found | err] s0].
  - intros [= <- <- <-]. split; [repeat constructor | vm_compute; lia].
  - destruct (errors.IsNotFound (Some err)).
    + destruct (crdCreate c crd s0) as [created s2].
      intros [= <- <- <-]. split; [repeat constructor | vm_compute; lia].
    + intros [= <- <- <-]. split; [repeat constructor | vm_compute; lia].
Qed.

Lemma updateIfNeeded_calls CRDName crd clusterCRD s u s1 t :
  run (updateIfNeeded CRDName crd clusterCRD) s = (u, s1, t) ->
  Forall (concerns crd) t
  /\ count isCreate t = 0 /\ count isUpdate t <= 1 /\ count isDelete t = 0
  /\ count isPoller t <= 1.
Proof.
  destruct (needsUpdate clusterCRD) eqn:HNeeds.
  - destruct (pollerTicks c halfSecond minute s) as [ticks s0] eqn:HTicks.
    rewrite (updateIfNeeded_run _ _ _ _ _ _ HNeeds HTicks), updateCondition_run.
    destruct (crdGet c (Name crd) s0) as [[fetched | err] s2].
    + destruct (needsUpdate fetched).
      * destruct (crdUpdate c _ s2) as [[updated | err] s3];
          intros [= <- <- <-]; (split; [repeat constructor | vm_compute; lia]).
      * intros [= <- <- <-]. split; [repeat constructor | vm_compute; lia].
    + intros [= <- <- <-]. split; [repeat constructor | vm_compute; lia].
  - rewrite (updateIfNeeded_current c _ _ _ _ HNeeds).
    intros [= <- <- <-]. split; [repeat constructor | vm_compute; lia].
Qed.

Lemma waitEstablished_calls CRDName crd s err s1 t :
  run (waitEstablished CRDName crd) s = (err, s1, t) ->
  Forall (concerns crd) t
  /\ count isCreate t = 0 /\ count isUpdate t = 0 /\ count isDelete t = 0
  /\ count isPoller t = 1.
Proof.
  rewrite waitEstablished_run.
  destruct (pollerTicks c halfSecond minute s) as [ticks s0].
  destruct (run (wait.WaitFor ticks (establishedCondition CRDName crd)) s0)
    as [[err0 s2] t0] eqn:HWait.
  intros [= <- <- <-].
  destruct (WaitFor_established _ _ _ _ _ _ _ HWait) as (Hc & Hr & _).
  destruct (reading_counts _ Hr) as (H1 & H2 & H3 & H4).
  split; [repeat (constructor; [exact I |]); exact Hc |].
  match goal with
  | |- context [?a :: ?b :: t0] => change (a :: b :: t0) with ([a; b] ++ t0)
  end.
  rewrite !filter_app, !length_app, H1, H2, H3, H4. vm_compute. auto.
Qed.

(** What a reconciliation asks of the store. *)
Lemma createUpdateCRD_calls CRDName crd s returned s' t :
  run (createUpdateCRD CRDName crd) s = (returned, s', t) ->
    Forall (concerns crd) t
    /\ count isCreate t <= 1
    /\ count isUpdate t <= 1
    /\ count isPoller t <= 2
    /\ (filter (fun e => isDelete e = true) t = []
        \/ (returned <> None
            /\ exists t0,
                 t = t0 ++ [ev (Delete (Name crd))]
                 /\ filter (fun e => isDelete e = true) t0 = [])).
Proof.
  rewrite createUpdateCRD_steps.
  destruct (run (fetchOrCreate CRDName crd) s) as [[r s1] t1] eqn:HFetch.
  destruct (fetchOrCreate_calls _ _ _ _ _ _ HFetch) as (Fc & F1 & F2 & F3 & F4).
  apply nil_length_inv in F3 as F3'.
  destruct r as [clusterCRD | result].
  - destruct (run (updateIfNeeded CRDName crd clusterCRD) s1) as [[u s2] t2] eqn:HUpdate.
    destruct (updateIfNeeded_calls _ _ _ _ _ _ _ HUpdate) as (Uc & U1 & U2 & U3 & U4).
    apply nil_length_inv in U3 as U3'.
    destruct u as [err |].
    + intros [= <- <- <-].
      rewrite !filter_app, !length_app, F3', U3'.
      split; [apply Forall_app; auto |]. repeat split; try lia. left. reflexivity.
    + destruct (run (waitEstablished CRDName crd) s2) as [[err s3] t3] eqn:HWait.
      destruct (waitEstablished_calls _ _ _ _ _ _ HWait) as (Wc & W1 & W2 & W3 & W4).
      apply nil_length_inv in W3 as W3'.
      rewrite afterWait_run. destruct err as [err |].
      * destruct (crdDelete c (Name crd) s3) as [deleteErr s4].
        intros [= <- <- <-].
        split; [repeat (apply Forall_app; split); auto; repeat constructor |].
        rewrite !filter_app, !length_app.
        change (count isCreate [ev (Delete (Name crd))]) with 0.
        change (count isUpdate [ev (Delete (Name crd))]) with 0.
        change (count isPoller [ev (Delete (Name crd))]) with 0.
        repeat split; try lia.
        right. split; [discriminate |].
        exists (t1 ++ t2 ++ t3). rewrite !filter_app, F3', U3', W3'.
        split; [| reflexivity]. rewrite <- !app_assoc. reflexivity.
      * intros [= <- <- <-].
        split; [repeat (apply Forall_app; split); auto; repeat constructor |].
        rewrite !filter_app, !length_app, F3', U3', W3'.
        match goal with
        | |- context [[?x]] =>
            change (count isCreate [x]) with 0;
            change (count isUpdate [x]) with 0;
            change (count isPoller [x]) with 0
        end.
        repeat split; try lia. left. reflexivity.
  - intros [= <- <- <-]. rewrite F3'.
    repeat split; auto; lia.
Qed.

(** X17.  What one reconciliation asks of the store, against every
    cluster and from every state.  Every fetch and every deletion is by
    the name of the descriptor being installed, a create submits that
    descriptor itself, an update carries its labels and its spec.  There
    is at most one create, at most one update, and at most two polls.  A
    deletion happens at most once, is then the last call of the run, and
    the run then returns an error. *)
Theorem createUpdateCRD_call_discipline CRDName crd s :
  exists result s' t,
    run (createUpdateCRD CRDName crd) s = (result, s', t)
    /\ Forall (concerns crd) t
    /\ count isCreate t <= 1
    /\ count isUpdate t <= 1
    /\ count isPoller t <= 2
    /\ (filter (fun e => isDelete e = true) t = []
        \/ (result <> None
            /\ exists t0,
                 t = t0 ++ [ev (Delete (Name crd))]
                 /\ filter (fun e => isDelete e = true) t0 = [])).
Proof.
  destruct (run (createUpdateCRD CRDName crd) s) as [[result s'] t] eqn:Hrun.
  exists result, s', t. split; [reflexivity |].
  exact (createUpdateCRD_calls _ _ _ _ _ _ Hrun).
Qed.

(** X20.  The acceptance wait ends at the first read that shows
    Established=True.  If [k] reads in a row show it not, [k] being at
    most the number of ticks, and the next read shows it before any
    NamesAccepted=False, the run returns nil after these [k + 1] reads,
    with no further call to the store; a name conflict seen at an earlier
    read does not end the wait. *)
Theorem createUpdateCRD_returns_once_established
    CRDName crd s clusterCRD s1 t1 s2 t2 ticks s3 k s4 stored s5
    before established after :
  run (fetchOrCreate CRDName crd) s = (inl clusterCRD, s1, t1) ->
  run (updateIfNeeded CRDName crd clusterCRD) s1 = (None, s2, t2) ->
  pollerTicks c halfSecond minute s2 = (ticks, s3) ->
  pending c (Name crd) k s3 s4 ->
  k <= ticks ->
  crdGet c (Name crd) s4 = (inl stored, s5) ->
  Conditions (Status stored) = before ++ established :: after ->
  cond_Type established = Established ->
  cond_Status established = ConditionTrue ->
  Forall (fun d => cond_Type d = NamesAccepted -> cond_Status d <> ConditionFalse) before ->
  exists reads,
    run (createUpdateCRD CRDName crd) s
    = (None, s5,
       t1 ++ t2
       ++ [ ev (Log Debug CRDName None
                  "Waiting for CRD (CustomResourceDefinition) to be available...");
            ev (Poller halfSecond minute) ]
       ++ reads
       ++ [ ev (Log Info CRDName None
                  "CRD (CustomResourceDefinition) is installed and up-to-date") ])
    /\ length (filter (fun e => isGet e = true) reads) = Datatypes.S k
    /\ filter (fun e => isMutation e = true) reads = []
    /\ filter (fun e => isPoller e = true) reads = [].
Proof.
  intros HFetch HUpdate HTicks HPending Hk HGet HConds HType HStatus HBefore.
  destruct (WaitFor_pending_then_established CRDName crd k ticks _ _ _ _ _ _ _
              HPending Hk HGet HConds HType HStatus HBefore)
    as (reads & Hrun & Hr & Hg).
  exists reads. split; [| split; [exact Hg |]].
  - rewrite createUpdateCRD_steps, HFetch, HUpdate, waitEstablished_run, HTicks, Hrun.
    rewrite afterWait_run. rewrite <- !app_assoc. reflexivity.
  - clear -Hr. induction Hr as [| e t [Hm Hp] _ [IH1 IH2]]; [auto |].
    rewrite !filter_cons_False by congruence. auto.
Qed.

(** X21.  The timeout of the acceptance wait.  If no read within the
    poll window shows Established=True (one read for each tick and one
    more), the wait ends with the timeout error after exactly these reads;
    the run then deletes the descriptor, as its last call, and returns the
    timeout error, or the error that reports both when the deletion
    fails. *)
Theorem createUpdateCRD_times_out_and_rolls_back
    CRDName crd s clusterCRD s1 t1 s2 t2 ticks s3 s4 deleteErr s5 :
  run (fetchOrCreate CRDName crd) s = (inl clusterCRD, s1, t1) ->
  run (updateIfNeeded CRDName crd clusterCRD) s1 = (None, s2, t2) ->
  pollerTicks c halfSecond minute s2 = (ticks, s3) ->
  pending c (Name crd) (Datatypes.S ticks) s3 s4 ->
  crdDelete c (Name crd) s4 = (deleteErr, s5) ->
  exists reads,
    run (createUpdateCRD CRDName crd) s
    = (Some match deleteErr with
            | Some deleteErr => deleteFailed CRDName deleteErr wait.ErrWaitTimeout
            | None => wait.ErrWaitTimeout
            end, s5,
       t1 ++ t2
       ++ [ ev (Log Debug CRDName None
                  "Waiting for CRD (CustomResourceDefinition) to be available...");
            ev (Poller halfSecond minute) ]
       ++ reads
       ++ [ ev (Delete (Name crd)) ])
    /\ length (filter (fun e => isGet e = true) reads) = Datatypes.S ticks
    /\ filter (fun e => isMutation e = true) reads = []
    /\ filter (fun e => isPoller e = true) reads = [].
Proof.
  intros HFetch HUpdate HTicks HPending HDelete.
  destruct (WaitFor_never_established CRDName crd ticks _ _ HPending)
    as (reads & Hrun & Hr & Hg).
  exists reads. split; [| split; [exact Hg |]].
  - rewrite createUpdateCRD_steps, HFetch, HUpdate, waitEstablished_run, HTicks, Hrun.
    rewrite afterWait_run, HDelete. rewrite <- !app_assoc. reflexivity.
  - clear -Hr. induction Hr as [| e t [Hm Hp] _ [IH1 IH2]]; [auto |].
    rewrite !filter_cons_False by congruence. auto.
Qed.

End reconciler_steps.

(** ** The kinds: what every start-up asks of the store *)

Section kinds_calls.
Import Go v2.
Context `{Externals} {S : Type} (c : Cluster S).

Local Abbreviation run p s := (exec (serve c) p s).
Local Abbreviation halfSecond := (500 * Millisecond)%Z.
Local Abbreviation minute := (60 * Second)%Z.

#[local] Arguments needsUpdate : simpl never.

Lemma built_names_differ :
  NoDup (Name <$> [cnpCRD; cepCRD; nodeCRD; identityCRD]).
Proof.
  cbn [fmap list_fmap].
  apply NoDup_cons. split.
  { rewrite !elem_of_cons, elem_of_nil.
    intros [Heq | [Heq | [Heq | []]]]; vm_compute in Heq; discriminate Heq. }
  apply NoDup_cons. split.
  { rewrite !elem_of_cons, elem_of_nil.
    intros [Heq | [Heq | []]]; vm_compute in Heq; discriminate Heq. }
  apply NoDup_cons. split.
  { rewrite !elem_of_cons, elem_of_nil.
    intros [Heq | []]; vm_compute in Heq; discriminate Heq. }
  apply NoDup_singleton.
Qed.

(** In the order of [reconcileInOrder]: what holds of the calls of every
    kind holds of the calls of the sequence, and a deletion is the last
    call of a failed sequence. *)
Lemma reconcileInOrder_calls (P : event callE -> Prop)
    (kinds : list (prog callE (option error))) :
  (forall kind, kind ∈ kinds ->
     forall s returned s' t,
       run kind s = (returned, s', t) ->
       Forall P t
       /\ (filter (fun e => isDelete e = true) t = []
           \/ (returned <> None
               /\ exists t0 e, t = t0 ++ [e] /\ isDelete e = true
                               /\ filter (fun e => isDelete e = true) t0 = []))) ->
  forall s returned s' t,
    run (reconcileInOrder kinds) s = (returned, s', t) ->
    Forall P t
    /\ (filter (fun e => isDelete e = true) t = []
        \/ (returned <> None
            /\ exists t0 e, t = t0 ++ [e] /\ isDelete e = true
                            /\ filter (fun e => isDelete e = true) t0 = [])).
Proof.
  induction kinds as [| kind rest IH]; intros Hkinds s returned s' t.
  - intros [= <- <- <-]. split; [constructor | left; reflexivity].
  - cbn [reconcileInOrder]. rewrite exec_bind.
    destruct (run kind s) as [[r s1] t1] eqn:Hkind.
    destruct (Hkinds kind (list_elem_of_here _ _) _ _ _ _ Hkind) as [HP HD].
    destruct r as [err |].
    + cbn. rewrite app_nil_r. intros [= <- <- <-]. auto.
    + destruct (run (reconcileInOrder rest) s1) as [[r2 s2] t2] eqn:Hrest.
      destruct (IH (fun k Hk => Hkinds k (list_elem_of_further _ _ _ Hk)) _ _ _ _ Hrest)
        as [HP2 HD2].
      intros [= <- <- <-].
      destruct HD as [HD | [Hcontra _]]; [| destruct (Hcontra eq_refl)].
      split; [apply Forall_app; auto |].
      rewrite filter_app, HD. cbn [app].
      destruct HD2 as [HD2 | (Hr2 & t0 & e & -> & He & Ht0)]; [left; exact HD2 |].
      right. split; [exact Hr2 |].
      exists (t1 ++ t0), e. rewrite filter_app, HD, Ht0, app_assoc. auto.
Qed.

Lemma createUpdateCRD_calls_of_kind CRDName crd (P : event callE -> Prop) :
  (forall e, concerns crd e -> P e) ->
  forall s returned s' t,
    run (createUpdateCRD CRDName crd) s = (returned, s', t) ->
    Forall P t
    /\ (filter (fun e => isDelete e = true) t = []
        \/ (returned <> None
            /\ exists t0 e, t = t0 ++ [e] /\ isDelete e = true
                            /\ filter (fun e => isDelete e = true) t0 = [])).
Proof.
  intros HP s returned s' t Hrun.
  destruct (createUpdateCRD_calls c _ _ _ _ _ _ Hrun) as (Hc & _ & _ & _ & HD).
  split; [eapply Forall_impl; [exact Hc | exact HP] |].
  destruct HD as [HD | (Hr & t0 & -> & Ht0)]; [left; exact HD |].
  right. split; [exact Hr |]. exists t0, (ev (Delete (Name crd))). auto.
Qed.

(** X18.  What the start-up sequence asks of the store.  The four
    descriptors have four different names, whatever the group name.
    Every call of [CreateCustomResourceDefinitions] belongs to the
    reconciliation of the policy, endpoint or node kind, or of the
    identity kind in the CRD allocation mode; in any other mode the
    identity descriptor is neither fetched, created nor deleted.  At most
    one descriptor is deleted in a run, by the last call of a run that
    returns an error. *)
Theorem CreateCustomResourceDefinitions_call_discipline cfg s :
  NoDup (Name <$> [cnpCRD; cepCRD; nodeCRD; identityCRD])
  /\ exists returned s' t,
       run (CreateCustomResourceDefinitions cfg) s = (returned, s', t)
       /\ Forall (fun e =>
                    concerns cnpCRD e \/ concerns cepCRD e \/ concerns nodeCRD e
                    \/ (IdentityAllocationMode cfg = IdentityAllocationModeCRD
                        /\ concerns identityCRD e)) t
       /\ (filter (fun e => isDelete e = true) t = []
           \/ (returned <> None
               /\ exists t0 e, t = t0 ++ [e] /\ isDelete e = true
                               /\ filter (fun e => isDelete e = true) t0 = []))
       /\ (IdentityAllocationMode cfg <> IdentityAllocationModeCRD ->
           (ev (Get (Name identityCRD)) ∉ t)
           /\ (ev (Create identityCRD) ∉ t)
           /\ (ev (Delete (Name identityCRD)) ∉ t)).
Proof.
  split; [exact built_names_differ |].
  destruct (run (CreateCustomResourceDefinitions cfg) s) as [[returned s'] t] eqn:Hrun.
  exists returned, s', t. split; [reflexivity |].
  rewrite CreateCustomResourceDefinitions_refines in Hrun.
  set (P := fun e : event callE =>
              concerns cnpCRD e \/ concerns cepCRD e \/ concerns nodeCRD e
              \/ (IdentityAllocationMode cfg = IdentityAllocationModeCRD
                  /\ concerns identityCRD e)).
  assert (Hall : Forall P t /\ (filter (fun e => isDelete e = true) t = []
           \/ (returned <> None
               /\ exists t0 e, t = t0 ++ [e] /\ isDelete e = true
                               /\ filter (fun e => isDelete e = true) t0 = []))).
  { apply (reconcileInOrder_calls P (managedKinds cfg)) with (s := s) (s' := s');
      [| exact Hrun].
    intros kind Hkind. unfold managedKinds in Hkind.
    rewrite elem_of_app, !elem_of_cons, elem_of_nil in Hkind.
    destruct Hkind as [[-> | [-> | [-> | []]]] | Hidentity].
    - apply createUpdateCRD_calls_of_kind. unfold P. tauto.
    - apply createUpdateCRD_calls_of_kind. unfold P. tauto.
    - apply createUpdateCRD_calls_of_kind. unfold P. tauto.
    - destruct (String.eqb_spec (IdentityAllocationMode cfg) IdentityAllocationModeCRD)
        as [Hmode | Hmode]; [| apply elem_of_nil in Hidentity; destruct Hidentity].
      apply list_elem_of_singleton in Hidentity as ->.
      apply createUpdateCRD_calls_of_kind. unfold P. tauto. }
  destruct Hall as [HP HD]. split; [exact HP |]. split; [exact HD |].
  intros Hmode.
  assert (Hne : Name identityCRD <> Name cnpCRD /\ Name identityCRD <> Name cepCRD
                /\ Name identityCRD <> Name nodeCRD).
  { repeat split; intros Heq; vm_compute in Heq; discriminate Heq. }
  destruct Hne as (Hcnp & Hcep & Hnode).
  rewrite Forall_forall in HP.
  repeat split; intros Hin; apply HP in Hin;
    destruct Hin as [Heq | [Heq | [Heq | [Heq _]]]]; try (destruct (Hmode Heq)).
  - exact (Hcnp Heq).
  - exact (Hcep Heq).
  - exact (Hnode Heq).
  - exact (Hcnp (f_equal Name (Heq : identityCRD = cnpCRD))).
  - exact (Hcep (f_equal Name (Heq : identityCRD = cepCRD))).
  - exact (Hnode (f_equal Name (Heq : identityCRD = nodeCRD))).
  - exact (Hcnp Heq).
  - exact (Hcep Heq).
  - exact (Hnode Heq).
Qed.

Lemma needsUpdate_as_installed (crd stored : CustomResourceDefinition) :
  Labels stored = Labels crd -> Spec stored = Spec crd ->
  needsUpdate stored = needsUpdate crd.
Proof. intros HLabels HSpec. unfold needsUpdate. rewrite HLabels, HSpec. reflexivity. Qed.

(** X19.  The endpoint, node and identity kinds are updated by every
    run.  Their descriptors carry no schema-version label (the node and
    identity ones no validation either), so a descriptor that the store
    holds exactly as the package installs it, found by the fetch or just
    created, is in need of an update, and so it is again at the second
    fetch: the run sends an update that submits what the store already
    holds.  (For the policy kind such a run only reads, see C8.) *)
Theorem unlabelled_kinds_are_updated_on_every_run
    CRDName crd s fetched s1 t1 ticks s2 again s3 :
  (CRDName, crd) ∈ [ ("v2.CiliumEndpoint", cepCRD); ("v2.CiliumNode", nodeCRD);
                     ("v2.CiliumIdentity", identityCRD) ] ->
  run (fetchOrCreate CRDName crd) s = (inl fetched, s1, t1) ->
  Labels fetched = Labels crd ->
  Spec fetched = Spec crd ->
  pollerTicks c halfSecond minute s1 = (ticks, s2) ->
  crdGet c (Name crd) s2 = (inl again, s3) ->
  Labels again = Labels crd ->
  Spec again = Spec crd ->
  exists returned s' rest,
    run (createUpdateCRD CRDName crd) s
    = (returned, s',
       t1 ++ [ ev (Log Debug CRDName None
                     "Checking if CRD (CustomResourceDefinition) needs update...");
               ev (Log Info CRDName None "Updating CRD (CustomResourceDefinition)...");
               ev (Poller halfSecond minute);
               ev (Get (Name crd));
               ev (Log Debug CRDName None "CRD validation is different, updating it...");
               ev (Update again) ] ++ rest).
Proof.
  intros Hkind HFetch HLabels HSpec HTicks HAgain HLabels' HSpec'.
  assert (HNeeds : needsUpdate crd = true).
  { destruct built_descriptors_needing_update as (Hcep & Hnode & Hidentity & _).
    rewrite !elem_of_cons, elem_of_nil in Hkind.
    destruct Hkind as [[= -> ->] | [[= -> ->] | [[= -> ->] | []]]]; assumption. }
  assert (HSubmitted : {| Name := Name again; Labels := Labels crd; Spec := Spec crd;
                          Status := Status again |} = again).
  { rewrite <- HLabels', <- HSpec'. destruct again. reflexivity. }
  rewrite (createUpdateCRD_steps c), HFetch.
  rewrite (updateIfNeeded_run c _ _ _ _ _ _
             (eq_trans (needsUpdate_as_installed _ _ HLabels HSpec) HNeeds) HTicks).
  rewrite (updateCondition_run c), HAgain.
  rewrite (eq_trans (needsUpdate_as_installed _ _ HLabels' HSpec') HNeeds), HSubmitted.
  destruct (crdUpdate c again s3) as [[updated | err] s4].
  - cbn [snd].
    destruct (run (waitEstablished CRDName crd) s4) as [[err s5] t3].
    destruct (run (afterWait CRDName crd err) s5) as [[returned s6] t4].
    exists returned, s6, (t3 ++ t4). reflexivity.
  - eexists _, _, _. cbn [snd]. reflexivity.
Qed.

End kinds_calls.

(** ** More runs against the clusters of Part I *)

Section cluster_more.
Import Go v2 cluster.

Local Abbreviation halfSecond := (500 * Millisecond)%Z.
Local Abbreviation minute := (60 * Second)%Z.
Local Abbreviation policyKind := "CiliumNetworkPolicy/v2".

Lemma createUpdateCRD_returns_store_errors_at_once_witness :
  exec (serve scripted) (createUpdateCRD policyKind cnpCRD) unreachable
  = (Some (errorString "connection refused"), [], [ev (Get (Name cnpCRD))])
  /\ exec (serve scripted) (createUpdateCRD policyKind cnpCRD) refusedCreate
     = (Some (errorString "forbidden"), [],
        [ ev (Get (Name cnpCRD));
          ev (Log Info policyKind None "Creating CRD (CustomResourceDefinition)...");
          ev (Create cnpCRD) ]).
Proof.
  split.
  - apply (proj1 (createUpdateCRD_returns_store_errors_at_once scripted policyKind cnpCRD
                    unreachable)); vm_compute; reflexivity.
  - eapply (proj2 (createUpdateCRD_returns_store_errors_at_once scripted policyKind cnpCRD
                     refusedCreate)).
    + vm_compute. reflexivity.
    + vm_compute. reflexivity.
    + vm_compute. reflexivity.
    + vm_compute. reflexivity.
Defined.

Lemma createUpdateCRD_update_failure_is_final_witness :
  exists calls,
    exec (serve scripted) (createUpdateCRD policyKind cnpCRD) refusedUpdate
    = (Some (errorString "the object has been modified"), [], calls)
    /\ filter (fun e => isDelete e = true) calls = []
    /\ length (filter (fun e => isUpdate e = true) calls) = 1.
Proof.
  edestruct (createUpdateCRD_update_failure_is_final scripted policyKind cnpCRD
               refusedUpdate) as [_ Hrefused].
  - vm_compute. reflexivity.
  - vm_compute. reflexivity.
  - vm_compute. reflexivity.
  - eexists. split; [| split].
    + eapply Hrefused.
      * vm_compute. reflexivity.
      * vm_compute. reflexivity.
      * vm_compute. reflexivity.
    + reflexivity.
    + reflexivity.
Defined.

Lemma createUpdateCRD_updates_what_it_fetched_again_witness :
  exists s' calls,
    exec (serve shared) (createUpdateCRD policyKind cnpCRD)
         (holding (stored (Some "1.14") accepted) 120)
    = (None, s', calls)
    /\ filter (fun e => isUpdate e = true) calls
       = [ev (Update (stored (Some "1.15") accepted))]
    /\ objects s' !! Name cnpCRD = Some (stored (Some "1.15") accepted).
Proof.
  edestruct (createUpdateCRD_updates_what_it_fetched_again shared policyKind cnpCRD
               (holding (stored (Some "1.14") accepted) 120)) as [_ Hupdated].
  - vm_compute. reflexivity.
  - vm_compute. reflexivity.
  - vm_compute. reflexivity.
  - vm_compute. reflexivity.
  - eexists _, _. split; [| split].
    + rewrite (Hupdated (stored (Some "1.15") accepted)
                 (holding (stored (Some "1.15") accepted) 120)).
      * vm_compute. reflexivity.
      * vm_compute. reflexivity.
      * vm_compute. reflexivity.
    + vm_compute. reflexivity.
    + vm_compute. reflexivity.
Defined.

Lemma status_read_is_decided_by_the_first_decisive_condition_witness :
  exists t,
    exec (serve shared) (establishedCondition policyKind cnpCRD)
         (holding (stored (Some "1.15") accepted) 120)
    = ((true, None), holding (stored (Some "1.15") accepted) 120,
       ev (Get (Name cnpCRD)) :: t).
Proof.
  destruct (status_read_is_decided_by_the_first_decisive_condition shared policyKind cnpCRD
              (holding (stored (Some "1.15") accepted) 120)
              (stored (Some "1.15") accepted)
              (holding (stored (Some "1.15") accepted) 120))
    as (ok & t & Hrun & _ & Hok).
  - vm_compute. reflexivity.
  - exists t. rewrite Hrun.
    assert (ok = true) as ->; [| reflexivity].
    apply Hok.
    exists [condition NamesAccepted ConditionTrue "NoConflicts"],
           (condition Established ConditionTrue "InitialNamesAccepted"), [].
    repeat split. constructor; [| constructor]. intros _. discriminate.
Defined.

Lemma createUpdateCRD_nil_means_established_or_lost_race_witness :
  (exists s0 err,
      crdCreate shared cnpCRD s0 = (inr err, land racing)
      /\ errors.IsAlreadyExists (Some err) = true
      /\ last [ ev (Get (Name cnpCRD));
                ev (Log Info policyKind None "Creating CRD (CustomResourceDefinition)...");
                ev (Create cnpCRD) ]
         = Some (ev (Create cnpCRD)))
  \/ (exists s0 stored established,
         crdGet shared (Name cnpCRD) s0 = (inl stored, land racing)
         /\ established ∈ Conditions (Status stored)
         /\ cond_Type established = Established
         /\ cond_Status established = ConditionTrue
         /\ last [ ev (Get (Name cnpCRD));
                   ev (Log Info policyKind None
                         "Creating CRD (CustomResourceDefinition)...");
                   ev (Create cnpCRD) ]
            = Some (ev (Log Info policyKind None
                          "CRD (CustomResourceDefinition) is installed and up-to-date"))).
Proof.
  apply (createUpdateCRD_nil_means_established_or_lost_race shared policyKind cnpCRD racing).
  vm_compute. reflexivity.
Defined.

Lemma acceptance_wait_reads_at_most_once_per_tick_witness :
  1 <= length (filter (fun e => isGet e = true)
                 (exec (serve shared) (waitEstablished policyKind cnpCRD)
                       (holding (stored (Some "1.15") conflicting) 2)).2)
    <= 3
  /\ filter (fun e => isMutation e = true)
       (exec (serve shared) (waitEstablished policyKind cnpCRD)
             (holding (stored (Some "1.15") conflicting) 2)).2
     = [].
Proof.
  destruct (exec (serve shared) (waitEstablished policyKind cnpCRD)
              (holding (stored (Some "1.15") conflicting) 2))
    as [[err s'] t] eqn:Hrun.
  destruct (acceptance_wait_reads_at_most_once_per_tick shared policyKind cnpCRD
              (holding (stored (Some "1.15") conflicting) 2) 2
              (holding (stored (Some "1.15") conflicting) 2) err s' t)
    as (Hquiet & _ & _ & Hreads & _).
  - reflexivity.
  - exact Hrun.
  - split; [exact Hreads | exact Hquiet].
Defined.

Lemma unlabelled_kinds_are_updated_on_every_run_witness :
  exists returned s' rest,
    exec (serve shared) (createUpdateCRD "v2.CiliumEndpoint" cepCRD)
         (holding (installed cepCRD) 120)
    = (returned, s',
       [ ev (Get (Name cepCRD));
         ev (Log Debug "v2.CiliumEndpoint" None
               "Checking if CRD (CustomResourceDefinition) needs update...");
         ev (Log Info "v2.CiliumEndpoint" None
               "Updating CRD (CustomResourceDefinition)...");
         ev (Poller halfSecond minute);
         ev (Get (Name cepCRD));
         ev (Log Debug "v2.CiliumEndpoint" None
               "CRD validation is different, updating it...");
         ev (Update (installed cepCRD)) ] ++ rest).
Proof.
  apply (unlabelled_kinds_are_updated_on_every_run shared "v2.CiliumEndpoint" cepCRD
           (holding (installed cepCRD) 120) (installed cepCRD)
           (holding (installed cepCRD) 120) [ev (Get (Name cepCRD))] 120
           (holding (installed cepCRD) 120) (installed cepCRD)
           (holding (installed cepCRD) 120)).
  - apply list_elem_of_here.
  - vm_compute. reflexivity.
  - reflexivity.
  - reflexivity.
  - reflexivity.
  - vm_compute. reflexivity.
  - reflexivity.
  - reflexivity.
Defined.

Lemma createUpdateCRD_returns_once_established_witness :
  exists calls,
    exec (serve scripted) (createUpdateCRD policyKind cnpCRD) slowlyEstablished
    = (None, [], calls)
    /\ length (filter (fun e => isGet e = true) calls) = 3.
Proof.
  edestruct (createUpdateCRD_returns_once_established scripted policyKind cnpCRD
               slowlyEstablished)
    with (k := 1)
         (before := [condition NamesAccepted ConditionTrue "NoConflicts"])
         (established := condition Established ConditionTrue "InitialNamesAccepted")
         (after := @nil CustomResourceDefinitionCondition)
    as (reads & Hrun & Hreads & _).
  - vm_compute. reflexivity.
  - vm_compute. reflexivity.
  - vm_compute. reflexivity.
  - eapply pending_S; [vm_compute; reflexivity | constructor | apply pending_O].
  - vm_compute. lia.
  - vm_compute. reflexivity.
  - reflexivity.
  - reflexivity.
  - reflexivity.
  - constructor; [| constructor]. intros _. discriminate.
  - eexists. split; [exact Hrun |].
    rewrite !filter_app, !length_app, Hreads. reflexivity.
Defined.

Lemma createUpdateCRD_times_out_and_rolls_back_witness :
  exists s' calls,
    exec (serve shared) (createUpdateCRD policyKind cnpCRD) vacant
    = (Some wait.ErrWaitTimeout, s', calls)
    /\ objects s' = ∅
    /\ last calls = Some (ev (Delete (Name cnpCRD))).
Proof.
  edestruct (createUpdateCRD_times_out_and_rolls_back shared policyKind cnpCRD vacant)
    as (reads & Hrun & _).
  - vm_compute. reflexivity.
  - vm_compute. reflexivity.
  - vm_compute. reflexivity.
  - eapply pending_S; [vm_compute; reflexivity | constructor |].
    eapply pending_S; [vm_compute; reflexivity | constructor |].
    eapply pending_S; [vm_compute; reflexivity | constructor |].
    apply pending_O.
  - vm_compute. reflexivity.
  - eexists _, _. split; [exact Hrun |]. split; [vm_compute; reflexivity |].
    rewrite !last_app. reflexivity.
Defined.

End cluster_more.
